(** * The interaction and camera state machine of the 3D resume page

    A shallow embedding of [src/main.js]: the click handler [onClick], the
    focus-in tween [zoomToModel] / [animateCamera], the content presenter
    [showContent], the reset tween [resetView] / [animateReset], the intro
    tween [initialCameraAnimation] and the per-frame callback [animate].

    JavaScript numbers are idealised as real numbers; where a statement
    depends on how the page rounds them, the sections on double arithmetic
    and on [Float32Array] make the rounding explicit.  The rendering library
    is an opaque collaborator: the result of a ray query, the measured
    bounding box of a model and the effect of [controls.update()] are inputs
    of the events that need them. *)

From Stdlib Require Import Reals Lra List String Bool Arith Lia.
From Corelib Require PrimFloat SpecFloat FloatOps.
From stdpp Require Import base option list gmap strings.
Import ListNotations.

Open Scope R_scope.

(** ** THREE.Vector3 *)

Module Three.

Record Vector3 := vec3 { vx : R; vy : R; vz : R }.

(** [a.clone().add(b)] *)
Definition add (a b : Vector3) : Vector3 :=
  vec3 (vx a + vx b) (vy a + vy b) (vz a + vz b).

Definition sub (a b : Vector3) : Vector3 :=
  vec3 (vx a - vx b) (vy a - vy b) (vz a - vz b).

(** [this.x = v1.x + (v2.x - v1.x) * alpha], and so on for y and z *)
Definition lerpVectors (v1 v2 : Vector3) (alpha : R) : Vector3 :=
  vec3 (vx v1 + (vx v2 - vx v1) * alpha)
       (vy v1 + (vy v2 - vy v1) * alpha)
       (vz v1 + (vz v2 - vz v1) * alpha).

Definition lengthSq (a : Vector3) : R :=
  vx a * vx a + vy a * vy a + vz a * vz a.

Definition distanceTo (a b : Vector3) : R := sqrt (lengthSq (sub a b)).

End Three.
Import Three.

(** ** Labels and the scene graph under [papers] *)

(** [texture.image.title = text] *)
Record Image := mkImage { title : string }.
Record Texture := mkTexture { image : option Image }.
(** [material.map] is spelled [map_texture]. *)
Record SpriteMaterial := mkSpriteMaterial { map_texture : option Texture; opacity : R }.
(** [sprite.name = text]; a sprite always carries a material. *)
Record Sprite := mkSprite { name : string; material : SpriteMaterial }.

(** [createLabel(text, position, scale)], as far as the page reads it later. *)
Definition createLabel (text : string) : Sprite :=
  mkSprite text (mkSpriteMaterial (Some (mkTexture (Some (mkImage text)))) 0).

Definition set_opacity (v : R) (l : Sprite) : Sprite :=
  mkSprite (name l) (mkSpriteMaterial (map_texture (material l)) v).

(** The animation parameters stored by [createPaper] in [fbx.userData]. *)
Record FloatParams := mkFloatParams {
  initialPosition : Vector3;
  floatSpeed : R;
  rotationSpeed : R;
  floatOffset : R;
  floatRadius : R
}.

(** An object of the scene graph: its position, [userData.label],
    the parameters [createPaper] stored (absent on loaded meshes), and its
    children.  The parent link of the source is the path from the root. *)
#[warnings="-register-all"]
Inductive Object3D := mkObject3D {
  position : Vector3;
  userData_label : option Sprite;
  userData_float : option FloatParams;
  children : list Object3D
}.

Definition set_label (l : option Sprite) (o : Object3D) : Object3D :=
  mkObject3D (position o) l (userData_float o) (children o).

Definition set_position (p : Vector3) (o : Object3D) : Object3D :=
  mkObject3D p (userData_label o) (userData_float o) (children o).

(** A reference to an object below [papers]: the index of the paper in the
    array and the child indices leading down from it. *)
Abbreviation ObjectRef := (nat * list nat)%type.

(** The object a path leads to, with every object passed on the way: the
    result lists the object itself first, then its parent, and so on up to
    the paper.  The parent of a paper is the scene, which carries no label,
    and the parent of the scene is [null]. *)
Fixpoint lineage (o : Object3D) (here path : list nat)
  : option (list (list nat * Object3D)) :=
  match path with
  | [] => Some [(here, o)]
  | i :: rest =>
      match children o !! i with
      | None => None
      | Some c =>
          match lineage c (here ++ [i]) rest with
          | None => None
          | Some l => Some (l ++ [(here, o)])
          end
      end
  end.

Definition has_label (n : list nat * Object3D) : bool :=
  match userData_label (snd n) with Some _ => true | None => false end.

(** [while (parentModel && !parentModel.userData.label)
       parentModel = parentModel.parent;] *)
Definition climb (l : list (list nat * Object3D)) : option (list nat * Object3D) :=
  List.find has_label l.

(** [let parentModel = intersects[0].object; while ...]: the labelled
    ancestor (or self) of the first hit, [None] for [null]. *)
Definition parentModel_of (papers : list Object3D) (intersects : list ObjectRef)
  : option (ObjectRef * Object3D) :=
  match intersects with
  | [] => None
  | (i, path) :: _ =>
      match papers !! i with
      | None => None
      | Some paper =>
          match lineage paper [] path with
          | None => None
          | Some l =>
              match climb l with
              | None => None
              | Some (p, o) => Some ((i, p), o)
              end
          end
      end
  end.

(** Replace the object at the end of a path. *)
Fixpoint update_at (f : Object3D -> Object3D) (o : Object3D) (path : list nat)
  : Object3D :=
  match path with
  | [] => f o
  | i :: rest =>
      match children o !! i with
      | None => o
      | Some c =>
          mkObject3D (position o) (userData_label o) (userData_float o)
                     (<[i := update_at f c rest]> (children o))
      end
  end.

Definition update_ref (f : Object3D -> Object3D) (r : ObjectRef)
  (papers : list Object3D) : list Object3D :=
  match papers !! (fst r) with
  | None => papers
  | Some paper => <[fst r := update_at f paper (snd r)]> papers
  end.

(** [x.userData.label.material.opacity = v] *)
Definition set_label_opacity (v : R) (o : Object3D) : Object3D :=
  set_label (option_map (set_opacity v) (userData_label o)) o.

Definition label_opacity (o : Object3D) : option R :=
  option_map (fun l => opacity (material l)) (userData_label o).

(** ** The static content table *)

Module Content.

(** What a property read on a JavaScript object can yield here: nothing, a
    text of the table, or a function or object found on the prototype. *)
Inductive JSValue :=
| JSUndefined
| JSString (s : string)
| JSFunction (fname : string)
| JSObject (oname : string).

(** [!v] is false exactly on the truthy values. *)
Definition truthy (v : JSValue) : bool :=
  match v with
  | JSUndefined => false
  | JSString s => negb (String.eqb s EmptyString)
  | JSFunction _ => true
  | JSObject _ => true
  end.

Definition text_Education : string :=
"
    • Licence en Technologies de l'Information et de la Communication (TIC)
      Faculté des Sciences Mathématiques, Physiques et Naturelles de Tunis
      09/2022 – 12/2024

    • Baccalauréat en informatique
      Lycée Pilote des Arts Radhiâ Haddad in El Omrane
      06/2022
    ".

Definition text_Experience : string :=
"
    • Stage en Développement Web - Smart Team
      06/2023 – 08/2023 | Tunis, Tunisia
      Description : Réalisation d'un stage en développement web où j'ai travaillé avec différents frameworks.
      Compétences acquises : Maîtrise de frameworks tels que React, Angular, et Node.js; développement front-end 
      et back-end; collaboration au sein d'une équipe agile.

    • Workshop: AI x Web3 - Dione Protocol
      06/2024 – 07/2024 | Tunis, Tunisia
      Description : Réalisation d'un atelier en intelligence artificielle avec TensorFlow et frameworks de machine learning.
      Participation à un atelier avancé sur l'application des technologies IA et Web3 à la désagrégation de l'énergie.



    •Stage en Développement  - Societé Tunisienne de banque(STB)
    02/2025-05/2025 | Tunis, Tunisia
    Description : Réalisation d'un stage en développement web avec React et Node.js et Spring boot.
    Compétences acquises : Maîtrise de frameworks tels que React, Angular, et Node.js; développement front-end  et xsd (xml schema definition)
    et back-end; collaboration au sein d'une équipe agile.

    
    • Stage en Développement et Réseautique - Tunisair
      07/2024 – 08/2024 | Tunis, Tunisia
      Description : Stage en développement et réseautique, maîtrise des principes CCMA et développement web.
      Réalisation d'un site web pour la configuration à distance des ports Ethernet et la gestion réseau.
    ".

Definition text_Competences : string :=
"
    • Développement Web
      - HTML, CSS, JavaScript
      - Frameworks: React, Angular, Node.js
      - Développement front-end et back-end

    • Réseaux
      - Configuration et gestion des réseaux
      - Principes CCMA
      - Administration réseau

    • Intelligence Artificielle
      - PyTorch
      - Keras
      - TensorFlow
      - Machine Learning

    • Certifications
      - Problem Solving (Algorithm)
      - Python (Machine-Learning)
      - IA x Web3
      - Generative AI et Large Language Models
      - Diplôme en Machine Learning (Python)
    ".

Definition text_A_Propos : string :=
"
    Étudiant en 3ème année Licence de Réseautique et TIC à la Faculté des Sciences de Tunis.
    Passionné par le développement web et l'intelligence artificielle.
    
    En recherche d'un stage de Projet de Fin d'Études (PFE) pour mettre en pratique mes connaissances 
    et développer mes compétences dans un environnement professionnel stimulant.

    Langues:
    • Arabe : Maternelle
    • Anglais : Compétent
    • Français : Avancé
    ".

Definition text_Mes_Projets : string :=
"
    • Project Ecology Simulation (AI-Agent)
      GitHub: github.com/AlainBx20/Ecology-Simulation
      
    • AI-Maze Using Reinforcement-Learning
      GitHub: github.com/AlainBx20/AI-Maze
      
    • Lung-Disease-Classification
      GitHub: github.com/AlainBx20/Lung-Disease-Classification
    ".

Definition text_Contact : string :=
"
    • Email: alaachulkha@gmail.com
    • Github: github.com/AlainBx20
    • LinkedIn: linkedin.com/in/alaa-chulkhaa-216a0a257
    • Site Web: alainbx20.github.io/Alaa19.github.io/

    Localisation: Tunis, Tunisia
    Téléphone: 27003338
    ".

(** The own properties of [sectionContent], in source order. *)
Definition sectionContent_entries : list (string * string) :=
  [ ("Éducation", text_Education);
    ("Expérience", text_Experience);
    ("Compétences", text_Competences);
    ("À Propos", text_A_Propos);
    ("Mes Projets", text_Mes_Projets);
    ("Contact", text_Contact) ].

Definition sectionContent : gmap string string :=
  list_to_map sectionContent_entries.

(** [sectionContent] is an object literal, so a property it does not own is
    looked up on [Object.prototype]. *)
Definition Object_prototype : gmap string JSValue :=
  list_to_map
    [ ("constructor", JSFunction "Object");
      ("hasOwnProperty", JSFunction "hasOwnProperty");
      ("isPrototypeOf", JSFunction "isPrototypeOf");
      ("propertyIsEnumerable", JSFunction "propertyIsEnumerable");
      ("toLocaleString", JSFunction "toLocaleString");
      ("toString", JSFunction "toString");
      ("valueOf", JSFunction "valueOf");
      ("__defineGetter__", JSFunction "__defineGetter__");
      ("__defineSetter__", JSFunction "__defineSetter__");
      ("__lookupGetter__", JSFunction "__lookupGetter__");
      ("__lookupSetter__", JSFunction "__lookupSetter__");
      ("__proto__", JSObject "Object.prototype") ].

(** [sectionContent[labelText]] *)
Definition lookup_content (labelText : string) : JSValue :=
  match sectionContent !! labelText with
  | Some text => JSString text
  | None =>
      match Object_prototype !! labelText with
      | Some v => v
      | None => JSUndefined
      end
  end.

(** A label has an entry when it is one of the keys of the table. *)
Definition has_entry (labelText : string) : bool :=
  bool_decide (is_Some (sectionContent !! labelText)).

End Content.
Import Content.

(** ** Camera, controls, overlay *)

(** The last thing written to the camera's orientation. *)
Inductive Orientation :=
| AsConstructed
| RotationX (angle : R)          (* [camera.rotation.x = angle] *)
| LookAt (target : Vector3)      (* [camera.lookAt(target)] *)
| Quaternion (x y z w : R).      (* as [controls.update()] leaves it *)

Record Camera := mkCamera {
  cam_position : Vector3;
  cam_orientation : Orientation
}.

Record OrbitControls := mkControls {
  enabled : bool;
  minDistance : R;
  maxDistance : R;
  target : Vector3
}.

(** [contentOverlay.style.display] *)
Inductive Display := display_none | display_block.

(** [contentOverlay.innerHTML]: the markup the element was created with, or
    the panel [showContent] writes, which holds the heading, the text and
    the button [#closeOverlay]. *)
Inductive OverlayHTML :=
| CreatedMarkup
| Panel (labelText : string) (content : JSValue).

Record Overlay := mkOverlay {
  display : Display;
  innerHTML : OverlayHTML
}.

(** ** Tweens in flight *)

(** The variables [animateCamera] closes over. *)
Record ZoomTween := mkZoomTween {
  zt_model : ObjectRef;
  zt_modelPosition : Vector3;
  zt_zoomDistance : R;
  zt_targetPosition : Vector3;
  zt_startPosition : Vector3;
  zt_startTarget : Vector3;
  zt_startTime : R
}.

(** The variables [animateReset] closes over. *)
Record ResetTween := mkResetTween {
  rt_startPosition : Vector3;
  rt_startTarget : Vector3;
  rt_startTime : R
}.

(** What [requestAnimationFrame] can be handed. *)
Inductive Callback :=
| cb_initialCameraAnimation
| cb_animateCamera (t : ZoomTween)
| cb_animateReset (t : ResetTween)
| cb_animate.

(** ** The page state: the module-level variables of [main.js] *)

Record State := mkState {
  camera : Camera;
  controls : OrbitControls;
  initialAnimationComplete : bool;
  initialAnimationStartTime : option R;
  papers : list Object3D;
  lastHoveredModel : option ObjectRef;
  hoverSound_plays : nat;              (* calls of [hoverSound.play()] *)
  contentOverlay : Overlay;
  console_errors : list string;        (* labels given to [console.error] *)
  isZooming : bool;
  selectedModel : option ObjectRef;
  cameraOrbitAngle : R;
  raf : list Callback                  (* requested for the next frame *)
}.

Definition with_camera (c : Camera) (s : State) : State :=
  mkState c (controls s) (initialAnimationComplete s)
    (initialAnimationStartTime s) (papers s) (lastHoveredModel s)
    (hoverSound_plays s) (contentOverlay s) (console_errors s) (isZooming s)
    (selectedModel s) (cameraOrbitAngle s) (raf s).

Definition with_controls (c : OrbitControls) (s : State) : State :=
  mkState (camera s) c (initialAnimationComplete s)
    (initialAnimationStartTime s) (papers s) (lastHoveredModel s)
    (hoverSound_plays s) (contentOverlay s) (console_errors s) (isZooming s)
    (selectedModel s) (cameraOrbitAngle s) (raf s).

Definition with_initialAnimationComplete (b : bool) (s : State) : State :=
  mkState (camera s) (controls s) b
    (initialAnimationStartTime s) (papers s) (lastHoveredModel s)
    (hoverSound_plays s) (contentOverlay s) (console_errors s) (isZooming s)
    (selectedModel s) (cameraOrbitAngle s) (raf s).

Definition with_initialAnimationStartTime (t : option R) (s : State) : State :=
  mkState (camera s) (controls s) (initialAnimationComplete s)
    t (papers s) (lastHoveredModel s)
    (hoverSound_plays s) (contentOverlay s) (console_errors s) (isZooming s)
    (selectedModel s) (cameraOrbitAngle s) (raf s).

Definition with_papers (l : list Object3D) (s : State) : State :=
  mkState (camera s) (controls s) (initialAnimationComplete s)
    (initialAnimationStartTime s) l (lastHoveredModel s)
    (hoverSound_plays s) (contentOverlay s) (console_errors s) (isZooming s)
    (selectedModel s) (cameraOrbitAngle s) (raf s).

Definition with_lastHoveredModel (m : option ObjectRef) (s : State) : State :=
  mkState (camera s) (controls s) (initialAnimationComplete s)
    (initialAnimationStartTime s) (papers s) m
    (hoverSound_plays s) (contentOverlay s) (console_errors s) (isZooming s)
    (selectedModel s) (cameraOrbitAngle s) (raf s).

Definition with_hoverSound_plays (n : nat) (s : State) : State :=
  mkState (camera s) (controls s) (initialAnimationComplete s)
    (initialAnimationStartTime s) (papers s) (lastHoveredModel s)
    n (contentOverlay s) (console_errors s) (isZooming s)
    (selectedModel s) (cameraOrbitAngle s) (raf s).

Definition with_contentOverlay (o : Overlay) (s : State) : State :=
  mkState (camera s) (controls s) (initialAnimationComplete s)
    (initialAnimationStartTime s) (papers s) (lastHoveredModel s)
    (hoverSound_plays s) o (console_errors s) (isZooming s)
    (selectedModel s) (cameraOrbitAngle s) (raf s).

Definition with_console_errors (l : list string) (s : State) : State :=
  mkState (camera s) (controls s) (initialAnimationComplete s)
    (initialAnimationStartTime s) (papers s) (lastHoveredModel s)
    (hoverSound_plays s) (contentOverlay s) l (isZooming s)
    (selectedModel s) (cameraOrbitAngle s) (raf s).

Definition with_isZooming (b : bool) (s : State) : State :=
  mkState (camera s) (controls s) (initialAnimationComplete s)
    (initialAnimationStartTime s) (papers s) (lastHoveredModel s)
    (hoverSound_plays s) (contentOverlay s) (console_errors s) b
    (selectedModel s) (cameraOrbitAngle s) (raf s).

Definition with_selectedModel (m : option ObjectRef) (s : State) : State :=
  mkState (camera s) (controls s) (initialAnimationComplete s)
    (initialAnimationStartTime s) (papers s) (lastHoveredModel s)
    (hoverSound_plays s) (contentOverlay s) (console_errors s) (isZooming s)
    m (cameraOrbitAngle s) (raf s).

Definition with_cameraOrbitAngle (a : R) (s : State) : State :=
  mkState (camera s) (controls s) (initialAnimationComplete s)
    (initialAnimationStartTime s) (papers s) (lastHoveredModel s)
    (hoverSound_plays s) (contentOverlay s) (console_errors s) (isZooming s)
    (selectedModel s) a (raf s).

Definition with_raf (q : list Callback) (s : State) : State :=
  mkState (camera s) (controls s) (initialAnimationComplete s)
    (initialAnimationStartTime s) (papers s) (lastHoveredModel s)
    (hoverSound_plays s) (contentOverlay s) (console_errors s) (isZooming s)
    (selectedModel s) (cameraOrbitAngle s) q.

(** [requestAnimationFrame(cb)] *)
Definition requestAnimationFrame (cb : Callback) (s : State) : State :=
  with_raf (raf s ++ [cb]) s.

(** Writes to single fields of the camera, the controls and the overlay. *)
Definition camera_position_set (p : Vector3) (s : State) : State :=
  with_camera (mkCamera p (cam_orientation (camera s))) s.

Definition camera_orientation_set (o : Orientation) (s : State) : State :=
  with_camera (mkCamera (cam_position (camera s)) o) s.

Definition controls_enabled_set (b : bool) (s : State) : State :=
  with_controls (mkControls b (minDistance (controls s))
                   (maxDistance (controls s)) (target (controls s))) s.

Definition controls_minDistance_set (d : R) (s : State) : State :=
  with_controls (mkControls (enabled (controls s)) d
                   (maxDistance (controls s)) (target (controls s))) s.

Definition controls_maxDistance_set (d : R) (s : State) : State :=
  with_controls (mkControls (enabled (controls s)) (minDistance (controls s))
                   d (target (controls s))) s.

Definition controls_target_set (v : Vector3) (s : State) : State :=
  with_controls (mkControls (enabled (controls s)) (minDistance (controls s))
                   (maxDistance (controls s)) v) s.

Definition overlay_display_set (d : Display) (s : State) : State :=
  with_contentOverlay (mkOverlay d (innerHTML (contentOverlay s))) s.

Definition overlay_innerHTML_set (h : OverlayHTML) (s : State) : State :=
  with_contentOverlay (mkOverlay (display (contentOverlay s)) h) s.

(** ** Constants of the page *)

Definition finalCameraPosition : Vector3 := vec3 0 2 8.
Definition idleTarget : Vector3 := vec3 0 0 6.
Definition cameraOrbitSpeed : R := 0.02.
Definition cameraOrbitRadius : R := 4.
Definition cameraOrbitHeight : R := 0.8.
Definition centerPoint : Vector3 := vec3 0 0.7 6.
Definition paperLabels : list string :=
  ["Éducation"; "Expérience"; "Compétences"; "À Propos"; "Mes Projets"].
Definition numberOfPapers : nat := 5.
Definition radius : R := 1.5.

(** The variables as the script leaves them before its last statement,
    [animate()]: the camera where the [controls.update()] of the set-up left
    it (it was placed at (0, 100, 20) and handed to the controls), the
    controls disabled with target (0, 0, 6) and limits 3 and 100, the overlay
    hidden, no paper loaded yet, and [initialCameraAnimation] requested. *)
Definition script_state (startup : Camera) : State :=
  mkState startup
          (mkControls false 3 100 idleTarget)
          false None [] None 0%nat
          (mkOverlay display_none CreatedMarkup) []
          false None (PI / 2)
          [cb_initialCameraAnimation].

(** ** The intro tween *)

(** [if (!initialAnimationStartTime) initialAnimationStartTime = timestamp;]
    the test is true on [null] and on 0. *)
Definition initialCameraAnimation (timestamp : R) (s : State) : State :=
  let start :=
    match initialAnimationStartTime s with
    | None => timestamp
    | Some v => if Req_dec_T v 0 then timestamp else v
    end in
  let s := with_initialAnimationStartTime (Some start) s in
  let elapsed := timestamp - start in
  let duration := 8000 in
  let progress := Rmin (elapsed / duration) 1 in
  let easeProgress :=
    if Req_dec_T progress 1 then 1 else 1 - Rpower 2 (-10 * progress) in
  let currentY := 100 * (1 - easeProgress) + 2 * easeProgress in
  let currentZ := 20 * (1 - easeProgress) + 8 * easeProgress in
  let s := camera_position_set (vec3 0 currentY currentZ) s in
  let startRotation := - PI / 2 in
  let endRotation := 0 in
  let currentRotation :=
    startRotation * (1 - easeProgress) + endRotation * easeProgress in
  let s := camera_orientation_set (RotationX currentRotation) s in
  if Rlt_dec progress 1 then
    requestAnimationFrame cb_initialCameraAnimation s
  else
    controls_enabled_set true (with_initialAnimationComplete true s).

(** ** The content presenter *)

(** The object a reference denotes, [None] when there is none. *)
Definition object_at (l : list Object3D) (r : ObjectRef) : option Object3D :=
  match l !! (fst r) with
  | None => None
  | Some paper =>
      match lineage paper [] (snd r) with
      | Some ((_, o) :: _) => Some o
      | _ => None
      end
  end.

(** [labelMaterial.map.image.title || model.userData.label.name] *)
Definition labelText_of (label : Sprite) (img : Image) : string :=
  if String.eqb (title img) EmptyString then name label else title img.

Definition showContent (model : ObjectRef) (s : State) : State :=
  match object_at (papers s) model with
  | None => s
  | Some o =>
      match userData_label o with
      | None => s
      | Some label =>
          match map_texture (material label) with
          | None => s
          | Some texture =>
              match image texture with
              | None => s
              | Some img =>
                  let labelText := labelText_of label img in
                  let content := lookup_content labelText in
                  if negb (truthy content) then
                    with_console_errors (console_errors s ++ [labelText]) s
                  else
                    overlay_display_set display_block
                      (overlay_innerHTML_set (Panel labelText content) s)
              end
          end
      end
  end.

(** ** The focus-in tween *)

Definition animateCamera (t : ZoomTween) (now : R) (s : State) : State :=
  let elapsed := now - zt_startTime t in
  let animationDuration := 1200 in
  let progress := Rmin (elapsed / animationDuration) 1 in
  let easeProgress :=
    if Rlt_dec progress 0.5
    then 4 * progress * progress * progress
    else 1 - (-2 * progress + 2) ^ 3 / 2 in
  let s := camera_position_set
             (lerpVectors (zt_startPosition t) (zt_targetPosition t) easeProgress) s in
  let s := controls_target_set
             (lerpVectors (zt_startTarget t) (zt_modelPosition t) easeProgress) s in
  let s := camera_orientation_set (LookAt (zt_modelPosition t)) s in
  if Rlt_dec progress 1 then
    requestAnimationFrame (cb_animateCamera t) s
  else
    let s := controls_enabled_set true s in
    let s := controls_minDistance_set (zt_zoomDistance t * 0.5) s in
    let s := controls_maxDistance_set (zt_zoomDistance t * 2) s in
    showContent (zt_model t) s.

(** [Math.max(modelSize.x, modelSize.y, modelSize.z)] *)
Definition maxDimension_of (modelSize : Vector3) : R :=
  Rmax (Rmax (vx modelSize) (vy modelSize)) (vz modelSize).

(** [zoomToModel(model)]; [modelSize] is what the bounding box of the model
    measures at that moment. *)
Definition zoomToModel (model : ObjectRef) (o : Object3D) (modelSize : Vector3)
  (now : R) (s : State) : State :=
  let s := with_isZooming true s in
  let modelPosition := position o in
  let maxDimension := maxDimension_of modelSize in
  let zoomDistance := maxDimension * 2 in
  let targetPosition := add modelPosition (vec3 0 0.2 zoomDistance) in
  let s := controls_enabled_set false s in
  let startPosition := cam_position (camera s) in
  let startTarget := target (controls s) in
  let startTime := now in
  animateCamera
    (mkZoomTween model modelPosition zoomDistance targetPosition
       startPosition startTarget startTime)
    now s.

(** ** The click handler *)

(** [onClick(event)]; [intersects] is what the ray through the pointer
    hits below [papers], nearest first. *)
Definition onClick (intersects : list ObjectRef) (modelSize : Vector3)
  (now : R) (s : State) : State :=
  if isZooming s then s
  else
    match parentModel_of (papers s) intersects with
    | None => s
    | Some (parentModel, o) =>
        zoomToModel parentModel o modelSize now
          (with_selectedModel (Some parentModel) s)
    end.

(** ** The reset tween *)

Definition animateReset (t : ResetTween) (now : R) (s : State) : State :=
  let elapsed := now - rt_startTime t in
  let animationDuration := 1500 in
  let progress := Rmin (elapsed / animationDuration) 1 in
  let easeProgress := 1 - (1 - progress) ^ 3 in
  let s := camera_position_set
             (lerpVectors (rt_startPosition t) finalCameraPosition easeProgress) s in
  let s := controls_target_set
             (lerpVectors (rt_startTarget t) (vec3 0 0 6) easeProgress) s in
  if Rlt_dec progress 1 then
    requestAnimationFrame (cb_animateReset t) s
  else
    let s := with_isZooming false s in
    let s := controls_enabled_set true s in
    let s := controls_minDistance_set 3 s in
    let s := controls_maxDistance_set 100 s in
    let s := with_selectedModel None s in
    overlay_display_set display_none s.

(** A string is truthy unless it is empty; both values of [display] are
    non-empty. *)
Definition display_truthy (d : Display) : bool :=
  match d with display_none => true | display_block => true end.

(** [b === 'block'] for a boolean [b]: the types differ. *)
Definition boolean_strict_eq_string (b : bool) (str : string) : bool := false.

(** [resetView()].  Its guard reads
    [!isZooming && !contentOverlay.style.display === 'block']: the negation
    binds to [display] alone, before the comparison. *)
Definition resetView (now : R) (s : State) : State :=
  if negb (isZooming s)
     && boolean_strict_eq_string
          (negb (display_truthy (display (contentOverlay s)))) "block"
  then s
  else
    let s := with_isZooming true s in
    let s := controls_enabled_set false s in
    let startPosition := cam_position (camera s) in
    let startTarget := target (controls s) in
    let startTime := now in
    let s := animateReset (mkResetTween startPosition startTarget startTime) now s in
    overlay_display_set display_none s.

(** ** The frame callback *)

(** [if (paper.userData.label) paper.userData.label.material.opacity = 0;] *)
Definition hide_label (paper : Object3D) : Object3D :=
  set_label_opacity 0 paper.

(** The floating motion of one paper.  The rotation increments of the source
    act on the orientation of the paper, which is not part of this state. *)
Definition float_paper (time : R) (paper : Object3D) : Object3D :=
  match userData_float paper with
  | None => paper
  | Some u =>
      let initialPos := initialPosition u in
      let floatSpeed := floatSpeed u in
      let offset := floatOffset u in
      let floatRadius := floatRadius u * 0.7 in
      set_position
        (vec3 (vx initialPos + sin (time * floatSpeed + offset) * floatRadius)
              (vy initialPos + sin (time * floatSpeed * 1.5 + offset) * floatRadius)
              (vz initialPos + cos (time * floatSpeed + offset) * (floatRadius * 0.5)))
        paper
  end.

(** The idle orbit branch of [animate]. *)
Definition orbit_camera (time : R) (s : State) : State :=
  let s := with_cameraOrbitAngle (cameraOrbitAngle s - cameraOrbitSpeed * 0.005) s in
  let newX := cos (cameraOrbitAngle s) * cameraOrbitRadius in
  let newZ := sin (cameraOrbitAngle s) * cameraOrbitRadius + 6 in
  let newY := cameraOrbitHeight + sin (time * 0.3) * 0.2 in
  let s := camera_position_set (vec3 newX newY newZ) s in
  camera_orientation_set (LookAt centerPoint) s.

(** The hover part of [animate], after the labels were reset. *)
Definition hover (intersects : list ObjectRef) (s : State) : State :=
  match intersects with
  | [] => with_lastHoveredModel None s
  | _ :: _ =>
      match parentModel_of (papers s) intersects with
      | None => s
      | Some (parentModel, _) =>
          let s := with_papers
                     (update_ref (set_label_opacity 0.8) parentModel (papers s)) s in
          if bool_decide (lastHoveredModel s = Some parentModel) then s
          else
            let s := with_hoverSound_plays (S (hoverSound_plays s)) s in
            with_lastHoveredModel (Some parentModel) s
      end
  end.

(** The camera part of [animate]: the idle orbit, or [controls.update()]
    once the intro is over, whose result is [updated]. *)
Definition animate_camera (time : R) (updated : Camera) (s : State) : State :=
  if initialAnimationComplete s && negb (isZooming s)
     && negb (bool_decide (is_Some (selectedModel s)))
  then orbit_camera time s
  else if initialAnimationComplete s then with_camera updated s
  else s.

(** [animate()]: [intersects] is the result of the ray query of this frame
    and [updated] the camera [controls.update()] would leave.  The planet,
    the moon and the sun rays, which the rest of the body moves, are not
    part of this state. *)
Definition animate (now : R) (intersects : list ObjectRef) (updated : Camera)
  (s : State) : State :=
  let s := requestAnimationFrame cb_animate s in
  let time := now * 0.001 in
  let s := animate_camera time updated s in
  let s := with_papers (List.map hide_label (papers s)) s in
  let s := hover intersects s in
  with_papers (List.map (float_paper time) (papers s)) s.

(** ** Loading a paper *)

(** The callback [createPaper] hands to [fbxLoader.load], for the paper of
    index [papers.length] ([loadPapers] awaits each paper before it asks for
    the next, and asks for [numberOfPapers] of them).  [fbx] is the loaded
    model and [r1] to [r4] the four results of [Math.random()]. *)
Definition paperLoaded (fbx : Object3D) (r1 r2 r3 r4 : R) (s : State) : State :=
  let index := length (papers s) in
  match paperLabels !! index with
  | None => s
  | Some text =>
      let angle := INR index / INR numberOfPapers * PI * 2 in
      let pos := vec3 (cos angle * radius) (sin (angle * 2) * 0.2)
                      (sin angle * radius + 6) in
      let u := mkFloatParams pos (r1 * 0.002 + 0.001) (r2 * 0.001 + 0.0005)
                 (r3 * PI * 2) (r4 * 0.2 + 0.1) in
      with_papers
        (papers s ++ [mkObject3D pos (Some (createLabel text)) (Some u) (children fbx)])
        s
  end.

(** ** Events *)

Inductive Event :=
| PaperLoaded (fbx : Object3D) (r1 r2 r3 r4 : R)
| WindowClick (intersects : list ObjectRef) (modelSize : Vector3) (now : R)
| CloseOverlayClick (intersects : list ObjectRef) (modelSize : Vector3) (now : R)
| AnimationFrame (timestamp now : R) (intersects : list ObjectRef) (updated : Camera).

Definition run_callback (timestamp now : R) (intersects : list ObjectRef)
  (updated : Camera) (s : State) (cb : Callback) : State :=
  match cb with
  | cb_initialCameraAnimation => initialCameraAnimation timestamp s
  | cb_animateCamera t => animateCamera t now s
  | cb_animateReset t => animateReset t now s
  | cb_animate => animate now intersects updated s
  end.

(** One frame: the callbacks requested so far run in the order of their
    requests; what they request is kept for the next frame. *)
Definition run_callbacks (timestamp now : R) (intersects : list ObjectRef)
  (updated : Camera) (todo : list Callback) (s : State) : State :=
  fold_left (run_callback timestamp now intersects updated) todo s.

Definition animationFrame (timestamp now : R) (intersects : list ObjectRef)
  (updated : Camera) (s : State) : State :=
  run_callbacks timestamp now intersects updated (raf s) (with_raf [] s).

(** A click on [#closeOverlay] runs its listener [resetView] and then
    bubbles to the window, where [onClick] listens. *)
Definition closeOverlayClick (intersects : list ObjectRef) (modelSize : Vector3)
  (now : R) (s : State) : State :=
  onClick intersects modelSize now (resetView now s).

Definition handle (e : Event) (s : State) : State :=
  match e with
  | PaperLoaded fbx r1 r2 r3 r4 => paperLoaded fbx r1 r2 r3 r4 s
  | WindowClick intersects modelSize now => onClick intersects modelSize now s
  | CloseOverlayClick intersects modelSize now =>
      closeOverlayClick intersects modelSize now s
  | AnimationFrame timestamp now intersects updated =>
      animationFrame timestamp now intersects updated s
  end.

(** The page once the script has run: its last statement calls [animate()]
    with no paper loaded, so the ray hits nothing. *)
Definition page_loaded (startup : Camera) (now : R) : State :=
  animate now [] startup (script_state startup).

(** *** What the browser and the library can deliver *)

(** A loaded model has no [userData.label] anywhere. *)
Fixpoint unlabelled (o : Object3D) : bool :=
  match o with
  | mkObject3D _ l _ cs =>
      match l with Some _ => false | None => forallb unlabelled cs end
  end.

(** A ray query returns objects that exist below [papers]. *)
Definition hits_exist (l : list Object3D) (intersects : list ObjectRef) : bool :=
  forallb (fun r => bool_decide (is_Some (object_at l r))) intersects.

(** The button [#closeOverlay] can be clicked while the overlay that holds it
    is displayed. *)
Definition closeOverlay_clickable (s : State) : bool :=
  match display (contentOverlay s), innerHTML (contentOverlay s) with
  | display_block, Panel _ _ => true
  | _, _ => false
  end.

Definition deliverable (e : Event) (s : State) : Prop :=
  match e with
  | PaperLoaded fbx r1 r2 r3 r4 =>
      (length (papers s) < numberOfPapers)%nat /\ forallb unlabelled (children fbx) = true
  | WindowClick intersects _ _ => hits_exist (papers s) intersects = true
  | CloseOverlayClick intersects _ _ =>
      closeOverlay_clickable s = true /\ hits_exist (papers s) intersects = true
  | AnimationFrame _ _ intersects _ => hits_exist (papers s) intersects = true
  end.

Inductive reachable : State -> Prop :=
| reachable_loaded startup now : reachable (page_loaded startup now)
| reachable_handle s e : reachable s -> deliverable e s -> reachable (handle e s).

(** ** Phases of the interaction *)

Definition is_zoom_cb (cb : Callback) : bool :=
  match cb with cb_animateCamera _ => true | _ => false end.

Definition is_reset_cb (cb : Callback) : bool :=
  match cb with cb_animateReset _ => true | _ => false end.

Definition is_tween_cb (cb : Callback) : bool := is_zoom_cb cb || is_reset_cb cb.

(** The number of tween callbacks in a list of callbacks. *)
Definition tweens_in (q : list Callback) : nat := length (List.filter is_tween_cb q).

Inductive Phase := Idle | FocusTweenIn | Focused | FocusTweenOut.

(** The phase is read off the variables of the page: a focus-in tween is in
    flight while its callback is requested, likewise the reset tween; with
    no tween in flight the flag [isZooming] tells Focused from Idle. *)
Definition phase (s : State) : Phase :=
  if existsb is_zoom_cb (raf s) then FocusTweenIn
  else if existsb is_reset_cb (raf s) then FocusTweenOut
  else if isZooming s then Focused
  else Idle.

(** ** The tweens, unfolded *)

Definition easeInOutCubic (progress : R) : R :=
  if Rlt_dec progress 0.5
  then 4 * progress * progress * progress
  else 1 - (-2 * progress + 2) ^ 3 / 2.

(** The pose [animateCamera] writes at eased progress [e]. *)
Definition zoom_pose (t : ZoomTween) (e : R) (s : State) : State :=
  camera_orientation_set (LookAt (zt_modelPosition t))
    (controls_target_set (lerpVectors (zt_startTarget t) (zt_modelPosition t) e)
       (camera_position_set
          (lerpVectors (zt_startPosition t) (zt_targetPosition t) e) s)).

(** The pose [animateReset] writes at eased progress [e]. *)
Definition reset_pose (t : ResetTween) (e : R) (s : State) : State :=
  controls_target_set (lerpVectors (rt_startTarget t) (vec3 0 0 6) e)
    (camera_position_set
       (lerpVectors (rt_startPosition t) finalCameraPosition e) s).


(** ** Invariants *)

(** While a frame runs, [todo] holds the callbacks still to run and [raf s]
    the ones requested for the next frame.  At most one tween is among
    them; a tween in flight has [isZooming] set and the overlay hidden; a
    displayed overlay has [isZooming] set; [selectedModel] is set together
    with [isZooming]. *)
Definition single_flight (todo : list Callback) (s : State) : Prop :=
  (tweens_in todo + tweens_in (raf s) <= 1)%nat /\
  ((0 < tweens_in todo + tweens_in (raf s))%nat ->
     isZooming s = true /\ display (contentOverlay s) = display_none) /\
  (display (contentOverlay s) = display_block -> isZooming s = true) /\
  (isZooming s = true <-> is_Some (selectedModel s)).

(** A paper as [createPaper] builds it: labelled itself, with no label
    below it. *)
Definition paper_ok (paper : Object3D) : bool :=
  match userData_label paper with
  | Some _ => forallb unlabelled (children paper)
  | None => false
  end.

Definition scene_ok (l : list Object3D) : bool := forallb paper_ok l.

(** The closure [zoomToModel] builds for [animateCamera]. *)
Definition zoom_tween_of (model : ObjectRef) (o : Object3D) (modelSize : Vector3)
  (now : R) (s : State) : ZoomTween :=
  mkZoomTween model (position o) (maxDimension_of modelSize * 2)
    (add (position o) (vec3 0 0.2 (maxDimension_of modelSize * 2)))
    (cam_position (camera s)) (target (controls s)) now.

(** The closure [resetView] builds for [animateReset]. *)
Definition reset_tween_of (now : R) (s : State) : ResetTween :=
  mkResetTween (cam_position (camera s)) (target (controls s)) now.

(** In Idle the zoom limits are the ones the script set. *)
Definition idle_limits (s : State) : Prop :=
  isZooming s = false ->
  minDistance (controls s) = 3 /\ maxDistance (controls s) = 100.

(** The label text [showContent] reads off a model, when every guard of
    its first lines lets the call through. *)
Definition labelText_of_object (o : Object3D) : option string :=
  match userData_label o with
  | None => None
  | Some label =>
      match map_texture (material label) with
      | None => None
      | Some texture =>
          match image texture with
          | None => None
          | Some img => Some (labelText_of label img)
          end
      end
  end.

Definition labelText_of_model (l : list Object3D) (model : ObjectRef) : option string :=
  match object_at l model with
  | None => None
  | Some o => labelText_of_object o
  end.

(** The start time [initialCameraAnimation] works with at [timestamp]. *)
Definition intro_start (timestamp : R) (s : State) : R :=
  match initialAnimationStartTime s with
  | None => timestamp
  | Some v => if Req_dec_T v 0 then timestamp else v
  end.

(** What [initialCameraAnimation] writes at eased progress [e]. *)
Definition intro_pose (start e : R) (s : State) : State :=
  camera_orientation_set (RotationX (- PI / 2 * (1 - e) + 0 * e))
    (camera_position_set (vec3 0 (100 * (1 - e) + 2 * e) (20 * (1 - e) + 8 * e))
       (with_initialAnimationStartTime (Some start) s)).

(** What one call of [animate] does to the paper of index [j] in a scene
    built by [createPaper]: its label is reset, highlighted if the first hit
    lies in this paper, and the paper floats on. *)
Definition frame_paper (time : R) (intersects : list ObjectRef) (j : nat)
  (p : Object3D) : Object3D :=
  float_paper time
    match intersects with
    | (i, _) :: _ =>
        if bool_decide (j = i) then set_label_opacity 0.8 (hide_label p)
        else hide_label p
    | [] => hide_label p
    end.

(** The item a ray query hovers: the paper of its first hit. *)
Definition hovered_item (intersects : list ObjectRef) : option ObjectRef :=
  match intersects with
  | (i, _) :: _ => Some (i, [])
  | [] => None
  end.

(** An item is highlighted when the opacity of its label is not zero. *)
Definition highlighted (p : Object3D) : Prop :=
  exists v, label_opacity p = Some v /\ v <> 0.

(** The two variables of the intro. *)
Definition intro_flags (s : State) : bool * option R :=
  (initialAnimationComplete s, initialAnimationStartTime s).

(** The number of requests of [animate] in a list of callbacks. *)
Definition is_animate_cb (cb : Callback) : bool :=
  match cb with cb_animate => true | _ => false end.

Definition animate_calls (q : list Callback) : nat :=
  length (List.filter is_animate_cb q).

(** While a frame runs, [animate] is requested once in all: either it has
    still to run in this frame, or it has run and asked for the next one. *)
Definition animate_once (todo : list Callback) (s : State) : Prop :=
  (animate_calls todo + animate_calls (raf s) = 1)%nat.

(** The request of [initialCameraAnimation] is there until the intro is
    complete, and not after. *)
Definition is_intro_cb (cb : Callback) : bool :=
  match cb with cb_initialCameraAnimation => true | _ => false end.

Definition intro_calls (q : list Callback) : nat :=
  length (List.filter is_intro_cb q).

Definition intro_pending (todo : list Callback) (s : State) : Prop :=
  (intro_calls todo + intro_calls (raf s))%nat
  = if initialAnimationComplete s then 0%nat else 1%nat.

(** ** A session *)

Definition demo_startup : Camera := mkCamera (vec3 0 100 20) AsConstructed.

(** A loaded model: a group that holds one mesh. *)
Definition demo_fbx : Object3D :=
  mkObject3D (vec3 0 0 0) None None [mkObject3D (vec3 0 0 0) None None []].

(** The clock reads 0 when the page loads; the first frame comes at 16 and
    starts the intro; the first paper is loaded; a frame at 1000 with the
    pointer over the mesh of that paper; a click at 1010 whose ray hits that
    mesh, the box of the paper measuring 0.6 by 0.4 by 0.1. *)
Definition demo_first_frame : State :=
  handle (AnimationFrame 16 16 [] demo_startup) (page_loaded demo_startup 0).

Definition demo_paper : State :=
  handle (PaperLoaded demo_fbx 0 0 0 0) demo_first_frame.

Definition demo_hovering : State :=
  handle (AnimationFrame 1000 1000 [(0%nat, [0%nat])] demo_startup) demo_paper.

Definition demo_click : Event :=
  WindowClick [(0%nat, [0%nat])] (vec3 0.6 0.4 0.1) 1010.

Definition demo_zooming : State := handle demo_click demo_hovering.

(** A frame at 2300 completes the tween of the click, 1290 ms after it. *)
Definition demo_focused : State :=
  handle (AnimationFrame 2300 2300 [] demo_startup) demo_zooming.

(** The close button is clicked at 3000, and a frame at 4600 completes the
    reset tween, 1600 ms after it started. *)
Definition demo_closing : State :=
  handle (CloseOverlayClick [] (vec3 0 0 0) 3000) demo_focused.

Definition demo_restored : State :=
  handle (AnimationFrame 4600 4600 [] demo_startup) demo_closing.

(** Without any paper: the intro starts at 16 and is over at 8016. *)
Definition demo_idle : State :=
  handle (AnimationFrame 8016 8016 [] demo_startup) demo_first_frame.

(** ** Models for the examples *)





(** A model at (1, 0, 6) whose bounding box measures 0.6 by 0.4 by 0.1, and
    the tween a click on it at time 0 builds. *)
Definition contact_paper : Object3D :=
  mkObject3D (vec3 1 0 6) (Some (createLabel "Contact")) None [].

Definition contact_scene : State :=
  with_papers [contact_paper] (script_state demo_startup).

Definition contact_tween : ZoomTween :=
  zoom_tween_of (0%nat, []) contact_paper (vec3 0.6 0.4 0.1) 0 contact_scene.

(** ** The edges of the interaction machine *)

(** A tween callback that requests itself again when it runs at [now]. *)
Definition still_running (now : R) (cb : Callback) : bool :=
  match cb with
  | cb_animateCamera t => if Rlt_dec (now - zt_startTime t) 1200 then true else false
  | cb_animateReset t => if Rlt_dec (now - rt_startTime t) 1500 then true else false
  | _ => false
  end.

(** A call of [animateReset] that has reached its 1500 ms at [now]. *)
Definition reset_done (now : R) (cb : Callback) : bool :=
  match cb with
  | cb_animateReset t => if Rlt_dec (now - rt_startTime t) 1500 then false else true
  | _ => false
  end.

Definition Phase_eqb (p q : Phase) : bool :=
  match p, q with
  | Idle, Idle | FocusTweenIn, FocusTweenIn
  | Focused, Focused | FocusTweenOut, FocusTweenOut => true
  | _, _ => false
  end.

(** The phase changes an event can bring about: a paper that finishes
    loading changes nothing; a click on the window can start a focus-in
    tween from Idle; a click on the close button leaves Focused for the
    reset tween; a frame can complete the tween in flight. *)
Definition event_edge (e : Event) (p q : Phase) : bool :=
  match e with
  | PaperLoaded _ _ _ _ _ => Phase_eqb p q
  | WindowClick _ _ _ =>
      match p, q with
      | Idle, FocusTweenIn => true
      | _, _ => Phase_eqb p q
      end
  | CloseOverlayClick _ _ _ =>
      match p, q with
      | Focused, FocusTweenOut => true
      | _, _ => false
      end
  | AnimationFrame _ _ _ _ =>
      match p, q with
      | FocusTweenIn, Focused => true
      | FocusTweenOut, Idle => true
      | _, _ => Phase_eqb p q
      end
  end.

(** ** The order of the requests *)

(** A tween callback, if requested, is the last request. *)
Definition tween_last (q : list Callback) : Prop :=
  exists pre, tweens_in pre = 0%nat /\
    (q = pre \/ exists cb, is_tween_cb cb = true /\ q = pre ++ [cb]).

(** ** The papers, the selection and the panel *)

(** The paper of index [i] carries the label [paperLabels[i]]. *)
Definition papers_labelled (l : list Object3D) : Prop :=
  forall i paper, l !! i = Some paper ->
    exists text, paperLabels !! i = Some text /\ labelText_of_object paper = Some text.

(** What holds of the selection and the overlay between two events. *)
Record page_ok (s : State) : Prop := mk_page_ok {
  ok_labels : papers_labelled (papers s);
  ok_selected : forall m, selectedModel s = Some m ->
    exists i, m = (i, []) /\ (i < length (papers s))%nat;
  ok_target : forall t, In (cb_animateCamera t) (raf s) ->
    selectedModel s = Some (zt_model t);
  ok_focused : phase s = Focused -> display (contentOverlay s) = display_block;
  ok_panel : display (contentOverlay s) = display_block ->
    exists i text content,
      selectedModel s = Some (i, []) /\ paperLabels !! i = Some text /\
      sectionContent !! text = Some content /\
      innerHTML (contentOverlay s) = Panel text (JSString content);
  ok_html : innerHTML (contentOverlay s) = CreatedMarkup \/
    exists text content,
      In text paperLabels /\ sectionContent !! text = Some content /\
      innerHTML (contentOverlay s) = Panel text (JSString content);
  ok_console : console_errors s = []
}.

(** ** Positions along a tween *)



(** The easing of [animateReset]: [1 - Math.pow(1 - progress, 3)]. *)
Definition easeOutCubic (progress : R) : R := 1 - (1 - progress) ^ 3.

(** ** Sequences of events *)

Definition run_events (es : list Event) (s : State) : State :=
  fold_left (fun s e => handle e s) es s.

(** Each event can be delivered in the state the events before it lead to. *)
Fixpoint all_deliverable (es : list Event) (s : State) : Prop :=
  match es with
  | [] => True
  | e :: rest => deliverable e s /\ all_deliverable rest (handle e s)
  end.

Definition is_frame (e : Event) : bool :=
  match e with AnimationFrame _ _ _ _ => true | _ => false end.

(** ** Where [loadPapers] puts the papers *)

(** The position [loadPapers] computes for the paper of index [i]. *)
Definition paper_home (i : nat) : Vector3 :=
  let angle := INR i / INR numberOfPapers * PI * 2 in
  vec3 (cos angle * radius) (sin (angle * 2) * 0.2) (sin angle * radius + 6).

(** The paper of index [i] remembers that position in
    [userData.initialPosition]. *)
Definition papers_home (l : list Object3D) : Prop :=
  forall i paper, l !! i = Some paper ->
    exists u, userData_float paper = Some u /\ initialPosition u = paper_home i.

(** ** The pointer *)

Record Vector2 := vec2 { v2x : R; v2y : R }.

(** [onMouseMove(event)] and the first lines of [onClick(event)]: the
    pointer in normalized device coordinates,
    [mouse.x = (event.clientX / window.innerWidth) * 2 - 1] and
    [mouse.y = -(event.clientY / window.innerHeight) * 2 + 1]. *)
Definition onMouseMove (clientX clientY innerWidth innerHeight : R) : Vector2 :=
  vec2 (clientX / innerWidth * 2 - 1) (- (clientY / innerHeight) * 2 + 1).

(** ** The star field and the nebula clouds *)

Record Color := rgb { red : R; green : R; blue : R }.

(** A point: its entries in the [position], [color] and [size] attributes. *)
Record Point := mkPoint {
  point_position : Vector3;
  point_color : Color;
  point_size : R
}.

(** The results of [Math.random()] in one turn of the loop of
    [createStarField], in the order of the calls; the last is drawn for a
    white star only. *)
Record StarDraws := mkStarDraws {
  draw_radius : R;
  draw_theta : R;
  draw_phi : R;
  draw_size : R;
  draw_colorType : R;
  draw_brightness : R
}.

(** One turn of the loop of [createStarField]: the numbers it computes,
    before they are assigned to the typed arrays. *)
Definition createStar (d : StarDraws) : Point :=
  let radius := 300 + draw_radius d * 900 in
  let theta := draw_theta d * PI * 2 in
  let phi := acos (draw_phi d * 2 - 1) in
  let position := vec3 (radius * sin phi * cos theta)
                       (radius * sin phi * sin theta)
                       (radius * cos phi) in
  let size := draw_size d * 2 + 0.5 in
  let colorType := draw_colorType d in
  let color :=
    if Rgt_dec colorType 0.995 then rgb 0.7 0.8 1
    else if Rgt_dec colorType 0.98 then rgb 1 0.3 0.3
    else if Rgt_dec colorType 0.95 then rgb 1 0.9 0.5
    else
      let brightness := 0.9 + draw_brightness d * 0.1 in
      rgb brightness brightness brightness in
  mkPoint position color size.

Definition starCount : nat := 25 * 1000.

(** [createStarField()]: the points the loop computes; [draws i] are the
    random numbers of turn [i].  What the typed arrays hold of them is
    [starField_attributes], below. *)
Definition createStarField (draws : nat -> StarDraws) : list Point :=
  List.map (fun i => createStar (draws i)) (seq 0 starCount).

(** The random numbers of one turn of the loop of [createNebulaCloud]. *)
Record NebulaDraws := mkNebulaDraws {
  ndraw_radius : R;
  ndraw_theta : R;
  ndraw_phi : R;
  ndraw_size : R
}.

(** One turn of the loop of [createNebulaCloud(color, position, scale)]:
    the numbers it computes, before they are assigned to the typed arrays;
    [baseColor] is [new THREE.Color(color)]. *)
Definition createNebulaParticle (baseColor : Color) (position : Vector3) (scale : R)
  (d : NebulaDraws) : Point :=
  let radius := ndraw_radius d * scale in
  let theta := ndraw_theta d * PI * 2 in
  let phi := acos (ndraw_phi d * 2 - 1) in
  mkPoint
    (vec3 (vx position + radius * sin phi * cos theta)
          (vy position + radius * sin phi * sin theta)
          (vz position + radius * cos phi))
    (rgb (red baseColor * 0.1) (green baseColor * 0.1) (blue baseColor * 0.1))
    (ndraw_size d * 10 + 5).

Definition particleCount : nat := 1000.

(** A [THREE.Points] object: where it stands and the points it holds. *)
Record Points := mkPoints {
  points_position : Vector3;
  points_geometry : list Point
}.

Definition createNebulaCloud (baseColor : Color) (position : Vector3) (scale : R)
  (draws : nat -> NebulaDraws) : Points :=
  mkPoints (vec3 0 0 0)
    (List.map (fun i => createNebulaParticle baseColor position scale (draws i))
       (seq 0 particleCount)).

(** The centre and the scale of each of the four clouds. *)
Definition nebula_sites : list (Vector3 * R) :=
  [ (vec3 (-300) (-100) (-1500), 300);
    (vec3 400 200 (-1300), 250);
    (vec3 0 (-200) (-1600), 280);
    (vec3 (-200) 300 (-1400), 260) ].

(** [cloud.position.z -= 1000] *)
Definition move_back (cloud : Points) : Points :=
  mkPoints (vec3 (vx (points_position cloud)) (vy (points_position cloud))
                 (vz (points_position cloud) - 1000))
           (points_geometry cloud).

(** [createNebulaClouds()]: the clouds of the group, which stands at the
    origin; [colors k] is the colour of cloud [k] and [draws k] its random
    numbers. *)
Definition createNebulaClouds (colors : nat -> Color)
  (draws : nat -> nat -> NebulaDraws) : list Points :=
  List.map move_back
    (imap (fun k site => createNebulaCloud (colors k) (fst site) (snd site) (draws k))
       nebula_sites).

(** Where a point of a cloud is in the scene. *)
Definition world_position (cloud : Points) (p : Point) : Vector3 :=
  add (points_position cloud) (point_position p).

(** A result of [Math.random()]. *)
Definition unit_interval (u : R) : Prop := 0 <= u < 1.

(** ** The planet and the moon in [animate] *)

(** A child of the moon: its [name] and, for a sprite, its material. *)
Record MoonChild := mkMoonChild {
  child_name : string;
  child_material : option SpriteMaterial
}.

(** What [animate] moves besides the camera and the papers. *)
Record Bodies := mkBodies {
  earth_rotation_y : R;
  clouds_rotation_y : R;
  moonPivot_rotation_y : R;
  moon_rotation_y : R;
  moon_position_y : R;
  moon_rotation_z : R;
  sunRays_time : R;
  moon_children : list MoonChild
}.

(** [moon.children.find(child => child.name === 'Moon')], as the index of
    the child found. *)
Fixpoint find_Moon (cs : list MoonChild) : option nat :=
  match cs with
  | [] => None
  | c :: rest =>
      if String.eqb (child_name c) "Moon" then Some 0%nat
      else option_map S (find_Moon rest)
  end.

(** [if (moonLabel) moonLabel.material.opacity = v;] a child without a
    material makes the assignment throw, which is [None]. *)
Definition set_Moon_opacity (v : R) (cs : list MoonChild) : option (list MoonChild) :=
  match find_Moon cs with
  | None => Some cs
  | Some i =>
      match cs !! i with
      | Some (mkMoonChild n (Some m)) =>
          Some (<[i := mkMoonChild n (Some (mkSpriteMaterial (map_texture m) v))]> cs)
      | _ => None
      end
  end.

(** The part of [animate] that moves the planet, the moon and the sun rays
    and shows or hides the label of the moon; [moonIntersects] is the
    number of hits of the ray on the moon. *)
Definition animate_bodies (now : R) (moonIntersects : nat) (b : Bodies)
  : option Bodies :=
  let time := now * 0.001 in
  let opacity := if (0 <? moonIntersects)%nat then 0.8 else 0 in
  match set_Moon_opacity opacity (moon_children b) with
  | None => None
  | Some cs =>
      Some (mkBodies (earth_rotation_y b + 0.0002)
                     (clouds_rotation_y b + 0.00025)
                     (moonPivot_rotation_y b + 0.0003)
                     (moon_rotation_y b + 0.0001)
                     (sin (time * 0.1) * 5)
                     (sin (time * 0.05) * 0.02)
                     time cs)
  end.

(** The moon as the script builds it: the rim light, which has no name, and
    the label [createLabel('Moon', ...)], made invisible. *)
Definition moon_children_built : list MoonChild :=
  [ mkMoonChild "" None;
    mkMoonChild (name (createLabel "Moon")) (Some (material (createLabel "Moon"))) ].

(** Frames one after the other: the clock and the hits on the moon of each. *)
Fixpoint animate_bodies_frames (frames : list (R * nat)) (b : Bodies)
  : option Bodies :=
  match frames with
  | [] => Some b
  | (now, hits) :: rest =>
      match animate_bodies now hits b with
      | None => None
      | Some b' => animate_bodies_frames rest b'
      end
  end.

(** The children of the moon with the label at opacity [v]. *)
Definition moon_children_shown (v : R) : list MoonChild :=
  [ mkMoonChild "" None;
    mkMoonChild "Moon"
      (Some (mkSpriteMaterial (map_texture (material (createLabel "Moon"))) v)) ].

(** The opacity of the label of the moon, the second child. *)
Definition moonLabel_opacity (b : Bodies) : option R :=
  match moon_children b !! 1%nat with
  | Some c => option_map opacity (child_material c)
  | None => None
  end.

(** ** The orientation of the papers *)

Record Euler := euler { euler_x : R; euler_y : R; euler_z : R }.

(** [randomRotation()], for the result [u] of its [Math.random()]. *)
Definition randomRotation (u : R) : R := u * PI * 0.5 - PI * 0.25.

(** The rotation [loadPapers] hands to [createPaper] for the paper of index
    [i]; [u1], [u2], [u3] are the random numbers in the order of the
    calls. *)
Definition paper_rotation (i : nat) (u1 u2 u3 : R) : Euler :=
  let angle := INR i / INR numberOfPapers * PI * 2 in
  let isStanding := Nat.even i in
  euler (if isStanding then PI / 2 + randomRotation u1 * 0.3 else randomRotation u1)
        (- angle + PI / 2 + randomRotation u2 * 0.5)
        (if isStanding then randomRotation u3 * 0.3 else randomRotation u3).

(** The rotation increments of the floating animation in [animate], for the
    paper of index [index] with the parameters [u]. *)
Definition rotate_paper (time : R) (index : nat) (u : FloatParams) (rotation : Euler)
  : Euler :=
  let rotSpeed := rotationSpeed u in
  let offset := floatOffset u in
  let rotationMultiplier := if Nat.even index then 0.7 else 1.0 in
  euler (euler_x rotation + sin (time * 0.5 + offset) * rotSpeed * rotationMultiplier)
        (euler_y rotation + cos (time * 0.3 + offset) * rotSpeed * rotationMultiplier)
        (euler_z rotation + sin (time * 0.4 + offset) * rotSpeed * rotationMultiplier).

(** Frames one after the other, each with its clock in seconds. *)
Definition rotate_paper_frames (times : list R) (index : nat) (u : FloatParams)
  (rotation : Euler) : Euler :=
  fold_left (fun r time => rotate_paper time index u r) times rotation.

(** ** The material of a paper *)

(** The values [createPaper] puts into [materialProps]. *)
Inductive MaterialValue :=
| mv_texture (path : string)     (* a loaded texture *)
| mv_number (x : R)
| mv_boolean (b : bool)
| mv_undefined.

(** [!v] is false exactly on these. *)
Definition mv_truthy (v : MaterialValue) : bool :=
  match v with
  | mv_texture _ => true
  | mv_number x => if Req_dec_T x 0 then false else true
  | mv_boolean b => b
  | mv_undefined => false
  end.

(** [textures.key] for the object [textures], filled with one texture for
    each key of [modelData.textures]. *)
Definition texture_of (textures : list (string * string)) (key : string)
  : MaterialValue :=
  match List.find (fun kv => String.eqb (fst kv) key) textures with
  | Some kv => mv_texture (snd kv)
  | None => mv_undefined
  end.

(** The object literal [materialProps], in source order. *)
Definition materialProps (textures : list (string * string))
  : list (string * MaterialValue) :=
  [ ("map", texture_of textures "baseColor");
    ("normalMap", texture_of textures "normal");
    ("metalnessMap", texture_of textures "metallic");
    ("roughnessMap", texture_of textures "roughness");
    ("aoMap", texture_of textures "ao");
    ("metalness", mv_number 0.3);
    ("roughness", mv_number 0.8);
    ("transparent", mv_boolean false);
    ("depthWrite", mv_boolean true);
    ("depthTest", mv_boolean true) ].

(** [Object.keys(materialProps).forEach(key =>
       { if (!materialProps[key]) delete materialProps[key]; })] *)
Definition prune_materialProps (props : list (string * MaterialValue))
  : list (string * MaterialValue) :=
  List.filter (fun kv => mv_truthy (snd kv)) props.

(** The properties handed to [new THREE.MeshStandardMaterial]. *)
Definition material_of (textures : list (string * string))
  : list (string * MaterialValue) :=
  prune_materialProps (materialProps textures).

(** The texture files of the two entries of [paperModels]. *)
Definition paperModels_textures : list (list (string * string)) :=
  [ [ ("baseColor", "model/papers/Notepad_Color.png");
      ("normal", "model/papers/Notepad_Normal.png");
      ("metallic", "model/papers/Notepad_Metallic.png");
      ("roughness", "model/papers/Notepad_Roughness.png");
      ("ao", "model/papers/Notepad_AO.png") ];
    [ ("baseColor", "model/open/open_book_reallistic__0316155948_texture.png") ] ].
(** ** The two readings of the clock *)

(** [zoomToModel] and [resetView] read [Date.now()] twice before they
    return: once for [startTime], and once more in the first call of the
    tween callback.  Above the two readings are one number.  Here they are
    two: [now] is what [startTime] gets and [now'] what the first call of
    the callback reads. *)
Definition zoomToModel_at (model : ObjectRef) (o : Object3D) (modelSize : Vector3)
  (now now' : R) (s : State) : State :=
  let s := with_isZooming true s in
  let modelPosition := position o in
  let maxDimension := maxDimension_of modelSize in
  let zoomDistance := maxDimension * 2 in
  let targetPosition := add modelPosition (vec3 0 0.2 zoomDistance) in
  let s := controls_enabled_set false s in
  let startPosition := cam_position (camera s) in
  let startTarget := target (controls s) in
  let startTime := now in
  animateCamera
    (mkZoomTween model modelPosition zoomDistance targetPosition
       startPosition startTarget startTime)
    now' s.

Definition onClick_at (intersects : list ObjectRef) (modelSize : Vector3)
  (now now' : R) (s : State) : State :=
  if isZooming s then s
  else
    match parentModel_of (papers s) intersects with
    | None => s
    | Some (parentModel, o) =>
        zoomToModel_at parentModel o modelSize now now'
          (with_selectedModel (Some parentModel) s)
    end.

Definition resetView_at (now now' : R) (s : State) : State :=
  if negb (isZooming s)
     && boolean_strict_eq_string
          (negb (display_truthy (display (contentOverlay s)))) "block"
  then s
  else
    let s := with_isZooming true s in
    let s := controls_enabled_set false s in
    let startPosition := cam_position (camera s) in
    let startTarget := target (controls s) in
    let startTime := now in
    let s := animateReset (mkResetTween startPosition startTarget startTime) now' s in
    overlay_display_set display_none s.

(** ** Double arithmetic *)

(** The numbers of the page are binary64 numbers: every literal and every
    arithmetic operation is rounded to the nearest of them.  For the
    interpolation of the tweens and for the sum that places the target of
    the focus-in tween, the rounding is made explicit below, twice: as a
    relation between real numbers, for statements about every input, and as
    a computation on the binary64 numbers themselves, for examples.  Numbers
    are taken to be finite. *)

Module Double.

(** The unit roundoff of binary64, and half its smallest positive number. *)
Definition u : R := / 2 ^ 53.
Definition eta : R := / 2 ^ 1075.

(** [y] can be the double that an operation returns whose exact result is
    [x]: rounding to nearest moves a result by at most [u] times its size,
    and by at most [eta] where it is subnormal. *)
Definition rounded (x y : R) : Prop := Rabs (y - x) <= u * Rabs x + eta.

(** [v1 + (v2 - v1) * alpha], each operation rounded *)
Definition lerp (v1 v2 alpha r : R) : Prop :=
  exists d p, rounded (v2 - v1) d /\ rounded (d * alpha) p /\ rounded (v1 + p) r.

(** [this.x = v1.x + (v2.x - v1.x) * alpha], and so on for y and z *)
Definition lerpVectors (v1 v2 : Vector3) (alpha : R) (v : Vector3) : Prop :=
  lerp (vx v1) (vx v2) alpha (vx v) /\
  lerp (vy v1) (vy v2) alpha (vy v) /\
  lerp (vz v1) (vz v2) alpha (vz v).

(** [a.clone().add(b)] *)
Definition add (a b v : Vector3) : Prop :=
  rounded (vx a + vx b) (vx v) /\
  rounded (vy a + vy b) (vy v) /\
  rounded (vz a + vz b) (vz v).

(** The eased progress a tween callback computes where the cubic of the
    source has the value [e].  Both cubics have a value in [0, 1] exactly
    when progress is in [0, 1]; then, whatever the cubic is rounded to, it
    is a number of [0, 1].  Both are 1 exactly when progress is 1; then the
    callback computes 1, since [Math.pow(0, 3)] is 0. *)
Definition eased (e alpha : R) : Prop :=
  (0 <= e <= 1 -> 0 <= alpha <= 1) /\ (e = 1 -> alpha = 1).

End Double.

(** [p] is within [tol] of [q], coordinate by coordinate. *)
Definition near (tol : R) (p q : Vector3) : Prop :=
  Rabs (vx p - vx q) <= tol /\ Rabs (vy p - vy q) <= tol /\
  Rabs (vz p - vz q) <= tol.

(** No coordinate of [p] exceeds [M] in size. *)
Definition bounded (M : R) (p : Vector3) : Prop :=
  Rabs (vx p) <= M /\ Rabs (vy p) <= M /\ Rabs (vz p) <= M.

(** [x] lies between [a] and [b], give or take [tol]. *)
Definition between_within (tol a b x : R) : Prop :=
  Rmin a b - tol <= x <= Rmax a b + tol.

(** A point in the box spanned by two corners, give or take [tol]. *)
Definition in_box_within (tol : R) (a b p : Vector3) : Prop :=
  between_within tol (vx a) (vx b) (vx p) /\
  between_within tol (vy a) (vy b) (vy p) /\
  between_within tol (vz a) (vz b) (vz p).

(** *** The focus-in tween in double arithmetic *)

(** [modelPosition.clone().add(new THREE.Vector3(0, 0.2, zoomDistance))]:
    the literal [0.2] is rounded, and so is each sum. *)
Definition targetPosition_double (modelPosition : Vector3) (zoomDistance : R)
  (targetPosition : Vector3) : Prop :=
  exists c, Double.rounded 0.2 c /\
            Double.add modelPosition (vec3 0 c zoomDistance) targetPosition.

(** The closures [zoomToModel] can build for [animateCamera]: as
    [zoom_tween_of], with the target position computed in doubles. *)
Definition zoom_tween_double (model : ObjectRef) (o : Object3D) (modelSize : Vector3)
  (now : R) (s : State) (t : ZoomTween) : Prop :=
  exists targetPosition,
    targetPosition_double (position o) (maxDimension_of modelSize * 2) targetPosition /\
    t = mkZoomTween model (position o) (maxDimension_of modelSize * 2)
          targetPosition (cam_position (camera s)) (target (controls s)) now.

(** [animateCamera] once [camera.position.lerpVectors(...)] has left
    [cameraPosition] and [controls.target.lerpVectors(...)] has left
    [controlsTarget]. *)
Definition animateCamera_with (cameraPosition controlsTarget : Vector3)
  (t : ZoomTween) (now : R) (s : State) : State :=
  let elapsed := now - zt_startTime t in
  let animationDuration := 1200 in
  let progress := Rmin (elapsed / animationDuration) 1 in
  let s := camera_position_set cameraPosition s in
  let s := controls_target_set controlsTarget s in
  let s := camera_orientation_set (LookAt (zt_modelPosition t)) s in
  if Rlt_dec progress 1 then
    requestAnimationFrame (cb_animateCamera t) s
  else
    let s := controls_enabled_set true s in
    let s := controls_minDistance_set (zt_zoomDistance t * 0.5) s in
    let s := controls_maxDistance_set (zt_zoomDistance t * 2) s in
    showContent (zt_model t) s.

(** The states a call of [animateCamera] at clock [now] can leave when the
    eased progress and the two interpolations are computed in doubles. *)
Definition animateCamera_double (t : ZoomTween) (now : R) (s s' : State) : Prop :=
  let progress := Rmin ((now - zt_startTime t) / 1200) 1 in
  exists easeProgress cameraPosition controlsTarget,
    Double.eased (easeInOutCubic progress) easeProgress /\
    Double.lerpVectors (zt_startPosition t) (zt_targetPosition t) easeProgress
      cameraPosition /\
    Double.lerpVectors (zt_startTarget t) (zt_modelPosition t) easeProgress
      controlsTarget /\
    s' = animateCamera_with cameraPosition controlsTarget t now s.

(** *** The reset tween in double arithmetic *)

(** [animateReset] once the two interpolations have left [cameraPosition]
    and [controlsTarget]. *)
Definition animateReset_with (cameraPosition controlsTarget : Vector3)
  (t : ResetTween) (now : R) (s : State) : State :=
  let elapsed := now - rt_startTime t in
  let animationDuration := 1500 in
  let progress := Rmin (elapsed / animationDuration) 1 in
  let s := camera_position_set cameraPosition s in
  let s := controls_target_set controlsTarget s in
  if Rlt_dec progress 1 then
    requestAnimationFrame (cb_animateReset t) s
  else
    let s := with_isZooming false s in
    let s := controls_enabled_set true s in
    let s := controls_minDistance_set 3 s in
    let s := controls_maxDistance_set 100 s in
    let s := with_selectedModel None s in
    overlay_display_set display_none s.

(** The states a call of [animateReset] at clock [now] can leave when the
    eased progress and the two interpolations are computed in doubles. *)
Definition animateReset_double (t : ResetTween) (now : R) (s s' : State) : Prop :=
  let progress := Rmin ((now - rt_startTime t) / 1500) 1 in
  exists easeProgress cameraPosition controlsTarget,
    Double.eased (easeOutCubic progress) easeProgress /\
    Double.lerpVectors (rt_startPosition t) finalCameraPosition easeProgress
      cameraPosition /\
    Double.lerpVectors (rt_startTarget t) (vec3 0 0 6) easeProgress
      controlsTarget /\
    s' = animateReset_with cameraPosition controlsTarget t now s.

(** *** The same steps on binary64 numbers *)

Module Binary64.

Import PrimFloat FloatOps.

#[local] Set Warnings "-inexact-float".

(** [v1 + (v2 - v1) * alpha] *)
Definition lerp (v1 v2 alpha : float) : float := (v1 + (v2 - v1) * alpha)%float.

Definition Vector3 : Type := float * float * float.

Definition lerpVectors (v1 v2 : Vector3) (alpha : float) : Vector3 :=
  let '(x1, y1, z1) := v1 in
  let '(x2, y2, z2) := v2 in
  (lerp x1 x2 alpha, lerp y1 y2 alpha, lerp z1 z2 alpha).

(** [Math.min(a, b)] on numbers that are not NaN *)
Definition min (a b : float) : float := if ltb a b then a else b.

(** [Math.pow(x, 3)]: the cube, which is 0 at 0 *)
Definition pow3 (x : float) : float := (x * x * x)%float.

(** [camera.position] after the call of [animateReset] at clock [now], for
    a tween started at [startTime] from [startPosition]. *)
Definition animateReset_position (startPosition : Vector3) (startTime now : float)
  : Vector3 :=
  let elapsed := (now - startTime)%float in
  let animationDuration := 1500%float in
  let progress := min (elapsed / animationDuration)%float 1%float in
  let easeProgress := (1 - pow3 (1 - progress))%float in
  lerpVectors startPosition (0, 2, 8)%float easeProgress.

(** [camera.position] after the call of [animateCamera] at clock [now], for
    a tween started at [startTime] from [startPosition] towards a model at
    [modelPosition] with zoom distance [zoomDistance]. *)
Definition animateCamera_position (modelPosition : Vector3) (zoomDistance : float)
  (startPosition : Vector3) (startTime now : float) : Vector3 :=
  let '(mx, my, mz) := modelPosition in
  let targetPosition := (mx + 0, my + 0.2, mz + zoomDistance)%float in
  let elapsed := (now - startTime)%float in
  let animationDuration := 1200%float in
  let progress := min (elapsed / animationDuration)%float 1%float in
  let easeProgress :=
    if ltb progress 0.5
    then (4 * progress * progress * progress)%float
    else (1 - pow3 (-2 * progress + 2) / 2)%float in
  lerpVectors startPosition targetPosition easeProgress.

(** A camera 0.05 below the floor and 8 in front of the origin, and the
    largest double below 2. *)
Definition low_height : float := (-0.05)%float.
Definition low_camera : Vector3 := (0%float, low_height, 8%float).
Definition below_2 : float := 1.9999999999999998%float.

(** The pose the script gives the camera; a model at (1, 0, 6) whose box
    measures 0.6 by 0.4 by 0.1, its largest extent, and the target position
    [zoomToModel] computes for it; and where the focus-in tween from the
    one to the other ends. *)
Definition startup_camera : Vector3 := (0, 100, 20)%float.
Definition contact_position : Vector3 := (1, 0, 6)%float.
Definition contact_size : Vector3 := (0.6, 0.4, 0.1)%float.
Definition contact_maxDimension : float := 0.6%float.
Definition fifth : float := 0.2%float.
Definition contact_target : Vector3 :=
  let '(x, y, z) := contact_position in
  (x + 0, y + fifth, z + contact_maxDimension * 2)%float.
Definition contact_end : Vector3 :=
  (1, 0.20000000000000284, 7.199999999999999)%float.

(** The real number a finite double stands for. *)
Definition to_R (x : float) : R :=
  match Prim2SF x with
  | SpecFloat.S754_finite s m e =>
      IZR (if s then Z.neg m else Z.pos m) * powerRZ 2 e
  | _ => 0
  end.

Definition to_Vector3 (v : Vector3) : Three.Vector3 :=
  let '(x, y, z) := v in vec3 (to_R x) (to_R y) (to_R z).

End Binary64.

(** The tween a click at clock 0 builds in [contact_scene] when the box of
    the paper measures the doubles of [Binary64.contact_size] and the
    target position is computed on binary64 numbers. *)
Definition contact_size_double : Vector3 := Binary64.to_Vector3 Binary64.contact_size.

Definition contact_tween_double : ZoomTween :=
  mkZoomTween (0%nat, []) (position contact_paper)
    (maxDimension_of contact_size_double * 2)
    (Binary64.to_Vector3 Binary64.contact_target)
    (cam_position (camera contact_scene)) (target (controls contact_scene)) 0.

(** The reset tween started at clock 0 from [Binary64.low_camera], with the
    controls orbiting (0, 0, 6). *)
Definition low_tween : ResetTween :=
  mkResetTween (vec3 0 (Binary64.to_R Binary64.low_height) 8) (vec3 0 0 6) 0.

(** ** Float32Array *)

(** The attributes of the star field and of the nebula clouds are
    [Float32Array]s: a number assigned to an element is rounded to the
    nearest binary32 number. *)
Module Float32.

(** The unit roundoff of binary32, and half its smallest positive number. *)
Definition u : R := / 2 ^ 24.
Definition eta : R := / 2 ^ 150.

(** [y] can be what an element holds after [x] is assigned to it. *)
Definition stored (x y : R) : Prop := Rabs (y - x) <= u * Rabs x + eta.

(** A function that can be the rounding of an assignment to an element. *)
Definition rounding (fround : R -> R) : Prop := forall x, stored x (fround x).

End Float32.

(** What the three attributes hold for a point whose entries were computed
    as [p]; [fround] is the rounding of an assignment. *)
Definition store_point (fround : R -> R) (p : Point) : Point :=
  mkPoint
    (vec3 (fround (vx (point_position p))) (fround (vy (point_position p)))
          (fround (vz (point_position p))))
    (rgb (fround (red (point_color p))) (fround (green (point_color p)))
         (fround (blue (point_color p))))
    (fround (point_size p)).

(** The attributes of the geometry [createStarField] returns. *)
Definition starField_attributes (fround : R -> R) (draws : nat -> StarDraws)
  : list Point :=
  List.map (store_point fround) (createStarField draws).

(** A cloud with the attributes of its geometry. *)
Definition store_cloud (fround : R -> R) (cloud : Points) : Points :=
  mkPoints (points_position cloud)
           (List.map (store_point fround) (points_geometry cloud)).

(** The clouds of the group [createNebulaClouds] returns. *)
Definition nebulaClouds_attributes (fround : R -> R) (colors : nat -> Color)
  (draws : nat -> nat -> NebulaDraws) : list Points :=
  List.map (store_cloud fround) (createNebulaClouds colors draws).
(** * Properties *)

(** ** Vectors *)

Lemma lerpVectors_0 v1 v2 : lerpVectors v1 v2 0 = v1.
Proof. destruct v1; unfold lerpVectors; simpl; f_equal; lra. Qed.

Lemma lerpVectors_1 v1 v2 : lerpVectors v1 v2 1 = v2.
Proof. destruct v2; unfold lerpVectors; simpl; f_equal; lra. Qed.

(** ** The tweens, step by step *)

Lemma progress_running elapsed duration :
  0 < duration -> elapsed < duration ->
  Rmin (elapsed / duration) 1 = elapsed / duration /\ elapsed / duration < 1.
Proof.
  intros Hd He.
  assert (elapsed / duration < 1).
  { apply (Rmult_lt_reg_r duration); trivial.
    unfold Rdiv. rewrite Rmult_assoc, Rinv_l by lra. lra. }
  split; trivial. apply Rmin_left. lra.
Qed.

Lemma progress_done elapsed duration :
  0 < duration -> duration <= elapsed -> Rmin (elapsed / duration) 1 = 1.
Proof.
  intros Hd He. apply Rmin_right.
  apply (Rmult_le_reg_r duration); trivial.
  unfold Rdiv. rewrite Rmult_assoc, Rinv_l by lra. lra.
Qed.

Lemma animateCamera_running t now s :
  now - zt_startTime t < 1200 ->
  animateCamera t now s =
  requestAnimationFrame (cb_animateCamera t)
    (zoom_pose t (easeInOutCubic ((now - zt_startTime t) / 1200)) s).
Proof.
  intros H. unfold animateCamera.
  destruct (progress_running (now - zt_startTime t) 1200) as [-> Hlt]; try lra.
  destruct (Rlt_dec _ 1) as [_|n]; [reflexivity | contradiction].
Qed.

Lemma animateCamera_done t now s :
  1200 <= now - zt_startTime t ->
  animateCamera t now s =
  showContent (zt_model t)
    (controls_maxDistance_set (zt_zoomDistance t * 2)
       (controls_minDistance_set (zt_zoomDistance t * 0.5)
          (controls_enabled_set true (zoom_pose t 1 s)))).
Proof.
  intros H. unfold animateCamera.
  rewrite progress_done by lra.
  destruct (Rlt_dec 1 1) as [a|_]; [lra|].
  destruct (Rlt_dec 1 0.5) as [a|_]; [lra|].
  replace (1 - (-2 * 1 + 2) ^ 3 / 2) with 1 by (simpl; lra).
  reflexivity.
Qed.

Lemma animateReset_running t now s :
  now - rt_startTime t < 1500 ->
  animateReset t now s =
  requestAnimationFrame (cb_animateReset t)
    (reset_pose t (1 - (1 - (now - rt_startTime t) / 1500) ^ 3) s).
Proof.
  intros H. unfold animateReset.
  destruct (progress_running (now - rt_startTime t) 1500) as [-> Hlt]; try lra.
  destruct (Rlt_dec _ 1) as [_|n]; [reflexivity | contradiction].
Qed.

Lemma animateReset_done t now s :
  1500 <= now - rt_startTime t ->
  animateReset t now s =
  overlay_display_set display_none
    (with_selectedModel None
       (controls_maxDistance_set 100
          (controls_minDistance_set 3
             (controls_enabled_set true
                (with_isZooming false (reset_pose t 1 s)))))).
Proof.
  intros H. unfold animateReset.
  rewrite progress_done by lra.
  destruct (Rlt_dec 1 1) as [a|_]; [lra|].
  replace (1 - (1 - 1) ^ 3) with 1 by (simpl; lra).
  reflexivity.
Qed.

(** ** What each handler leaves alone *)

Ltac break_handlers :=
  repeat match goal with
         | |- context [match ?x with _ => _ end] => destruct x eqn:?
         end; simpl; auto.

(** Reads a field through the writes above it, unfolding nothing else. *)
Ltac project :=
  cbn [camera controls initialAnimationComplete initialAnimationStartTime
       papers lastHoveredModel hoverSound_plays contentOverlay console_errors
       isZooming selectedModel cameraOrbitAngle raf
       with_camera with_controls with_initialAnimationComplete
       with_initialAnimationStartTime with_papers with_lastHoveredModel
       with_hoverSound_plays with_contentOverlay with_console_errors
       with_isZooming with_selectedModel with_cameraOrbitAngle with_raf
       requestAnimationFrame camera_position_set camera_orientation_set
       controls_enabled_set controls_minDistance_set controls_maxDistance_set
       controls_target_set overlay_display_set overlay_innerHTML_set
       intro_pose zoom_pose reset_pose intro_flags
       cam_position cam_orientation enabled minDistance maxDistance target
       display innerHTML fst snd].

Lemma showContent_frame model s :
  isZooming (showContent model s) = isZooming s /\
  raf (showContent model s) = raf s /\
  selectedModel (showContent model s) = selectedModel s /\
  camera (showContent model s) = camera s /\
  controls (showContent model s) = controls s /\
  papers (showContent model s) = papers s /\
  (display (contentOverlay (showContent model s)) = display (contentOverlay s) \/
   display (contentOverlay (showContent model s)) = display_block).
Proof. unfold showContent. break_handlers; repeat split; auto. Qed.

Lemma hover_frame intersects s :
  isZooming (hover intersects s) = isZooming s /\
  raf (hover intersects s) = raf s /\
  selectedModel (hover intersects s) = selectedModel s /\
  camera (hover intersects s) = camera s /\
  controls (hover intersects s) = controls s /\
  contentOverlay (hover intersects s) = contentOverlay s /\
  console_errors (hover intersects s) = console_errors s /\
  cameraOrbitAngle (hover intersects s) = cameraOrbitAngle s.
Proof. unfold hover. break_handlers; repeat split; auto. Qed.

Lemma animate_camera_frame time updated s :
  isZooming (animate_camera time updated s) = isZooming s /\
  raf (animate_camera time updated s) = raf s /\
  selectedModel (animate_camera time updated s) = selectedModel s /\
  contentOverlay (animate_camera time updated s) = contentOverlay s /\
  controls (animate_camera time updated s) = controls s /\
  console_errors (animate_camera time updated s) = console_errors s /\
  papers (animate_camera time updated s) = papers s /\
  lastHoveredModel (animate_camera time updated s) = lastHoveredModel s /\
  hoverSound_plays (animate_camera time updated s) = hoverSound_plays s.
Proof.
  unfold animate_camera, orbit_camera.
  destruct (initialAnimationComplete s) eqn:?, (isZooming s) eqn:?,
    (bool_decide (is_Some (selectedModel s))) eqn:?; simpl; repeat split; auto.
Qed.

Lemma animate_frame now intersects updated s :
  isZooming (animate now intersects updated s) = isZooming s /\
  raf (animate now intersects updated s) = raf s ++ [cb_animate] /\
  selectedModel (animate now intersects updated s) = selectedModel s /\
  contentOverlay (animate now intersects updated s) = contentOverlay s /\
  controls (animate now intersects updated s) = controls s /\
  console_errors (animate now intersects updated s) = console_errors s.
Proof.
  unfold animate. cbn [isZooming raf selectedModel contentOverlay controls
                       console_errors with_papers].
  match goal with |- context [hover ?i ?x] =>
    destruct (hover_frame i x) as (-> & -> & -> & _ & -> & -> & -> & _) end.
  cbn [isZooming raf selectedModel contentOverlay controls
       console_errors with_papers].
  destruct (animate_camera_frame (now * 0.001) updated
              (requestAnimationFrame cb_animate s))
    as (-> & -> & -> & -> & -> & -> & _).
  simpl. repeat split; auto.
Qed.

Lemma initialCameraAnimation_frame timestamp s :
  isZooming (initialCameraAnimation timestamp s) = isZooming s /\
  tweens_in (raf (initialCameraAnimation timestamp s)) = tweens_in (raf s) /\
  selectedModel (initialCameraAnimation timestamp s) = selectedModel s /\
  contentOverlay (initialCameraAnimation timestamp s) = contentOverlay s /\
  papers (initialCameraAnimation timestamp s) = papers s.
Proof.
  unfold initialCameraAnimation.
  destruct (Rlt_dec _ 1); simpl; repeat split; auto.
  unfold tweens_in. rewrite List.filter_app. simpl. rewrite app_nil_r. reflexivity.
Qed.

(** ** At most one tween in flight *)

Lemma tweens_in_app q1 q2 : tweens_in (q1 ++ q2) = (tweens_in q1 + tweens_in q2)%nat.
Proof. unfold tweens_in. rewrite List.filter_app, length_app. reflexivity. Qed.

Lemma tweens_in_cons cb q :
  tweens_in (cb :: q) = ((if is_tween_cb cb then 1 else 0) + tweens_in q)%nat.
Proof. unfold tweens_in. simpl. destruct (is_tween_cb cb); reflexivity. Qed.

Lemma tweens_in_single cb :
  tweens_in [cb] = if is_tween_cb cb then 1%nat else 0%nat.
Proof. unfold tweens_in. simpl. destruct (is_tween_cb cb); reflexivity. Qed.

Lemma is_Some_None_false {A} : is_Some (@None A) -> False.
Proof. intros [x Hx]. discriminate. Qed.

Section SingleFlightFrame.

Variables (timestamp now : R) (intersects : list ObjectRef) (updated : Camera).

Lemma run_callback_single_flight cb rest s :
  single_flight (cb :: rest) s ->
  single_flight rest (run_callback timestamp now intersects updated s cb).
Proof.
  unfold single_flight. rewrite tweens_in_cons.
  intros (Hcount & Hflight & Hshown & Hsel).
  destruct cb as [ | t | t | ]; simpl in Hcount, Hflight; cbn [run_callback].
  - destruct (initialCameraAnimation_frame timestamp s)
      as (-> & -> & -> & -> & _). auto.
  - assert (isZooming s = true /\ display (contentOverlay s) = display_none)
      as [Hz Hd] by (apply Hflight; lia).
    destruct (Rlt_le_dec (now - zt_startTime t) 1200) as [Hlt | Hge].
    + rewrite animateCamera_running by trivial. simpl.
      rewrite tweens_in_app, tweens_in_single. simpl.
      split; [lia | split; [auto | split; [congruence | exact Hsel]]].
    + rewrite animateCamera_done by trivial.
      match goal with |- context [showContent ?m ?x] =>
        destruct (showContent_frame m x) as (-> & -> & -> & _ & _ & _ & Hdisp) end.
      simpl in *.
      split; [lia | split; [intros; lia | split; [auto | exact Hsel]]].
  - assert (isZooming s = true /\ display (contentOverlay s) = display_none)
      as [Hz Hd] by (apply Hflight; lia).
    destruct (Rlt_le_dec (now - rt_startTime t) 1500) as [Hlt | Hge].
    + rewrite animateReset_running by trivial. simpl.
      rewrite tweens_in_app, tweens_in_single. simpl.
      split; [lia | split; [auto | split; [congruence | exact Hsel]]].
    + rewrite animateReset_done by trivial. simpl.
      split; [lia | split; [intros; lia | split; [discriminate | split]]].
      * discriminate.
      * intros H. destruct (is_Some_None_false H).
  - destruct (animate_frame now intersects updated s)
      as (-> & -> & -> & -> & _).
    rewrite tweens_in_app, tweens_in_single. simpl. rewrite Nat.add_0_r. auto.
Qed.

Lemma run_callbacks_single_flight todo s :
  single_flight todo s ->
  single_flight [] (run_callbacks timestamp now intersects updated todo s).
Proof.
  revert s. induction todo as [ | cb rest IH]; intros s H; simpl; trivial.
  apply IH. apply run_callback_single_flight. exact H.
Qed.

Lemma animationFrame_single_flight s :
  single_flight [] s ->
  single_flight [] (animationFrame timestamp now intersects updated s).
Proof.
  intros (Hcount & Hflight & Hshown & Hsel).
  apply run_callbacks_single_flight. unfold single_flight in *. simpl in *.
  rewrite Nat.add_0_r. auto.
Qed.

End SingleFlightFrame.

(** ** Starting a tween *)

Lemma easeInOutCubic_0 : easeInOutCubic 0 = 0.
Proof. unfold easeInOutCubic. destruct (Rlt_dec 0 0.5); lra. Qed.

Lemma easeInOutCubic_1 : easeInOutCubic 1 = 1.
Proof. unfold easeInOutCubic. destruct (Rlt_dec 1 0.5); simpl; lra. Qed.

Lemma zoomToModel_starts model o modelSize now s :
  zoomToModel model o modelSize now s =
  requestAnimationFrame (cb_animateCamera (zoom_tween_of model o modelSize now s))
    (zoom_pose (zoom_tween_of model o modelSize now s) 0
       (controls_enabled_set false (with_isZooming true s))).
Proof.
  unfold zoomToModel. cbv zeta.
  change (mkZoomTween _ _ _ _ _ _ _) with (zoom_tween_of model o modelSize now s).
  rewrite animateCamera_running by (simpl; lra).
  simpl zt_startTime.
  replace ((now - now) / 1200) with 0 by lra.
  rewrite easeInOutCubic_0. reflexivity.
Qed.

Lemma resetView_starts now s :
  resetView now s =
  overlay_display_set display_none
    (requestAnimationFrame (cb_animateReset (reset_tween_of now s))
       (reset_pose (reset_tween_of now s) 0
          (controls_enabled_set false (with_isZooming true s)))).
Proof.
  unfold resetView, boolean_strict_eq_string. rewrite andb_false_r. cbv zeta.
  change (mkResetTween _ _ _) with (reset_tween_of now s).
  rewrite animateReset_running by (simpl; lra).
  simpl rt_startTime.
  replace (1 - (1 - (now - now) / 1500) ^ 3) with 0 by (simpl; lra).
  reflexivity.
Qed.

Lemma onClick_ignored intersects modelSize now s :
  isZooming s = true -> onClick intersects modelSize now s = s.
Proof. intros H. unfold onClick. rewrite H. reflexivity. Qed.

(** A click on the close button starts the reset tween. *)
Lemma closeOverlayClick_starts intersects modelSize now s :
  closeOverlayClick intersects modelSize now s =
  overlay_display_set display_none
    (requestAnimationFrame (cb_animateReset (reset_tween_of now s))
       (reset_pose (reset_tween_of now s) 0
          (controls_enabled_set false (with_isZooming true s)))).
Proof.
  unfold closeOverlayClick. rewrite resetView_starts.
  apply onClick_ignored. reflexivity.
Qed.

Lemma onClick_single_flight intersects modelSize now s :
  single_flight [] s -> single_flight [] (onClick intersects modelSize now s).
Proof.
  intros H. unfold onClick.
  destruct (isZooming s) eqn:Hz; trivial.
  destruct (parentModel_of (papers s) intersects) as [[parentModel o] | ]; trivial.
  rewrite zoomToModel_starts.
  destruct H as (Hcount & Hflight & Hshown & Hsel).
  unfold single_flight in *. simpl in *.
  rewrite tweens_in_app, tweens_in_single. simpl.
  assert (tweens_in (raf s) = 0%nat) as ->.
  { destruct (tweens_in (raf s)); trivial.
    destruct Hflight as [Hf _]; [lia | congruence]. }
  assert (display (contentOverlay s) = display_none) as Hd.
  { destruct (display (contentOverlay s)); trivial.
    rewrite Hshown in Hz; [discriminate | reflexivity]. }
  split; [lia | split; [auto | split; [auto | split; eauto]]].
Qed.

Lemma closeOverlayClick_single_flight intersects modelSize now s :
  closeOverlay_clickable s = true ->
  single_flight [] s ->
  single_flight [] (closeOverlayClick intersects modelSize now s).
Proof.
  intros Hc (Hcount & Hflight & Hshown & Hsel). unfold closeOverlayClick.
  rewrite resetView_starts, onClick_ignored by reflexivity.
  assert (display (contentOverlay s) = display_block) as Hd.
  { unfold closeOverlay_clickable in Hc.
    destruct (display (contentOverlay s)); [discriminate | reflexivity]. }
  assert (isZooming s = true) as Hz by auto.
  unfold single_flight in *. simpl in *.
  rewrite tweens_in_app, tweens_in_single. simpl.
  assert (tweens_in (raf s) = 0%nat) as ->.
  { destruct (tweens_in (raf s)); trivial.
    destruct Hflight as [_ Hf]; [lia | congruence]. }
  split; [lia | split; [auto | split; [discriminate | ]]].
  rewrite <- Hsel. tauto.
Qed.

Lemma paperLoaded_single_flight fbx r1 r2 r3 r4 s :
  single_flight [] s -> single_flight [] (paperLoaded fbx r1 r2 r3 r4 s).
Proof.
  unfold paperLoaded. destruct (paperLabels !! length (papers s)); trivial.
Qed.

Lemma page_loaded_single_flight startup now :
  single_flight [] (page_loaded startup now).
Proof.
  unfold page_loaded, single_flight.
  destruct (animate_frame now [] startup (script_state startup))
    as (-> & -> & -> & -> & _).
  simpl. unfold tweens_in. simpl.
  split; [lia | split; [intros; lia | split; [discriminate | split]]].
  - discriminate.
  - intros H. destruct (is_Some_None_false H).
Qed.

Lemma reachable_single_flight s : reachable s -> single_flight [] s.
Proof.
  induction 1 as [startup now | s e Hr IH Hd].
  - apply page_loaded_single_flight.
  - destruct e; simpl in *.
    + apply paperLoaded_single_flight, IH.
    + apply onClick_single_flight, IH.
    + apply closeOverlayClick_single_flight; tauto.
    + apply animationFrame_single_flight, IH.
Qed.

(** ** Phases and the flag *)

Lemma existsb_zoom_tweens q : existsb is_zoom_cb q = true -> (0 < tweens_in q)%nat.
Proof.
  induction q as [ | cb q IH]; simpl; [discriminate | ].
  rewrite tweens_in_cons. unfold is_tween_cb.
  destruct (is_zoom_cb cb); simpl; intros; [lia | ].
  destruct (is_reset_cb cb); auto with arith.
Qed.

Lemma existsb_reset_tweens q : existsb is_reset_cb q = true -> (0 < tweens_in q)%nat.
Proof.
  induction q as [ | cb q IH]; simpl; [discriminate | ].
  rewrite tweens_in_cons. unfold is_tween_cb.
  destruct (is_reset_cb cb); simpl; intros.
  - rewrite orb_true_r. lia.
  - destruct (is_zoom_cb cb); auto with arith.
Qed.

Lemma tweens_in_0_existsb q :
  tweens_in q = 0%nat -> existsb is_zoom_cb q = false /\ existsb is_reset_cb q = false.
Proof.
  intros H. split.
  - destruct (existsb is_zoom_cb q) eqn:E; trivial.
    apply existsb_zoom_tweens in E. lia.
  - destruct (existsb is_reset_cb q) eqn:E; trivial.
    apply existsb_reset_tweens in E. lia.
Qed.

Lemma busy_phase_isZooming s :
  single_flight [] s -> phase s <> Idle -> isZooming s = true.
Proof.
  intros (_ & Hflight & _) Hp. unfold phase in Hp. simpl in Hflight.
  destruct (existsb is_zoom_cb (raf s)) eqn:Ez.
  { apply Hflight, existsb_zoom_tweens, Ez. }
  destruct (existsb is_reset_cb (raf s)) eqn:Er.
  { apply Hflight, existsb_reset_tweens, Er. }
  destruct (isZooming s); [reflexivity | contradiction].
Qed.

Lemma idle_phase_iff s :
  single_flight [] s -> (phase s = Idle <-> isZooming s = false).
Proof.
  intros H. split.
  - intros Hp. destruct (isZooming s) eqn:Hz; trivial.
    unfold phase in Hp. rewrite Hz in Hp.
    destruct (existsb is_zoom_cb (raf s)); [discriminate | ].
    destruct (existsb is_reset_cb (raf s)); discriminate.
  - intros Hz. destruct (phase s) eqn:Hp; trivial;
      rewrite busy_phase_isZooming in Hz; trivial; try discriminate;
      rewrite Hp; discriminate.
Qed.

Lemma onClick_changes intersects modelSize now s :
  onClick intersects modelSize now s <> s ->
  isZooming s = false /\
  exists parentModel o,
    parentModel_of (papers s) intersects = Some (parentModel, o) /\
    onClick intersects modelSize now s =
    zoomToModel parentModel o modelSize now (with_selectedModel (Some parentModel) s).
Proof.
  unfold onClick. destruct (isZooming s); [congruence | ].
  destruct (parentModel_of (papers s) intersects) as [[parentModel o] | ];
    [ | congruence].
  intros _. split; trivial. exists parentModel, o. auto.
Qed.

Lemma phase_zoomToModel model o modelSize now s :
  phase (zoomToModel model o modelSize now s) = FocusTweenIn.
Proof.
  rewrite zoomToModel_starts. unfold phase. simpl.
  rewrite existsb_app. simpl. rewrite orb_true_r. reflexivity.
Qed.

(** C1.  Single flight.  In every state the page can reach: a click that
    arrives in FocusTweenIn, Focused or FocusTweenOut changes nothing (no
    transition, no new tween); a click that does change something finds the
    machine Idle and takes it to FocusTweenIn, so a second focus-in tween can
    only start after the machine has come back to Idle; and at most one tween
    is in flight. *)
Theorem click_single_flight s :
  reachable s ->
  (phase s <> Idle ->
   forall intersects modelSize now, onClick intersects modelSize now s = s) /\
  (forall intersects modelSize now,
     onClick intersects modelSize now s <> s ->
     phase s = Idle /\ phase (onClick intersects modelSize now s) = FocusTweenIn) /\
  (tweens_in (raf s) <= 1)%nat.
Proof.
  intros Hr. pose proof (reachable_single_flight s Hr) as Hsf.
  split; [ | split].
  - intros Hp intersects modelSize now.
    apply onClick_ignored, busy_phase_isZooming; trivial.
  - intros intersects modelSize now Hch.
    destruct (onClick_changes _ _ _ _ Hch) as (Hz & parentModel & o & _ & ->).
    split; [apply idle_phase_iff; trivial | apply phase_zoomToModel].
  - destruct Hsf as (Hcount & _). simpl in Hcount. exact Hcount.
Qed.

(** ** The zoom limits in Idle *)

Section IdleLimitsFrame.

Variables (timestamp now : R) (intersects : list ObjectRef) (updated : Camera).

Lemma run_callback_idle_limits cb rest s :
  single_flight (cb :: rest) s -> idle_limits s ->
  idle_limits (run_callback timestamp now intersects updated s cb).
Proof.
  unfold idle_limits. intros (Hcount & Hflight & _) Hl.
  rewrite tweens_in_cons in Hflight.
  destruct cb as [ | t | t | ]; simpl in Hflight; cbn [run_callback].
  - destruct (initialCameraAnimation_frame timestamp s) as (-> & _).
    unfold initialCameraAnimation. destruct (Rlt_dec _ 1); simpl; exact Hl.
  - assert (isZooming s = true) as Hz by (apply Hflight; lia).
    destruct (Rlt_le_dec (now - zt_startTime t) 1200) as [Hlt | Hge].
    + rewrite animateCamera_running by trivial. simpl. congruence.
    + rewrite animateCamera_done by trivial.
      match goal with |- context [showContent ?m ?x] =>
        destruct (showContent_frame m x) as (-> & _) end.
      simpl. congruence.
  - destruct (Rlt_le_dec (now - rt_startTime t) 1500) as [Hlt | Hge].
    + rewrite animateReset_running by trivial. simpl. exact Hl.
    + rewrite animateReset_done by trivial. simpl. auto.
  - destruct (animate_frame now intersects updated s) as (-> & _ & _ & _ & -> & _).
    exact Hl.
Qed.

Lemma run_callbacks_idle_limits todo s :
  single_flight todo s -> idle_limits s ->
  idle_limits (run_callbacks timestamp now intersects updated todo s).
Proof.
  revert s. induction todo as [ | cb rest IH]; intros s Hsf Hl; simpl; trivial.
  apply IH.
  - apply run_callback_single_flight, Hsf.
  - eapply run_callback_idle_limits; eauto.
Qed.

End IdleLimitsFrame.

Lemma reachable_idle_limits s : reachable s -> idle_limits s.
Proof.
  induction 1 as [startup now | s e Hr IH Hd].
  - unfold page_loaded, idle_limits.
    destruct (animate_frame now [] startup (script_state startup))
      as (_ & _ & _ & _ & -> & _). simpl. auto.
  - pose proof (reachable_single_flight s Hr) as Hsf.
    destruct e; simpl in *.
    + unfold paperLoaded. destruct (paperLabels !! length (papers s)); exact IH.
    + unfold onClick, idle_limits.
      destruct (isZooming s) eqn:Hz; [rewrite Hz; discriminate | ].
      destruct (parentModel_of (papers s) intersects) as [[parentModel o] | ];
        [ | rewrite Hz; auto].
      rewrite zoomToModel_starts. simpl. discriminate.
    + unfold closeOverlayClick.
      rewrite resetView_starts, onClick_ignored by reflexivity.
      unfold idle_limits. simpl. discriminate.
    + unfold animationFrame. apply run_callbacks_idle_limits.
      * destruct Hsf as (Hc & Hf & Hs & Hsel).
        unfold single_flight. simpl in *. rewrite Nat.add_0_r. auto.
      * exact IH.
Qed.

(** ** The idle orbit never passes through the reset anchor *)

Lemma orbit_camera_below_anchor time s :
  vy (cam_position (camera (orbit_camera time s))) <= 1.
Proof.
  unfold orbit_camera, cameraOrbitHeight. simpl.
  pose proof (SIN_bound (time * 0.3)) as [_ Hs]. lra.
Qed.

(** ** The content presenter, case by case *)

Lemma showContent_guarded model s :
  labelText_of_model (papers s) model = None -> showContent model s = s.
Proof.
  unfold labelText_of_model, labelText_of_object, showContent.
  destruct (object_at (papers s) model) as [o | ]; trivial.
  destruct (userData_label o) as [label | ]; trivial.
  destruct (map_texture (material label)) as [texture | ]; trivial.
  destruct (image texture); [discriminate | trivial].
Qed.

Lemma showContent_found model labelText s :
  labelText_of_model (papers s) model = Some labelText ->
  truthy (lookup_content labelText) = true ->
  showContent model s =
  overlay_display_set display_block
    (overlay_innerHTML_set (Panel labelText (lookup_content labelText)) s).
Proof.
  unfold labelText_of_model, labelText_of_object, showContent.
  destruct (object_at (papers s) model) as [o | ]; [ | discriminate].
  destruct (userData_label o) as [label | ]; [ | discriminate].
  destruct (map_texture (material label)) as [texture | ]; [ | discriminate].
  destruct (image texture); [ | discriminate].
  intros [= ->] ->. reflexivity.
Qed.

Lemma showContent_miss model labelText s :
  labelText_of_model (papers s) model = Some labelText ->
  truthy (lookup_content labelText) = false ->
  showContent model s = with_console_errors (console_errors s ++ [labelText]) s.
Proof.
  unfold labelText_of_model, labelText_of_object, showContent.
  destruct (object_at (papers s) model) as [o | ]; [ | discriminate].
  destruct (userData_label o) as [label | ]; [ | discriminate].
  destruct (map_texture (material label)) as [texture | ]; [ | discriminate].
  destruct (image texture); [ | discriminate].
  intros [= ->] ->. reflexivity.
Qed.

(** ** Completion of the focus-in tween *)

(** C5.  The call of [animateCamera] at which progress has reached 1 (1200 ms
    or more after the start) is the one that enters Focused: it does not
    request itself again, it sets [minDistance] to half and [maxDistance] to
    twice the zoom distance of the tween, it hands the model to
    [showContent], which displays the panel with the label and text of the
    model when the table has a text for it, and with [isZooming] set and no
    other tween requested the phase is Focused.  Every earlier call leaves
    the limits and the overlay alone and requests itself again. *)
Theorem focus_in_completion t now s :
  1200 <= now - zt_startTime t ->
  animateCamera t now s =
    showContent (zt_model t)
      (controls_maxDistance_set (zt_zoomDistance t * 2)
         (controls_minDistance_set (zt_zoomDistance t * 0.5)
            (controls_enabled_set true (zoom_pose t 1 s)))) /\
  minDistance (controls (animateCamera t now s)) = 0.5 * zt_zoomDistance t /\
  maxDistance (controls (animateCamera t now s)) = 2 * zt_zoomDistance t /\
  raf (animateCamera t now s) = raf s /\
  (forall labelText,
     labelText_of_model (papers s) (zt_model t) = Some labelText ->
     truthy (lookup_content labelText) = true ->
     contentOverlay (animateCamera t now s) =
     mkOverlay display_block (Panel labelText (lookup_content labelText))) /\
  (isZooming s = true -> tweens_in (raf s) = 0%nat ->
   phase (animateCamera t now s) = Focused) /\
  (forall earlier s0,
     earlier - zt_startTime t < 1200 ->
     minDistance (controls (animateCamera t earlier s0)) = minDistance (controls s0) /\
     maxDistance (controls (animateCamera t earlier s0)) = maxDistance (controls s0) /\
     contentOverlay (animateCamera t earlier s0) = contentOverlay s0 /\
     raf (animateCamera t earlier s0) = raf s0 ++ [cb_animateCamera t]).
Proof.
  intros Hdone. rewrite animateCamera_done by trivial.
  split; [reflexivity | ].
  match goal with |- context [showContent ?m ?x] =>
    destruct (showContent_frame m x) as (Hz & Hraf & _ & _ & Hc & _);
    set (limited := x) in * end.
  rewrite Hc, Hraf. subst limited. simpl.
  split; [lra | split; [lra | split; [reflexivity | split; [ | split]]]].
  - intros labelText Hl Ht.
    erewrite showContent_found; [reflexivity | exact Hl | exact Ht].
  - intros Hzs Hq. unfold phase. rewrite Hraf, Hz. simpl.
    destruct (tweens_in_0_existsb _ Hq) as [-> ->]. rewrite Hzs. reflexivity.
  - intros earlier s0 He. rewrite animateCamera_running by trivial.
    simpl. auto.
Qed.

(** ** The flag [isZooming] *)

Section FlagFrame.

Variables (timestamp now : R) (intersects : list ObjectRef) (updated : Camera).

Lemma run_callback_isZooming cb s :
  isZooming (run_callback timestamp now intersects updated s cb) = isZooming s \/
  exists t, cb = cb_animateReset t /\ 1500 <= now - rt_startTime t.
Proof.
  destruct cb as [ | t | t | ]; cbn [run_callback].
  - left. apply initialCameraAnimation_frame.
  - left. destruct (Rlt_le_dec (now - zt_startTime t) 1200) as [Hlt | Hge].
    + rewrite animateCamera_running by trivial. reflexivity.
    + rewrite animateCamera_done by trivial.
      match goal with |- context [showContent ?m ?x] =>
        destruct (showContent_frame m x) as (-> & _) end.
      reflexivity.
  - destruct (Rlt_le_dec (now - rt_startTime t) 1500) as [Hlt | Hge].
    + left. rewrite animateReset_running by trivial. reflexivity.
    + right. eauto.
  - left. apply animate_frame.
Qed.

Lemma run_callbacks_isZooming todo s :
  isZooming (run_callbacks timestamp now intersects updated todo s) = isZooming s \/
  exists t, In (cb_animateReset t) todo /\ 1500 <= now - rt_startTime t.
Proof.
  revert s. induction todo as [ | cb rest IH]; intros s; simpl; [auto | ].
  destruct (IH (run_callback timestamp now intersects updated s cb))
    as [Heq | (t & Hin & Ht)].
  - destruct (run_callback_isZooming cb s)
      as [Heq' | (t & -> & Ht)].
    + left. congruence.
    + right. eauto.
  - right. eauto.
Qed.

End FlagFrame.

(** C10.  [isZooming] is set when a focus-in tween starts; no call of
    [animateCamera], the completing one included, changes it; an event can
    take it from true to false only if it is a frame in which a requested
    [animateReset] has reached its 1500 ms; so in every reachable state in
    FocusTweenIn, Focused or FocusTweenOut the flag is set and [onClick]
    returns at its first line. *)
Theorem isZooming_held_until_reset s :
  reachable s ->
  (forall model o modelSize now s0,
     isZooming (zoomToModel model o modelSize now s0) = true) /\
  (forall t now s0, isZooming (animateCamera t now s0) = isZooming s0) /\
  (forall e, isZooming s = true -> isZooming (handle e s) = false ->
     exists timestamp now intersects updated t,
       e = AnimationFrame timestamp now intersects updated /\
       In (cb_animateReset t) (raf s) /\ 1500 <= now - rt_startTime t) /\
  (forall t now s0, 1500 <= now - rt_startTime t ->
     isZooming (animateReset t now s0) = false) /\
  (phase s <> Idle ->
   isZooming s = true /\
   forall intersects modelSize now, onClick intersects modelSize now s = s).
Proof.
  intros Hr. pose proof (reachable_single_flight s Hr) as Hsf.
  split; [ | split; [ | split; [ | split]]].
  - intros. rewrite zoomToModel_starts. reflexivity.
  - intros t now s0.
    destruct (run_callback_isZooming 0 now [] (camera s0) (cb_animateCamera t) s0)
      as [H | (t' & H & _)]; [exact H | discriminate].
  - intros e Hz Hcleared. destruct e; simpl in Hcleared.
    + unfold paperLoaded in Hcleared.
      destruct (paperLabels !! length (papers s)); simpl in Hcleared; congruence.
    + rewrite onClick_ignored in Hcleared by trivial. congruence.
    + unfold closeOverlayClick in Hcleared.
      rewrite resetView_starts, onClick_ignored in Hcleared by reflexivity.
      discriminate.
    + unfold animationFrame in Hcleared.
      destruct (run_callbacks_isZooming timestamp now intersects updated
                  (raf s) (with_raf [] s)) as [Heq | (t & Hin & Ht)].
      * rewrite Heq in Hcleared. simpl in Hcleared. congruence.
      * exists timestamp, now, intersects, updated, t. auto.
  - intros t now s0 Hdone. rewrite animateReset_done by trivial. reflexivity.
  - intros Hp. pose proof (busy_phase_isZooming s Hsf Hp) as Hz.
    split; trivial. intros. apply onClick_ignored, Hz.
Qed.

(** ** Where the focus-in tween leaves the camera *)

Lemma animateCamera_done_pose t now s :
  1200 <= now - zt_startTime t ->
  cam_position (camera (animateCamera t now s)) = zt_targetPosition t /\
  target (controls (animateCamera t now s)) = zt_modelPosition t.
Proof.
  intros Hdone. rewrite animateCamera_done by exact Hdone.
  match goal with |- context [showContent ?m ?x] =>
    destruct (showContent_frame m x) as (_ & _ & _ & -> & -> & _) end.
  project. rewrite !lerpVectors_1. split; reflexivity.
Qed.

(** The distance from a point to the same point moved by (0, 0.2, d). *)
Lemma distance_of_offset p d :
  distanceTo (add p (vec3 0 0.2 d)) p = sqrt (0.04 + d * d).
Proof.
  unfold distanceTo, lengthSq, sub, add. simpl. f_equal. lra.
Qed.

(** ** The intro tween, step by step *)

Lemma initialCameraAnimation_running timestamp s :
  timestamp - intro_start timestamp s < 8000 ->
  initialCameraAnimation timestamp s =
  requestAnimationFrame cb_initialCameraAnimation
    (intro_pose (intro_start timestamp s)
       (1 - Rpower 2 (-10 * ((timestamp - intro_start timestamp s) / 8000))) s).
Proof.
  intros H. unfold initialCameraAnimation. fold (intro_start timestamp s).
  cbv zeta.
  destruct (progress_running (timestamp - intro_start timestamp s) 8000)
    as [-> Hlt]; try lra.
  destruct (Req_dec_T _ 1) as [e | _]; [lra | ].
  destruct (Rlt_dec _ 1) as [_ | n]; [reflexivity | contradiction].
Qed.

Lemma initialCameraAnimation_done timestamp s :
  8000 <= timestamp - intro_start timestamp s ->
  initialCameraAnimation timestamp s =
  controls_enabled_set true
    (with_initialAnimationComplete true
       (intro_pose (intro_start timestamp s) 1 s)).
Proof.
  intros H. unfold initialCameraAnimation. fold (intro_start timestamp s).
  cbv zeta. rewrite progress_done by lra.
  destruct (Req_dec_T 1 1) as [_ | n]; [ | contradiction].
  destruct (Rlt_dec 1 1) as [a | _]; [lra | reflexivity].
Qed.

(** ** The session, state by state *)

Lemma animationFrame_queue timestamp now intersects updated s q :
  raf s = q ->
  animationFrame timestamp now intersects updated s =
  run_callbacks timestamp now intersects updated q (with_raf [] s).
Proof. intros <-. reflexivity. Qed.

Lemma intro_start_started timestamp s v :
  initialAnimationStartTime s = Some v -> v <> 0 -> intro_start timestamp s = v.
Proof.
  intros H Hv. unfold intro_start. rewrite H.
  destruct (Req_dec_T v 0); [contradiction | reflexivity].
Qed.

Lemma page_loaded_raf startup now :
  raf (page_loaded startup now) = [cb_initialCameraAnimation; cb_animate].
Proof. reflexivity. Qed.

Lemma demo_first_frame_eq :
  demo_first_frame =
  animate 16 [] demo_startup
    (requestAnimationFrame cb_initialCameraAnimation
       (intro_pose 16 (1 - Rpower 2 (-10 * ((16 - 16) / 8000)))
          (with_raf [] (page_loaded demo_startup 0)))).
Proof.
  unfold demo_first_frame. cbn [handle].
  rewrite (animationFrame_queue _ _ _ _ _ _ (page_loaded_raf _ _)).
  cbn [run_callbacks fold_left run_callback].
  rewrite initialCameraAnimation_running.
  - reflexivity.
  - change (intro_start 16 (with_raf [] (page_loaded demo_startup 0))) with 16. lra.
Qed.

Lemma demo_paper_raf : raf demo_paper = [cb_initialCameraAnimation; cb_animate].
Proof. unfold demo_paper. rewrite demo_first_frame_eq. reflexivity. Qed.

Lemma demo_paper_startTime : initialAnimationStartTime demo_paper = Some 16.
Proof. unfold demo_paper. rewrite demo_first_frame_eq. reflexivity. Qed.

Lemma demo_hovering_eq :
  demo_hovering =
  animate 1000 [(0%nat, [0%nat])] demo_startup
    (requestAnimationFrame cb_initialCameraAnimation
       (intro_pose 16 (1 - Rpower 2 (-10 * ((1000 - 16) / 8000)))
          (with_raf [] demo_paper))).
Proof.
  unfold demo_hovering. cbn [handle].
  rewrite (animationFrame_queue _ _ _ _ _ _ demo_paper_raf).
  cbn [run_callbacks fold_left run_callback].
  assert (intro_start 1000 (with_raf [] demo_paper) = 16) as Hs.
  { apply intro_start_started; [exact demo_paper_startTime | lra]. }
  rewrite initialCameraAnimation_running; rewrite Hs; [reflexivity | lra].
Qed.

(** ** The climb from a hit to its paper *)

Lemma forallb_lookup {A} (f : A -> bool) (l : list A) i x :
  forallb f l = true -> l !! i = Some x -> f x = true.
Proof.
  intros Hall Hx. rewrite forallb_forall in Hall. apply Hall.
  apply list_elem_of_In. eapply list_elem_of_lookup_2, Hx.
Qed.

Lemma unlabelled_inv o :
  unlabelled o = true ->
  userData_label o = None /\ forallb unlabelled (children o) = true.
Proof. destruct o as [p [l | ] u cs]; simpl; [discriminate | auto]. Qed.

Lemma lineage_unlabelled path : forall o here l,
  forallb unlabelled (children o) = true ->
  lineage o here path = Some l ->
  exists pre, l = pre ++ [(here, o)] /\ Forall (fun n => has_label n = false) pre.
Proof.
  induction path as [ | i rest IH]; intros o here l Hcs Hl; simpl in Hl.
  - injection Hl as <-. exists []. auto.
  - destruct (children o !! i) as [c | ] eqn:Hc; [ | discriminate].
    destruct (lineage c (here ++ [i]) rest) as [l' | ] eqn:Hl'; [ | discriminate].
    injection Hl as <-. exists l'. split; trivial.
    destruct (unlabelled_inv c (forallb_lookup _ _ _ _ Hcs Hc)) as [Hnone Hcs'].
    destruct (IH c (here ++ [i]) l' Hcs' Hl') as (pre & -> & Hpre).
    apply Forall_app. split; trivial.
    constructor; [ | constructor]. unfold has_label. simpl. rewrite Hnone. reflexivity.
Qed.

Lemma find_skip {A} (f : A -> bool) pre x :
  Forall (fun n => f n = false) pre -> f x = true ->
  List.find f (pre ++ [x]) = Some x.
Proof.
  induction 1 as [ | y pre Hy _ IH]; intros Hx; simpl.
  - rewrite Hx. reflexivity.
  - rewrite Hy. auto.
Qed.

Lemma paper_ok_inv paper :
  paper_ok paper = true ->
  (exists label, userData_label paper = Some label) /\
  forallb unlabelled (children paper) = true.
Proof.
  unfold paper_ok. destruct (userData_label paper); [eauto | discriminate].
Qed.

Lemma climb_reaches_paper paper path l :
  paper_ok paper = true -> lineage paper [] path = Some l ->
  climb l = Some ([], paper).
Proof.
  intros Hok Hl. destruct (paper_ok_inv paper Hok) as [[label Hlabel] Hcs].
  destruct (lineage_unlabelled path paper [] l Hcs Hl) as (pre & -> & Hpre).
  unfold climb. apply find_skip; trivial.
  unfold has_label. simpl. rewrite Hlabel. reflexivity.
Qed.

Lemma object_at_is_Some l i path :
  is_Some (object_at l (i, path)) ->
  exists paper chain, l !! i = Some paper /\ lineage paper [] path = Some chain.
Proof.
  unfold object_at. simpl.
  destruct (l !! i) as [paper | ] eqn:Hp; [ | intros [o Ho]; discriminate].
  destruct (lineage paper [] path) as [chain | ] eqn:Hc;
    [ | intros [o Ho]; discriminate].
  intros _. exists paper, chain. auto.
Qed.

Lemma hits_exist_cons l r rest :
  hits_exist l (r :: rest) = true -> is_Some (object_at l r).
Proof.
  unfold hits_exist. simpl. intros H. apply andb_true_iff in H as [H _].
  apply bool_decide_eq_true in H. exact H.
Qed.

(** In a scene built by [createPaper] the climb from a hit ends at the paper
    the hit lies in. *)
Lemma parentModel_of_paper l i path (rest : list ObjectRef) :
  scene_ok l = true -> hits_exist l ((i, path) :: rest) = true ->
  exists paper, l !! i = Some paper /\
    parentModel_of l ((i, path) :: rest) = Some ((i, []), paper).
Proof.
  intros Hok Hh.
  destruct (object_at_is_Some l i path (hits_exist_cons _ _ _ Hh))
    as (paper & chain & Hp & Hc).
  exists paper. split; trivial.
  unfold parentModel_of. rewrite Hp, Hc.
  rewrite (climb_reaches_paper paper path chain); trivial.
  eapply forallb_lookup; eauto.
Qed.

(** ** The scene stays as [createPaper] built it *)

Lemma lookup_map {A B} (f : A -> B) (l : list A) j :
  List.map f l !! j = option_map f (l !! j).
Proof.
  revert j. induction l as [ | x l IH]; intros [ | j]; simpl; auto.
Qed.

Lemma paper_ok_set_label_opacity v p : paper_ok (set_label_opacity v p) = paper_ok p.
Proof. unfold paper_ok, set_label_opacity. simpl. destruct (userData_label p); reflexivity. Qed.

Lemma paper_ok_float_paper time p : paper_ok (float_paper time p) = paper_ok p.
Proof. unfold float_paper. destruct (userData_float p); reflexivity. Qed.

Lemma scene_ok_map f l :
  (forall p, paper_ok (f p) = paper_ok p) -> scene_ok (List.map f l) = scene_ok l.
Proof.
  intros Hf. unfold scene_ok. induction l as [ | p l IH]; simpl; trivial.
  rewrite Hf, IH. reflexivity.
Qed.

Lemma scene_ok_app l p :
  scene_ok l = true -> paper_ok p = true -> scene_ok (l ++ [p]) = true.
Proof.
  unfold scene_ok. intros Hl Hp. rewrite forallb_app. simpl.
  rewrite Hl, Hp. reflexivity.
Qed.

Lemma lineage_same_children o o' here path :
  children o' = children o ->
  is_Some (lineage o' here path) <-> is_Some (lineage o here path).
Proof.
  intros Hc. destruct path as [ | i rest]; simpl.
  - split; eauto.
  - rewrite Hc. destruct (children o !! i) as [c | ]; [ | tauto].
    destruct (lineage c (here ++ [i]) rest); split; eauto.
Qed.

Lemma lineage_nonempty path : forall o here, lineage o here path <> Some [].
Proof.
  destruct path as [ | i rest]; intros o here; simpl; [discriminate | ].
  destruct (children o !! i) as [c | ]; [ | discriminate].
  destruct (lineage c (here ++ [i]) rest) as [l | ]; [ | discriminate].
  destruct l; discriminate.
Qed.

Lemma object_at_lineage l i path :
  is_Some (object_at l (i, path)) <->
  exists paper, l !! i = Some paper /\ is_Some (lineage paper [] path).
Proof.
  split.
  - intros H. destruct (object_at_is_Some l i path H) as (paper & chain & Hp & Hc).
    exists paper. rewrite Hc. eauto.
  - intros (paper & Hp & [chain Hc]). unfold object_at. simpl. rewrite Hp, Hc.
    destruct chain as [ | [h o] chain]; [ | eauto].
    destruct (lineage_nonempty path paper [] Hc).
Qed.

Lemma hits_exist_map f l intersects :
  (forall o, children (f o) = children o) ->
  hits_exist (List.map f l) intersects = hits_exist l intersects.
Proof.
  intros Hf. unfold hits_exist.
  induction intersects as [ | [i path] rest IH]; simpl; trivial.
  rewrite IH. f_equal. apply bool_decide_ext.
  rewrite !object_at_lineage, lookup_map. split.
  - intros (paper' & Hp & Hl). destruct (l !! i) as [paper | ]; [ | discriminate].
    injection Hp as <-. exists paper. split; trivial.
    eapply lineage_same_children; [ | exact Hl]. symmetry. apply Hf.
  - intros (paper & Hp & Hl). rewrite Hp. exists (f paper). split; trivial.
    eapply lineage_same_children; [ | exact Hl]. apply Hf.
Qed.

Lemma children_float_paper time o : children (float_paper time o) = children o.
Proof. unfold float_paper. destruct (userData_float o); reflexivity. Qed.

(** ** The hover pass *)

Lemma hover_hit i path (rest : list ObjectRef) s :
  scene_ok (papers s) = true ->
  hits_exist (papers s) ((i, path) :: rest) = true ->
  exists paper, papers s !! i = Some paper /\
    papers (hover ((i, path) :: rest) s) =
      <[i := set_label_opacity 0.8 paper]> (papers s) /\
    lastHoveredModel (hover ((i, path) :: rest) s) = Some (i, []) /\
    hoverSound_plays (hover ((i, path) :: rest) s) =
      if bool_decide (lastHoveredModel s = Some (i, []))
      then hoverSound_plays s else S (hoverSound_plays s).
Proof.
  intros Hok Hh.
  destruct (parentModel_of_paper _ _ _ _ Hok Hh) as (paper & Hp & Hpm).
  exists paper. split; trivial. unfold hover. rewrite Hpm.
  unfold update_ref. cbn [fst snd papers with_papers update_at].
  rewrite Hp. cbn [lastHoveredModel hoverSound_plays with_papers].
  repeat case_bool_decide; simpl; auto; exfalso; auto.
Qed.

Lemma animate_papers now intersects updated s :
  scene_ok (papers s) = true -> hits_exist (papers s) intersects = true ->
  forall j, papers (animate now intersects updated s) !! j =
            option_map (frame_paper (now * 0.001) intersects j) (papers s !! j).
Proof.
  intros Hok Hh j. unfold animate. cbv zeta. cbn [papers with_papers].
  rewrite lookup_map.
  destruct (animate_camera_frame (now * 0.001) updated
              (requestAnimationFrame cb_animate s))
    as (_ & _ & _ & _ & _ & _ & Hpap & _).
  set (s0 := animate_camera (now * 0.001) updated
               (requestAnimationFrame cb_animate s)) in *.
  cbn [papers requestAnimationFrame with_raf] in Hpap.
  set (s1 := with_papers (List.map hide_label (papers s0)) s0).
  assert (papers s1 = List.map hide_label (papers s)) as Hs1
    by (unfold s1; simpl; rewrite Hpap; reflexivity).
  destruct intersects as [ | [i path] rest].
  - unfold hover, frame_paper. cbn [papers with_lastHoveredModel].
    rewrite Hs1, lookup_map. destruct (papers s !! j); reflexivity.
  - assert (scene_ok (papers s1) = true) as Hok1.
    { rewrite Hs1, scene_ok_map; trivial. apply paper_ok_set_label_opacity. }
    assert (hits_exist (papers s1) ((i, path) :: rest) = true) as Hh1.
    { rewrite Hs1, hits_exist_map; trivial. }
    destruct (hover_hit i path rest s1 Hok1 Hh1) as (paper1 & Hp1 & Hpapers & _).
    match goal with |- context [papers (hover ?h ?x)] =>
      replace (papers (hover h x))
        with (<[i := set_label_opacity 0.8 paper1]> (papers s1))
        by (symmetry; exact Hpapers) end.
    unfold frame_paper. rewrite Hs1 in *. rewrite lookup_map in Hp1.
    case_bool_decide as Hj.
    + subst j. destruct (papers s !! i) as [p | ] eqn:Hp; [ | discriminate].
      simpl in Hp1. injection Hp1 as <-.
      rewrite list_lookup_insert_eq; [reflexivity | ].
      rewrite length_map. eapply lookup_lt_Some, Hp.
    + rewrite list_lookup_insert_ne by auto. rewrite lookup_map.
      destruct (papers s !! j); reflexivity.
Qed.

Lemma scene_ok_lookup l :
  scene_ok l = true <-> forall j p, l !! j = Some p -> paper_ok p = true.
Proof.
  unfold scene_ok. rewrite forallb_forall. split.
  - intros H j p Hp. apply H, list_elem_of_In. eapply list_elem_of_lookup_2, Hp.
  - intros H p Hp. apply list_elem_of_In, list_elem_of_lookup_1 in Hp as [j Hj]. eauto.
Qed.

Lemma hits_exist_lookup l intersects :
  hits_exist l intersects = true <->
  forall i path, In (i, path) intersects ->
    exists paper, l !! i = Some paper /\ is_Some (lineage paper [] path).
Proof.
  unfold hits_exist. rewrite forallb_forall. split.
  - intros H i path Hin. apply object_at_lineage.
    specialize (H _ Hin). apply bool_decide_eq_true in H. exact H.
  - intros H [i path] Hin. apply bool_decide_eq_true, object_at_lineage. auto.
Qed.

Lemma paper_ok_frame_paper time intersects j p :
  paper_ok (frame_paper time intersects j p) = paper_ok p.
Proof.
  unfold frame_paper. rewrite paper_ok_float_paper.
  destruct intersects as [ | [i path] rest];
    [ | case_bool_decide]; unfold hide_label;
    rewrite ?paper_ok_set_label_opacity; reflexivity.
Qed.

Lemma children_frame_paper time intersects j p :
  children (frame_paper time intersects j p) = children p.
Proof.
  unfold frame_paper. rewrite children_float_paper.
  destruct intersects as [ | [i path] rest]; [ | case_bool_decide]; reflexivity.
Qed.

(** A frame changes no paper beyond its position and the opacity of its
    label, so the scene stays well built and the references stay valid. *)
Lemma animate_scene now intersects updated s hits :
  scene_ok (papers s) = true -> hits_exist (papers s) intersects = true ->
  scene_ok (papers (animate now intersects updated s)) = true /\
  (hits_exist (papers s) hits = true ->
   hits_exist (papers (animate now intersects updated s)) hits = true).
Proof.
  intros Hok Hh. pose proof (animate_papers now intersects updated s Hok Hh) as Hl.
  split.
  - apply scene_ok_lookup. intros j p' Hp'. rewrite Hl in Hp'.
    destruct (papers s !! j) as [p | ] eqn:Hp; [ | discriminate].
    injection Hp' as <-. rewrite paper_ok_frame_paper.
    eapply scene_ok_lookup; eauto.
  - rewrite !hits_exist_lookup. intros H i path Hin.
    destruct (H i path Hin) as (paper & Hp & Hlin).
    exists (frame_paper (now * 0.001) intersects i paper). rewrite Hl, Hp.
    split; trivial.
    eapply lineage_same_children; [ | exact Hlin]. apply children_frame_paper.
Qed.

Lemma animateCamera_papers t now s : papers (animateCamera t now s) = papers s.
Proof.
  destruct (Rlt_le_dec (now - zt_startTime t) 1200) as [Hlt | Hge].
  - rewrite animateCamera_running by trivial. reflexivity.
  - rewrite animateCamera_done by trivial.
    match goal with |- context [showContent ?m ?x] =>
      destruct (showContent_frame m x) as (_ & _ & _ & _ & _ & -> & _) end.
    reflexivity.
Qed.

Lemma animateReset_papers t now s : papers (animateReset t now s) = papers s.
Proof.
  destruct (Rlt_le_dec (now - rt_startTime t) 1500) as [Hlt | Hge].
  - rewrite animateReset_running by trivial. reflexivity.
  - rewrite animateReset_done by trivial. reflexivity.
Qed.

Lemma onClick_papers intersects modelSize now s :
  papers (onClick intersects modelSize now s) = papers s.
Proof.
  unfold onClick. destruct (isZooming s); trivial.
  destruct (parentModel_of (papers s) intersects) as [[parentModel o] | ]; trivial.
  rewrite zoomToModel_starts. reflexivity.
Qed.

Section SceneFrame.

Variables (timestamp now : R) (intersects : list ObjectRef) (updated : Camera).

Lemma run_callback_scene cb s :
  scene_ok (papers s) = true -> hits_exist (papers s) intersects = true ->
  scene_ok (papers (run_callback timestamp now intersects updated s cb)) = true /\
  hits_exist (papers (run_callback timestamp now intersects updated s cb))
    intersects = true.
Proof.
  intros Hok Hh. destruct cb as [ | t | t | ]; cbn [run_callback].
  - destruct (initialCameraAnimation_frame timestamp s) as (_ & _ & _ & _ & ->). auto.
  - rewrite animateCamera_papers. auto.
  - rewrite animateReset_papers. auto.
  - destruct (animate_scene now intersects updated s intersects Hok Hh). auto.
Qed.

Lemma run_callbacks_scene todo s :
  scene_ok (papers s) = true -> hits_exist (papers s) intersects = true ->
  scene_ok (papers (run_callbacks timestamp now intersects updated todo s)) = true.
Proof.
  revert s. induction todo as [ | cb rest IH]; intros s Hok Hh; simpl; trivial.
  destruct (run_callback_scene cb s Hok Hh).
  apply IH; trivial.
Qed.

End SceneFrame.

Lemma reachable_scene_ok s : reachable s -> scene_ok (papers s) = true.
Proof.
  induction 1 as [startup now | s e Hr IH Hd].
  - reflexivity.
  - destruct e; simpl in *.
    + unfold paperLoaded. destruct (paperLabels !! length (papers s)); trivial.
      cbn [papers with_papers]. apply scene_ok_app; trivial.
      unfold paper_ok. simpl. tauto.
    + rewrite onClick_papers. exact IH.
    + unfold closeOverlayClick. rewrite onClick_papers, resetView_starts. exact IH.
    + unfold animationFrame. apply run_callbacks_scene; trivial.
Qed.

(** ** Hover highlight *)

Lemma label_opacity_float_paper time p :
  label_opacity (float_paper time p) = label_opacity p.
Proof. unfold float_paper. destruct (userData_float p); reflexivity. Qed.

Lemma label_opacity_set v p :
  paper_ok p = true -> label_opacity (set_label_opacity v p) = Some v.
Proof.
  intros Hok. destruct (paper_ok_inv p Hok) as [[label Hl] _].
  unfold label_opacity, set_label_opacity. simpl. rewrite Hl. reflexivity.
Qed.

Lemma label_opacity_frame_paper time intersects j p :
  paper_ok p = true ->
  label_opacity (frame_paper time intersects j p) =
  Some (if bool_decide (hovered_item intersects = Some (j, [])) then 0.8 else 0).
Proof.
  intros Hok. unfold frame_paper, hovered_item. rewrite label_opacity_float_paper.
  destruct intersects as [ | [i path] rest].
  - rewrite bool_decide_eq_false_2 by discriminate.
    apply label_opacity_set, Hok.
  - repeat case_bool_decide; unfold hide_label;
      rewrite label_opacity_set; rewrite ?paper_ok_set_label_opacity; trivial;
      exfalso; congruence.
Qed.

(** ** Hover sound *)

Lemma animate_hover now intersects updated s :
  scene_ok (papers s) = true -> hits_exist (papers s) intersects = true ->
  lastHoveredModel (animate now intersects updated s) = hovered_item intersects /\
  hoverSound_plays (animate now intersects updated s) =
    if bool_decide (hovered_item intersects = None
                    \/ hovered_item intersects = lastHoveredModel s)
    then hoverSound_plays s else S (hoverSound_plays s).
Proof.
  intros Hok Hh. unfold animate. cbv zeta.
  cbn [lastHoveredModel hoverSound_plays with_papers].
  destruct (animate_camera_frame (now * 0.001) updated
              (requestAnimationFrame cb_animate s))
    as (_ & _ & _ & _ & _ & _ & Hpap & Hlast & Hplays).
  set (s0 := animate_camera (now * 0.001) updated
               (requestAnimationFrame cb_animate s)) in *.
  cbn [papers lastHoveredModel hoverSound_plays requestAnimationFrame with_raf]
    in Hpap, Hlast, Hplays.
  set (s1 := with_papers (List.map hide_label (papers s0)) s0).
  assert (papers s1 = List.map hide_label (papers s)) as Hs1
    by (unfold s1; simpl; rewrite Hpap; reflexivity).
  assert (lastHoveredModel s1 = lastHoveredModel s) as Hl1 by exact Hlast.
  assert (hoverSound_plays s1 = hoverSound_plays s) as Hp1 by exact Hplays.
  destruct intersects as [ | [i path] rest].
  - unfold hover, hovered_item. simpl.
    auto.
  - assert (scene_ok (papers s1) = true) as Hok1.
    { rewrite Hs1, scene_ok_map; trivial. apply paper_ok_set_label_opacity. }
    assert (hits_exist (papers s1) ((i, path) :: rest) = true) as Hh1.
    { rewrite Hs1, hits_exist_map; trivial. }
    destruct (hover_hit i path rest s1 Hok1 Hh1) as (_ & _ & _ & Hlast' & Hplays').
    split; [exact Hlast' | ].
    etransitivity; [exact Hplays' | ].
    rewrite Hl1, Hp1. unfold hovered_item.
    repeat case_bool_decide; trivial; exfalso; try (intuition congruence).
Qed.

Lemma showContent_hover model s :
  lastHoveredModel (showContent model s) = lastHoveredModel s /\
  hoverSound_plays (showContent model s) = hoverSound_plays s.
Proof. unfold showContent. break_handlers. Qed.

Lemma run_callback_hover timestamp now intersects updated cb s :
  cb <> cb_animate ->
  lastHoveredModel (run_callback timestamp now intersects updated s cb)
    = lastHoveredModel s /\
  hoverSound_plays (run_callback timestamp now intersects updated s cb)
    = hoverSound_plays s.
Proof.
  intros Hcb. destruct cb as [ | t | t | ]; cbn [run_callback]; [ | | | congruence].
  - unfold initialCameraAnimation. destruct (Rlt_dec _ 1); simpl; auto.
  - destruct (Rlt_le_dec (now - zt_startTime t) 1200) as [Hlt | Hge].
    + rewrite animateCamera_running by trivial. simpl. auto.
    + rewrite animateCamera_done by trivial.
      match goal with |- context [showContent ?m ?x] =>
        destruct (showContent_hover m x) as (-> & ->) end.
      simpl. auto.
  - destruct (Rlt_le_dec (now - rt_startTime t) 1500) as [Hlt | Hge].
    + rewrite animateReset_running by trivial. simpl. auto.
    + rewrite animateReset_done by trivial. simpl. auto.
Qed.

Lemma handle_hover e s :
  (forall timestamp now intersects updated,
     e <> AnimationFrame timestamp now intersects updated) ->
  lastHoveredModel (handle e s) = lastHoveredModel s /\
  hoverSound_plays (handle e s) = hoverSound_plays s.
Proof.
  intros He. destruct e; simpl.
  - unfold paperLoaded. destruct (paperLabels !! length (papers s)); simpl; auto.
  - unfold onClick. destruct (isZooming s); auto.
    destruct (parentModel_of (papers s) intersects) as [[parentModel o] | ]; auto.
    rewrite zoomToModel_starts. simpl. auto.
  - unfold closeOverlayClick.
    rewrite resetView_starts, onClick_ignored by reflexivity. simpl. auto.
  - destruct (He timestamp now intersects updated). reflexivity.
Qed.

(** ** [animate] runs once per frame *)

Lemma animate_calls_app q1 q2 :
  animate_calls (q1 ++ q2) = (animate_calls q1 + animate_calls q2)%nat.
Proof. unfold animate_calls. rewrite List.filter_app, length_app. reflexivity. Qed.

Lemma animate_calls_cons cb q :
  animate_calls (cb :: q) = ((if is_animate_cb cb then 1 else 0) + animate_calls q)%nat.
Proof. unfold animate_calls. simpl. destruct (is_animate_cb cb); reflexivity. Qed.

Lemma showContent_raf model s : raf (showContent model s) = raf s.
Proof. apply showContent_frame. Qed.

Lemma run_callback_raf timestamp now intersects updated cb s :
  animate_calls (raf (run_callback timestamp now intersects updated s cb)) =
  ((if is_animate_cb cb then 1 else 0) + animate_calls (raf s))%nat.
Proof.
  destruct cb as [ | t | t | ]; cbn [run_callback is_animate_cb].
  - unfold initialCameraAnimation. destruct (Rlt_dec _ 1); project; trivial.
    rewrite animate_calls_app. unfold animate_calls in *. simpl in *. lia.
  - destruct (Rlt_le_dec (now - zt_startTime t) 1200) as [Hlt | Hge].
    + rewrite animateCamera_running by trivial. project.
      rewrite animate_calls_app. unfold animate_calls in *. simpl in *. lia.
    + rewrite animateCamera_done, showContent_raf by trivial. reflexivity.
  - destruct (Rlt_le_dec (now - rt_startTime t) 1500) as [Hlt | Hge].
    + rewrite animateReset_running by trivial. project.
      rewrite animate_calls_app. unfold animate_calls in *. simpl in *. lia.
    + rewrite animateReset_done by trivial. reflexivity.
  - destruct (animate_frame now intersects updated s) as (_ & -> & _).
    rewrite animate_calls_app. unfold animate_calls in *. simpl in *. lia.
Qed.

Lemma run_callbacks_animate_once timestamp now intersects updated todo s :
  animate_once todo s ->
  animate_once [] (run_callbacks timestamp now intersects updated todo s).
Proof.
  unfold animate_once. revert s.
  induction todo as [ | cb rest IH]; intros s H; simpl; trivial.
  apply IH. rewrite run_callback_raf. rewrite animate_calls_cons in H. lia.
Qed.

Lemma reachable_animate_once s : reachable s -> animate_once [] s.
Proof.
  unfold animate_once.
  induction 1 as [startup now | s e Hr IH Hd]; [reflexivity | ].
  destruct e; simpl in *.
  - unfold paperLoaded. destruct (paperLabels !! length (papers s)); exact IH.
  - unfold onClick. destruct (isZooming s); trivial.
    destruct (parentModel_of (papers s) intersects) as [[parentModel o] | ]; trivial.
    rewrite zoomToModel_starts. project.
    rewrite animate_calls_app. unfold animate_calls in *. simpl in *. lia.
  - rewrite closeOverlayClick_starts. project.
    rewrite animate_calls_app. unfold animate_calls in *. simpl in *. lia.
  - unfold animationFrame.
    apply (run_callbacks_animate_once timestamp now intersects updated (raf s)).
    unfold animate_once, animate_calls in *. simpl in *. lia.
Qed.

(** What a frame does to the papers and to the hover memo is what its one
    call of [animate] does. *)
Lemma run_callbacks_hover timestamp now intersects updated todo : forall s,
  scene_ok (papers s) = true -> hits_exist (papers s) intersects = true ->
  (animate_calls todo = 0%nat ->
   papers (run_callbacks timestamp now intersects updated todo s) = papers s /\
   lastHoveredModel (run_callbacks timestamp now intersects updated todo s)
     = lastHoveredModel s /\
   hoverSound_plays (run_callbacks timestamp now intersects updated todo s)
     = hoverSound_plays s) /\
  (animate_calls todo = 1%nat ->
   (forall j, papers (run_callbacks timestamp now intersects updated todo s) !! j
              = option_map (frame_paper (now * 0.001) intersects j) (papers s !! j)) /\
   lastHoveredModel (run_callbacks timestamp now intersects updated todo s)
     = hovered_item intersects /\
   hoverSound_plays (run_callbacks timestamp now intersects updated todo s)
     = if bool_decide (hovered_item intersects = None
                       \/ hovered_item intersects = lastHoveredModel s)
       then hoverSound_plays s else S (hoverSound_plays s)).
Proof.
  induction todo as [ | cb rest IH]; intros s Hok Hh.
  - split; [auto | discriminate].
  - rewrite animate_calls_cons. cbn [run_callbacks fold_left].
    fold (run_callbacks timestamp now intersects updated rest
            (run_callback timestamp now intersects updated s cb)).
    destruct (run_callback_scene timestamp now intersects updated cb s Hok Hh)
      as [Hok' Hh'].
    destruct (IH _ Hok' Hh') as [IH0 IH1].
    destruct cb as [ | t | t | ]; cbn [is_animate_cb];
      cbn [run_callback] in *.
    + destruct (run_callback_hover timestamp now intersects updated
                  cb_initialCameraAnimation s) as [Hl Hp]; [discriminate | ].
      cbn [run_callback] in Hl, Hp.
      destruct (initialCameraAnimation_frame timestamp s) as (_ & _ & _ & _ & Hpap).
      rewrite Hpap in *. rewrite Hl, Hp in *. split; assumption.
    + destruct (run_callback_hover timestamp now intersects updated
                  (cb_animateCamera t) s) as [Hl Hp]; [discriminate | ].
      cbn [run_callback] in Hl, Hp.
      rewrite animateCamera_papers in *. rewrite Hl, Hp in *. split; assumption.
    + destruct (run_callback_hover timestamp now intersects updated
                  (cb_animateReset t) s) as [Hl Hp]; [discriminate | ].
      cbn [run_callback] in Hl, Hp.
      rewrite animateReset_papers in *. rewrite Hl, Hp in *. split; assumption.
    + split; [intros; lia | ]. intros Hone.
      destruct IH0 as (-> & -> & ->); [lia | ].
      destruct (animate_hover now intersects updated s Hok Hh) as [Hl Hp].
      split; [apply animate_papers; assumption | split; assumption].
Qed.

Lemma animationFrame_hover timestamp now intersects updated s :
  reachable s -> hits_exist (papers s) intersects = true ->
  (forall j, papers (animationFrame timestamp now intersects updated s) !! j
             = option_map (frame_paper (now * 0.001) intersects j) (papers s !! j)) /\
  lastHoveredModel (animationFrame timestamp now intersects updated s)
    = hovered_item intersects /\
  hoverSound_plays (animationFrame timestamp now intersects updated s)
    = if bool_decide (hovered_item intersects = None
                      \/ hovered_item intersects = lastHoveredModel s)
      then hoverSound_plays s else S (hoverSound_plays s).
Proof.
  intros Hr Hh. unfold animationFrame.
  pose proof (reachable_animate_once s Hr) as Honce. unfold animate_once in Honce.
  simpl in Honce.
  destruct (run_callbacks_hover timestamp now intersects updated (raf s)
              (with_raf [] s) (reachable_scene_ok s Hr) Hh) as [_ H].
  apply H. exact Honce.
Qed.

(** C6.  After a frame, in a scene as [createPaper] builds it and with a ray
    query that returns objects below [papers]: the label of every paper has
    opacity 0.8 if the paper is the one the first (nearest) hit lies in, and
    0 otherwise.  So with a hit exactly that paper, which is among the
    papers, is highlighted, and without a hit none is. *)
Theorem hover_highlight timestamp now intersects updated s :
  reachable s -> hits_exist (papers s) intersects = true ->
  let s' := animationFrame timestamp now intersects updated s in
  (forall j p, papers s' !! j = Some p ->
     label_opacity p =
       Some (if bool_decide (hovered_item intersects = Some (j, [])) then 0.8 else 0) /\
     (highlighted p <-> hovered_item intersects = Some (j, []))) /\
  (forall i, hovered_item intersects = Some (i, []) ->
     exists p, papers s' !! i = Some p /\ label_opacity p = Some 0.8) /\
  (hovered_item intersects = None ->
     forall j p, papers s' !! j = Some p -> ~ highlighted p).
Proof.
  intros Hr Hh s'. pose proof (reachable_scene_ok s Hr) as Hok.
  destruct (animationFrame_hover timestamp now intersects updated s Hr Hh)
    as (Hl & _).
  assert (forall j p, papers s' !! j = Some p ->
            label_opacity p =
            Some (if bool_decide (hovered_item intersects = Some (j, []))
                  then 0.8 else 0)) as Hop.
  { intros j p' Hp'. subst s'. rewrite Hl in Hp'.
    destruct (papers s !! j) as [p | ] eqn:Hp; [ | discriminate].
    injection Hp' as <-. apply label_opacity_frame_paper.
    eapply scene_ok_lookup; eauto. }
  assert (forall j p, papers s' !! j = Some p ->
            (highlighted p <-> hovered_item intersects = Some (j, []))) as Hhi.
  { intros j p Hp. specialize (Hop j p Hp). unfold highlighted. rewrite Hop.
    case_bool_decide as Hj; split.
    - trivial.
    - intros _. exists 0.8. split; [reflexivity | lra].
    - intros (v & [= <-] & Hv). lra.
    - intros H. contradiction. }
  split; [ | split].
  - intros j p Hp. split; auto.
  - intros i Hi.
    destruct intersects as [ | [i' path] rest]; [discriminate | ].
    injection Hi as ->.
    pose proof (proj1 (hits_exist_lookup _ _) Hh) as Hex.
    destruct (Hex i path (or_introl eq_refl)) as (paper & Hp & _).
    exists (frame_paper (now * 0.001) ((i, path) :: rest) i paper).
    assert (papers s' !! i =
            Some (frame_paper (now * 0.001) ((i, path) :: rest) i paper)) as Hp'
      by (subst s'; rewrite Hl, Hp; reflexivity).
    split; trivial. rewrite (Hop _ _ Hp').
    rewrite bool_decide_eq_true_2; reflexivity.
  - intros Hnone j p Hp Hhp. apply (Hhi j p Hp) in Hhp. congruence.
Qed.

(** C7.  A frame leaves in [lastHoveredModel] the item hovered in it (none
    without a hit), and calls [hoverSound.play()] once if an item is hovered
    that differs from what [lastHoveredModel] held, that is the item hovered
    in the frame before, or none; otherwise it does not call it.  So the
    next frame, if it hovers the same item, plays nothing.  No event other
    than a frame writes [lastHoveredModel] or plays the sound. *)
Theorem hover_sound_rising_edge timestamp now intersects updated s :
  reachable s -> hits_exist (papers s) intersects = true ->
  let s' := animationFrame timestamp now intersects updated s in
  lastHoveredModel s' = hovered_item intersects /\
  hoverSound_plays s' =
    (if bool_decide (hovered_item intersects = None
                     \/ hovered_item intersects = lastHoveredModel s)
     then hoverSound_plays s else S (hoverSound_plays s)) /\
  (forall timestamp2 now2 intersects2 updated2,
     hits_exist (papers s') intersects2 = true ->
     hovered_item intersects2 = hovered_item intersects ->
     hoverSound_plays (animationFrame timestamp2 now2 intersects2 updated2 s')
     = hoverSound_plays s') /\
  (forall e,
     (forall timestamp2 n i u, e <> AnimationFrame timestamp2 n i u) ->
     lastHoveredModel (handle e s') = lastHoveredModel s' /\
     hoverSound_plays (handle e s') = hoverSound_plays s').
Proof.
  intros Hr Hh s'.
  destruct (animationFrame_hover timestamp now intersects updated s Hr Hh)
    as (_ & Hlast & Hplays).
  split; [exact Hlast | split; [exact Hplays | split]].
  - intros timestamp2 now2 intersects2 updated2 Hh2 Hsame.
    assert (reachable s') as Hr'
      by exact (reachable_handle s (AnimationFrame timestamp now intersects updated)
                  Hr Hh).
    destruct (animationFrame_hover timestamp2 now2 intersects2 updated2 s' Hr' Hh2)
      as (_ & _ & ->).
    rewrite bool_decide_eq_true_2; [reflexivity | ].
    right. subst s'. rewrite Hlast. exact Hsame.
  - intros e He. apply handle_hover, He.
Qed.

(** ** The intro flags are written by the intro alone *)

Lemma showContent_intro_flags model s :
  intro_flags (showContent model s) = intro_flags s.
Proof. unfold showContent. break_handlers. Qed.

Lemma animate_intro_flags now intersects updated s :
  intro_flags (animate now intersects updated s) = intro_flags s.
Proof.
  unfold animate, intro_flags. cbv zeta.
  cbn [initialAnimationComplete initialAnimationStartTime with_papers].
  assert (forall i x, intro_flags (hover i x) = intro_flags x) as Hh
    by (intros; unfold hover; break_handlers).
  assert (forall t u x, intro_flags (animate_camera t u x) = intro_flags x) as Hc
    by (intros; unfold animate_camera, orbit_camera; break_handlers).
  match goal with |- context [hover ?i ?x] =>
    change (intro_flags (hover i x) = intro_flags s); rewrite Hh end.
  match goal with |- context [animate_camera ?t ?u ?x] =>
    change (intro_flags (animate_camera t u x) = intro_flags s); rewrite Hc end.
  reflexivity.
Qed.

Lemma animateCamera_intro_flags t now s :
  intro_flags (animateCamera t now s) = intro_flags s.
Proof.
  destruct (Rlt_le_dec (now - zt_startTime t) 1200) as [Hlt | Hge].
  - rewrite animateCamera_running by trivial. reflexivity.
  - rewrite animateCamera_done, showContent_intro_flags by trivial. reflexivity.
Qed.

Lemma animateCamera_complete t now s :
  initialAnimationComplete (animateCamera t now s) = initialAnimationComplete s.
Proof. exact (f_equal fst (animateCamera_intro_flags t now s)). Qed.

Lemma animate_complete now intersects updated s :
  initialAnimationComplete (animate now intersects updated s)
  = initialAnimationComplete s.
Proof. exact (f_equal fst (animate_intro_flags now intersects updated s)). Qed.

(** [onClick] neither reads nor writes the flag of the intro. *)
Lemma onClick_ignores_intro intersects modelSize now b s :
  onClick intersects modelSize now (with_initialAnimationComplete b s) =
  with_initialAnimationComplete b (onClick intersects modelSize now s).
Proof.
  unfold onClick. cbn [isZooming papers with_initialAnimationComplete].
  destruct (isZooming s); trivial.
  destruct (parentModel_of (papers s) intersects) as [[parentModel o] | ]; trivial.
  rewrite !zoomToModel_starts. reflexivity.
Qed.

(** ** The intro is requested until it completes *)

Lemma intro_calls_app q1 q2 :
  intro_calls (q1 ++ q2) = (intro_calls q1 + intro_calls q2)%nat.
Proof. unfold intro_calls. rewrite List.filter_app, length_app. reflexivity. Qed.

Lemma intro_calls_cons cb q :
  intro_calls (cb :: q) = ((if is_intro_cb cb then 1 else 0) + intro_calls q)%nat.
Proof. unfold intro_calls. simpl. destruct (is_intro_cb cb); reflexivity. Qed.

Lemma animateReset_complete t now s :
  initialAnimationComplete (animateReset t now s) = initialAnimationComplete s.
Proof.
  destruct (Rlt_le_dec (now - rt_startTime t) 1500) as [Hlt | Hge].
  - rewrite animateReset_running by trivial. reflexivity.
  - rewrite animateReset_done by trivial. reflexivity.
Qed.

Lemma run_callback_intro_pending timestamp now intersects updated cb rest s :
  intro_pending (cb :: rest) s ->
  intro_pending rest (run_callback timestamp now intersects updated s cb).
Proof.
  unfold intro_pending. rewrite intro_calls_cons.
  destruct cb as [ | t | t | ]; cbn [run_callback is_intro_cb]; intros H.
  - destruct (initialAnimationComplete s) eqn:Hc; [lia | ].
    unfold initialCameraAnimation. destruct (Rlt_dec _ 1); project.
    + rewrite Hc, intro_calls_app. unfold intro_calls in *. simpl in *. lia.
    + lia.
  - rewrite animateCamera_complete.
    destruct (Rlt_le_dec (now - zt_startTime t) 1200) as [Hlt | Hge].
    + rewrite animateCamera_running by trivial. project.
      rewrite intro_calls_app. unfold intro_calls in *. simpl in *. lia.
    + rewrite animateCamera_done, showContent_raf by trivial. project. lia.
  - rewrite animateReset_complete.
    destruct (Rlt_le_dec (now - rt_startTime t) 1500) as [Hlt | Hge].
    + rewrite animateReset_running by trivial. project.
      rewrite intro_calls_app. unfold intro_calls in *. simpl in *. lia.
    + rewrite animateReset_done by trivial. project. lia.
  - rewrite animate_complete.
    destruct (animate_frame now intersects updated s) as (_ & -> & _).
    rewrite intro_calls_app. unfold intro_calls in *. simpl in *. lia.
Qed.

Lemma run_callbacks_intro_pending timestamp now intersects updated todo s :
  intro_pending todo s ->
  intro_pending [] (run_callbacks timestamp now intersects updated todo s).
Proof.
  revert s. induction todo as [ | cb rest IH]; intros s H; simpl; trivial.
  apply IH, run_callback_intro_pending, H.
Qed.

Lemma reachable_intro_pending s : reachable s -> intro_pending [] s.
Proof.
  induction 1 as [startup now | s e Hr IH Hd].
  - unfold intro_pending, page_loaded. rewrite animate_complete.
    destruct (animate_frame now [] startup (script_state startup)) as (_ & -> & _).
    reflexivity.
  - unfold intro_pending in *. destruct e; simpl in *.
    + unfold paperLoaded. destruct (paperLabels !! length (papers s)); exact IH.
    + unfold onClick. destruct (isZooming s); trivial.
      destruct (parentModel_of (papers s) intersects) as [[parentModel o] | ];
        trivial.
      rewrite zoomToModel_starts. project.
      rewrite intro_calls_app. unfold intro_calls in *. simpl in *. lia.
    + rewrite closeOverlayClick_starts. project.
      rewrite intro_calls_app. unfold intro_calls in *. simpl in *. lia.
    + unfold animationFrame.
      apply (run_callbacks_intro_pending timestamp now intersects updated (raf s)).
      unfold intro_pending, intro_calls in *. simpl in *. lia.
Qed.

(** In Idle with the intro over, [animate] is all a frame runs. *)
Lemma idle_queue s :
  reachable s -> initialAnimationComplete s = true -> phase s = Idle ->
  raf s = [cb_animate].
Proof.
  intros Hr Hc Hp.
  pose proof (reachable_intro_pending s Hr) as Hi.
  pose proof (reachable_animate_once s Hr) as Ha.
  unfold intro_pending in Hi. unfold animate_once in Ha. rewrite Hc in Hi.
  assert (existsb is_zoom_cb (raf s) = false /\ existsb is_reset_cb (raf s) = false)
    as [Hz Hres].
  { unfold phase in Hp. destruct (existsb is_zoom_cb (raf s)); [discriminate | ].
    destruct (existsb is_reset_cb (raf s)); [discriminate | auto]. }
  simpl in Hi, Ha. clear Hr Hc Hp.
  destruct (raf s) as [ | cb q]; [discriminate Ha | ].
  rewrite intro_calls_cons in Hi. rewrite animate_calls_cons in Ha.
  simpl in Hz, Hres. apply orb_false_iff in Hz as [Hz Hzq].
  apply orb_false_iff in Hres as [Hres Hresq].
  destruct cb; try discriminate. simpl in *.
  destruct q as [ | cb q]; [reflexivity | ].
  rewrite intro_calls_cons in Hi. rewrite animate_calls_cons in Ha.
  simpl in Hzq, Hresq. apply orb_false_iff in Hzq as [Hz' _].
  apply orb_false_iff in Hresq as [Hres' _].
  destruct cb; simpl in *; try discriminate; lia.
Qed.

(** ** The idle orbit *)

(** C8.  In the Idle state, once the intro is over, a frame runs [animate]
    and nothing else: it moves the orbit angle by the constant
    [cameraOrbitSpeed * 0.005], which is 0.0001 and does not depend on the
    time, and puts the camera at
    (cos(angle) * 4, 0.8 + sin(t * 0.3) * 0.2, sin(angle) * 4 + 6) for the new
    angle and [t] the clock in seconds, looking at (0, 0.7, 6). *)
Theorem idle_orbit_step timestamp now intersects updated s :
  reachable s -> initialAnimationComplete s = true -> phase s = Idle ->
  let s' := animationFrame timestamp now intersects updated s in
  let angle := cameraOrbitAngle s' in
  let t := now * 0.001 in
  s' = animate now intersects updated (with_raf [] s) /\
  cameraOrbitAngle s - angle = cameraOrbitSpeed * 0.005 /\
  cameraOrbitSpeed * 0.005 = 0.0001 /\
  cam_position (camera s') = vec3 (cos angle * 4) (0.8 + sin (t * 0.3) * 0.2)
                                  (sin angle * 4 + 6) /\
  cam_orientation (camera s') = LookAt (vec3 0 0.7 6).
Proof.
  intros Hr Hc Hp.
  pose proof (reachable_single_flight s Hr) as Hsf.
  rewrite (animationFrame_queue _ _ _ _ _ _ (idle_queue s Hr Hc Hp)).
  cbn [run_callbacks fold_left run_callback].
  apply (idle_phase_iff s Hsf) in Hp.
  assert (selectedModel s = None) as Hsel.
  { destruct Hsf as (_ & _ & _ & Hs). destruct (selectedModel s) eqn:E; trivial.
    rewrite (proj2 Hs) in Hp; [discriminate | eauto]. }
  split; [reflexivity | ].
  unfold animate. cbv zeta.
  cbn [camera cameraOrbitAngle with_papers].
  match goal with |- context [hover ?i ?x] =>
    destruct (hover_frame i x) as (_ & _ & _ & -> & _ & _ & _ & ->) end.
  cbn [camera cameraOrbitAngle with_papers].
  unfold animate_camera. simpl. rewrite Hc, Hp, Hsel. simpl.
  unfold cameraOrbitSpeed, cameraOrbitRadius, cameraOrbitHeight, centerPoint.
  repeat split; lra.
Qed.

(** ** The session is one the page can go through *)

Lemma intro_step_papers cb start e q s :
  papers (requestAnimationFrame cb (intro_pose start e (with_raf q s))) = papers s.
Proof. reflexivity. Qed.

Lemma demo_first_frame_reachable : reachable demo_first_frame.
Proof. apply reachable_handle; [apply reachable_loaded | reflexivity]. Qed.

Lemma demo_paper_reachable : reachable demo_paper.
Proof.
  apply reachable_handle; [apply demo_first_frame_reachable | ].
  assert (papers demo_first_frame = []) as Hp
    by (rewrite demo_first_frame_eq; reflexivity).
  cbn [deliverable]. rewrite Hp. unfold numberOfPapers. simpl.
  split; [lia | reflexivity].
Qed.

Lemma demo_paper_hit : hits_exist (papers demo_paper) [(0%nat, [0%nat])] = true.
Proof. unfold demo_paper. rewrite demo_first_frame_eq. reflexivity. Qed.

Lemma demo_hovering_reachable : reachable demo_hovering.
Proof. apply reachable_handle; [apply demo_paper_reachable | exact demo_paper_hit]. Qed.

Lemma demo_hovering_hit : hits_exist (papers demo_hovering) [(0%nat, [0%nat])] = true.
Proof.
  rewrite demo_hovering_eq.
  apply animate_scene; rewrite intro_step_papers.
  - exact (reachable_scene_ok _ demo_paper_reachable).
  - exact demo_paper_hit.
  - exact demo_paper_hit.
Qed.

Lemma demo_zooming_reachable : reachable demo_zooming.
Proof. apply reachable_handle; [apply demo_hovering_reachable | exact demo_hovering_hit]. Qed.

Lemma demo_hovering_flags :
  intro_flags demo_hovering = (false, Some 16) /\
  isZooming demo_hovering = false /\
  raf demo_hovering = [cb_initialCameraAnimation; cb_animate].
Proof.
  rewrite demo_hovering_eq.
  rewrite animate_intro_flags.
  match goal with |- context [animate ?n ?i ?u ?x] =>
    destruct (animate_frame n i u x) as (-> & -> & _) end.
  unfold demo_paper. rewrite demo_first_frame_eq.
  repeat split.
Qed.

(** The click of the session lands on the first paper. *)
Lemma demo_click_lands :
  exists paper,
    papers demo_hovering !! 0%nat = Some paper /\
    demo_zooming =
    zoomToModel (0%nat, []) paper (vec3 0.6 0.4 0.1) 1010
      (with_selectedModel (Some (0%nat, [])) demo_hovering).
Proof.
  destruct (parentModel_of_paper (papers demo_hovering) 0 [0%nat] []
              (reachable_scene_ok _ demo_hovering_reachable) demo_hovering_hit)
    as (paper & Hp & Hpm).
  exists paper. split; trivial.
  unfold demo_zooming, demo_click. cbn [handle]. unfold onClick.
  destruct demo_hovering_flags as (_ & -> & _). rewrite Hpm. reflexivity.
Qed.

Lemma demo_zooming_facts :
  exists t,
    raf demo_zooming = [cb_initialCameraAnimation; cb_animate; cb_animateCamera t] /\
    zt_startTime t = 1010 /\ zt_model t = (0%nat, []) /\
    intro_flags demo_zooming = (false, Some 16) /\
    isZooming demo_zooming = true /\
    enabled (controls demo_zooming) = false.
Proof.
  destruct demo_click_lands as (paper & _ & Heq).
  destruct demo_hovering_flags as (Hflags & Hz & Hraf).
  exists (zoom_tween_of (0%nat, []) paper (vec3 0.6 0.4 0.1) 1010
            (with_selectedModel (Some (0%nat, [])) demo_hovering)).
  rewrite Heq, zoomToModel_starts. project. rewrite Hraf.
  split; [reflexivity | ]. split; [reflexivity | ]. split; [reflexivity | ].
  split; [ | split; reflexivity].
  unfold intro_flags in *. project. exact Hflags.
Qed.

Lemma demo_focused_eq :
  exists t,
    zt_startTime t = 1010 /\ zt_model t = (0%nat, []) /\
    demo_focused =
    animateCamera t 2300
      (animate 2300 [] demo_startup
         (initialCameraAnimation 2300 (with_raf [] demo_zooming))).
Proof.
  destruct demo_zooming_facts as (t & Hraf & Ht & Hm & _).
  exists t. split; [exact Ht | split; [exact Hm | ]].
  unfold demo_focused. cbn [handle].
  rewrite (animationFrame_queue _ _ _ _ _ _ Hraf). reflexivity.
Qed.

Lemma demo_focused_facts :
  initialAnimationComplete demo_focused = false /\
  enabled (controls demo_focused) = true.
Proof.
  destruct demo_focused_eq as (t & Ht & _ & ->).
  destruct demo_zooming_facts as (_ & _ & _ & _ & Hflags & _).
  unfold intro_flags in Hflags. injection Hflags as Hc Hs.
  split.
  - assert (intro_start 2300 (with_raf [] demo_zooming) = 16) as Hstart
      by (apply intro_start_started; [exact Hs | lra]).
    rewrite animateCamera_complete, animate_complete.
    rewrite initialCameraAnimation_running by (rewrite Hstart; lra).
    project. exact Hc.
  - rewrite animateCamera_done by lra.
    match goal with |- context [showContent ?m ?x] =>
      destruct (showContent_frame m x) as (_ & _ & _ & _ & -> & _) end.
    reflexivity.
Qed.

(** C3, on the session.  The intro has started at 16 and is not over; the
    first paper is loaded; the click at 1010 hits it.  [onClick] tests
    [isZooming] only, so the click sets [isZooming] and starts the focus-in
    tween while [initialAnimationComplete] is still false; and when that
    tween completes at 2300 it enables the controls, with the intro still
    running.  No state of the flag makes a difference to [onClick]. *)
Theorem click_during_intro_starts_tween :
  reachable demo_hovering /\ deliverable demo_click demo_hovering /\
  initialAnimationComplete demo_hovering = false /\
  phase demo_hovering = Idle /\
  demo_zooming = handle demo_click demo_hovering /\
  initialAnimationComplete demo_zooming = false /\
  isZooming demo_zooming = true /\
  phase demo_zooming = FocusTweenIn /\
  initialAnimationComplete demo_focused = false /\
  enabled (controls demo_focused) = true /\
  (forall intersects modelSize now b s,
     onClick intersects modelSize now (with_initialAnimationComplete b s) =
     with_initialAnimationComplete b (onClick intersects modelSize now s)).
Proof.
  destruct demo_hovering_flags as (Hflags & Hz & Hraf).
  destruct demo_zooming_facts as (t & Hraf' & _ & _ & Hflags' & Hz' & _).
  destruct demo_focused_facts as (Hc'' & He'').
  unfold intro_flags in Hflags, Hflags'.
  injection Hflags as Hc _. injection Hflags' as Hc' _.
  split; [apply demo_hovering_reachable | ].
  split; [exact demo_hovering_hit | ].
  split; [exact Hc | ].
  split; [unfold phase; rewrite Hraf, Hz; reflexivity | ].
  split; [reflexivity | ].
  split; [exact Hc' | ].
  split; [exact Hz' | ].
  split; [unfold phase; rewrite Hraf'; reflexivity | ].
  split; [exact Hc'' | ].
  split; [exact He'' | ].
  apply onClick_ignores_intro.
Qed.

(** ** The content lookup *)

Lemma lookup_content_undefined labelText :
  has_entry labelText = false -> Object_prototype !! labelText = None ->
  lookup_content labelText = JSUndefined.
Proof.
  unfold has_entry, lookup_content. intros He ->.
  apply bool_decide_eq_false in He.
  destruct (sectionContent !! labelText); [ | reflexivity].
  destruct He. eauto.
Qed.


(** ** The distance at the end of the focus-in tween *)

Lemma maxDimension_contact : maxDimension_of (vec3 0.6 0.4 0.1) = 0.6.
Proof.
  unfold maxDimension_of. simpl.
  rewrite (Rmax_left 0.6 0.4) by lra. apply Rmax_left. lra.
Qed.

(** C2 as stated fails.  The model is at (1, 0, 6) and its largest extent is
    0.6; the tween that the click at 0 builds is complete at 1200 and leaves
    the camera at (1, 0.2, 7.2), at distance sqrt(1.48) from the model, more
    than 1.216, and not at twice the largest extent, which is 1.2.  Were the
    largest extent 0.1, the camera would end more than 0.28 away, not 0.2. *)
Lemma focus_in_distance_counterexample :
  let s' := animateCamera contact_tween 1200 contact_scene in
  let small := zoom_tween_of (0%nat, []) contact_paper (vec3 0.1 0.1 0.05) 0
                 contact_scene in
  1200 <= 1200 - zt_startTime contact_tween /\
  2 * maxDimension_of (vec3 0.6 0.4 0.1) = 1.2 /\
  cam_position (camera s') = vec3 1 0.2 7.2 /\
  1.216 < distanceTo (cam_position (camera s')) (position contact_paper) /\
  distanceTo (cam_position (camera s')) (position contact_paper)
  <> 2 * maxDimension_of (vec3 0.6 0.4 0.1) /\
  2 * maxDimension_of (vec3 0.1 0.1 0.05) = 0.2 /\
  0.28 < distanceTo (cam_position (camera (animateCamera small 1200 contact_scene)))
                    (position contact_paper).
Proof.
  intros s' small. subst s' small.
  assert (1200 <= 1200 - 0) as Hdone by lra.
  destruct (animateCamera_done_pose contact_tween 1200 contact_scene Hdone)
    as (Hpos & _).
  destruct (animateCamera_done_pose
              (zoom_tween_of (0%nat, []) contact_paper (vec3 0.1 0.1 0.05) 0
                 contact_scene) 1200 contact_scene Hdone)
    as (Hsmall & _).
  assert (maxDimension_of (vec3 0.1 0.1 0.05) = 0.1) as Hmax.
  { unfold maxDimension_of. simpl.
    rewrite (Rmax_left 0.1 0.1) by lra. apply Rmax_left. lra. }
  rewrite Hpos, Hsmall. unfold contact_tween.
  cbn [zt_targetPosition zt_startTime zoom_tween_of].
  rewrite !distance_of_offset, maxDimension_contact, Hmax.
  assert (1.216 < sqrt (0.04 + 0.6 * 2 * (0.6 * 2))) as Hfar.
  { rewrite <- (sqrt_square 1.216) by lra. apply sqrt_lt_1_alt. lra. }
  split; [simpl; lra | ].
  split; [lra | ].
  split; [unfold add; simpl; f_equal; lra | ].
  split; [exact Hfar | ].
  split; [lra | ].
  split; [lra | ].
  rewrite <- (sqrt_square 0.28) by lra. apply sqrt_lt_1_alt. lra.
Qed.

(** ** The end of the intro, on the session without papers *)

Lemma demo_idle_eq :
  demo_idle =
  animate 8016 [] demo_startup
    (controls_enabled_set true
       (with_initialAnimationComplete true
          (intro_pose 16 1 (with_raf [] demo_first_frame)))).
Proof.
  assert (raf demo_first_frame = [cb_initialCameraAnimation; cb_animate]) as Hraf
    by (rewrite demo_first_frame_eq; reflexivity).
  assert (initialAnimationStartTime demo_first_frame = Some 16) as Hst
    by (rewrite demo_first_frame_eq; reflexivity).
  unfold demo_idle. cbn [handle].
  rewrite (animationFrame_queue _ _ _ _ _ _ Hraf).
  cbn [run_callbacks fold_left run_callback].
  assert (intro_start 8016 (with_raf [] demo_first_frame) = 16) as Hs
    by (apply intro_start_started; [exact Hst | lra]).
  rewrite initialCameraAnimation_done; rewrite Hs; [reflexivity | lra].
Qed.

Lemma demo_idle_reachable : reachable demo_idle.
Proof. apply reachable_handle; [apply demo_first_frame_reachable | reflexivity]. Qed.

Lemma demo_first_frame_isZooming : isZooming demo_first_frame = false.
Proof.
  rewrite demo_first_frame_eq.
  match goal with |- context [animate ?n ?i ?u ?x] =>
    destruct (animate_frame n i u x) as (-> & _) end.
  reflexivity.
Qed.

Lemma demo_idle_facts :
  initialAnimationComplete demo_idle = true /\ phase demo_idle = Idle.
Proof.
  rewrite demo_idle_eq. split.
  - rewrite animate_complete. reflexivity.
  - unfold phase.
    match goal with |- context [animate ?n ?i ?u ?x] =>
      destruct (animate_frame n i u x) as (-> & -> & _) end.
    project. rewrite demo_first_frame_isZooming. reflexivity.
Qed.

(** ** The label of a paper does not change *)

Lemma labelText_set_label_opacity v p :
  labelText_of_object (set_label_opacity v p) = labelText_of_object p.
Proof.
  unfold labelText_of_object, set_label_opacity. simpl.
  destruct (userData_label p) as [label | ]; reflexivity.
Qed.

Lemma labelText_frame_paper time intersects j p :
  labelText_of_object (frame_paper time intersects j p) = labelText_of_object p.
Proof.
  unfold frame_paper.
  assert (forall x, labelText_of_object (float_paper time x) = labelText_of_object x)
    as Hfloat by (intros x; unfold float_paper; destruct (userData_float x); reflexivity).
  rewrite Hfloat. unfold hide_label.
  destruct intersects as [ | [i path] rest]; [ | case_bool_decide];
    rewrite ?labelText_set_label_opacity; reflexivity.
Qed.

Lemma object_at_root l i : object_at l (i, []) = l !! i.
Proof. unfold object_at. simpl. destruct (l !! i); reflexivity. Qed.

Lemma animate_labelText now intersects updated s i :
  scene_ok (papers s) = true -> hits_exist (papers s) intersects = true ->
  labelText_of_model (papers (animate now intersects updated s)) (i, [])
  = labelText_of_model (papers s) (i, []).
Proof.
  intros Hok Hh. unfold labelText_of_model.
  rewrite !object_at_root, animate_papers by trivial.
  destruct (papers s !! i); simpl; [apply labelText_frame_paper | reflexivity].
Qed.

(** ** Frames that complete a tween while the intro runs *)

(** The frame in which the focus-in tween completes: the intro and [animate]
    run first, then [animateCamera] shows the panel of the model. *)
Lemma frame_completes_zoom s t i v timestamp now updated labelText :
  raf s = [cb_initialCameraAnimation; cb_animate; cb_animateCamera t] ->
  initialAnimationStartTime s = Some v -> v <> 0 -> timestamp - v < 8000 ->
  1200 <= now - zt_startTime t ->
  scene_ok (papers s) = true ->
  zt_model t = (i, []) ->
  labelText_of_model (papers s) (i, []) = Some labelText ->
  truthy (lookup_content labelText) = true ->
  contentOverlay (animationFrame timestamp now [] updated s) =
    mkOverlay display_block (Panel labelText (lookup_content labelText)) /\
  raf (animationFrame timestamp now [] updated s) =
    [cb_initialCameraAnimation; cb_animate] /\
  isZooming (animationFrame timestamp now [] updated s) = isZooming s /\
  initialAnimationStartTime (animationFrame timestamp now [] updated s) = Some v.
Proof.
  intros Hraf Hst Hv Hrun Hdone Hok Hm Hlabel Htruthy.
  rewrite (animationFrame_queue _ _ _ _ _ _ Hraf).
  cbn [run_callbacks fold_left run_callback].
  assert (intro_start timestamp (with_raf [] s) = v) as Hstart
    by (apply intro_start_started; [exact Hst | exact Hv]).
  rewrite initialCameraAnimation_running by (rewrite Hstart; exact Hrun).
  rewrite Hstart.
  set (started := requestAnimationFrame cb_initialCameraAnimation
                    (intro_pose v (1 - Rpower 2 (-10 * ((timestamp - v) / 8000)))
                       (with_raf [] s))).
  assert (labelText_of_model (papers (animate now [] updated started)) (i, [])
          = Some labelText) as Hl
    by (rewrite animate_labelText; [exact Hlabel | exact Hok | reflexivity]).
  destruct (animate_frame now [] updated started) as (Hz' & Hraf' & _).
  pose proof (f_equal snd (animate_intro_flags now [] updated started)) as Hst'.
  unfold intro_flags in Hst'. cbn [snd] in Hst'.
  rewrite animateCamera_done by exact Hdone. rewrite Hm.
  erewrite showContent_found; [ | exact Hl | exact Htruthy].
  project. rewrite Hraf', Hz', Hst'. repeat split.
Qed.

(** What the completing call of [animateReset] leaves. *)
Lemma animateReset_done_fields t now s :
  1500 <= now - rt_startTime t ->
  raf (animateReset t now s) = raf s /\
  isZooming (animateReset t now s) = false /\
  selectedModel (animateReset t now s) = None /\
  cam_position (camera (animateReset t now s)) = finalCameraPosition /\
  controls (animateReset t now s) = mkControls true 3 100 (vec3 0 0 6) /\
  display (contentOverlay (animateReset t now s)) = display_none.
Proof.
  intros Hdone. rewrite animateReset_done by exact Hdone.
  project. rewrite !lerpVectors_1. repeat split.
Qed.

(** The frame in which the reset tween completes. *)
Lemma frame_completes_reset s t v timestamp now updated :
  raf s = [cb_initialCameraAnimation; cb_animate; cb_animateReset t] ->
  initialAnimationStartTime s = Some v -> v <> 0 -> timestamp - v < 8000 ->
  animationFrame timestamp now [] updated s =
    animateReset t now
      (animate now [] updated
         (requestAnimationFrame cb_initialCameraAnimation
            (intro_pose v (1 - Rpower 2 (-10 * ((timestamp - v) / 8000)))
               (with_raf [] s)))).
Proof.
  intros Hraf Hst Hv Hrun.
  rewrite (animationFrame_queue _ _ _ _ _ _ Hraf).
  cbn [run_callbacks fold_left run_callback].
  assert (intro_start timestamp (with_raf [] s) = v) as Hstart
    by (apply intro_start_started; [exact Hst | exact Hv]).
  rewrite initialCameraAnimation_running by (rewrite Hstart; exact Hrun).
  rewrite Hstart. reflexivity.
Qed.

Lemma frame_completes_reset_state s t v timestamp now updated :
  raf s = [cb_initialCameraAnimation; cb_animate; cb_animateReset t] ->
  initialAnimationStartTime s = Some v -> v <> 0 -> timestamp - v < 8000 ->
  1500 <= now - rt_startTime t ->
  raf (animationFrame timestamp now [] updated s) =
    [cb_initialCameraAnimation; cb_animate] /\
  isZooming (animationFrame timestamp now [] updated s) = false /\
  cam_position (camera (animationFrame timestamp now [] updated s))
    = finalCameraPosition /\
  controls (animationFrame timestamp now [] updated s)
    = mkControls true 3 100 (vec3 0 0 6).
Proof.
  intros Hraf Hst Hv Hrun Hdone.
  rewrite (frame_completes_reset s t v timestamp now updated Hraf Hst Hv Hrun).
  match goal with |- context [animateReset t now ?x] =>
    destruct (animateReset_done_fields t now x Hdone)
      as (-> & -> & _ & -> & -> & _) end.
  match goal with |- context [animate ?n ?h ?u ?x] =>
    destruct (animate_frame n h u x) as (_ & -> & _) end.
  repeat split.
Qed.

Lemma closeOverlayClick_state intersects modelSize now s :
  raf (closeOverlayClick intersects modelSize now s) =
    raf s ++ [cb_animateReset (reset_tween_of now s)] /\
  isZooming (closeOverlayClick intersects modelSize now s) = true /\
  display (contentOverlay (closeOverlayClick intersects modelSize now s))
    = display_none /\
  initialAnimationStartTime (closeOverlayClick intersects modelSize now s)
    = initialAnimationStartTime s.
Proof. rewrite closeOverlayClick_starts. repeat split. Qed.

(** ** The session: focus, close, back to Idle *)

Lemma demo_paper_label :
  labelText_of_model (papers demo_paper) (0%nat, []) = Some "Éducation".
Proof. unfold demo_paper. rewrite demo_first_frame_eq. reflexivity. Qed.

Lemma demo_zooming_label :
  labelText_of_model (papers demo_zooming) (0%nat, []) = Some "Éducation".
Proof.
  unfold demo_zooming, demo_click. cbn [handle]. rewrite onClick_papers.
  rewrite demo_hovering_eq, animate_labelText; rewrite intro_step_papers.
  - exact demo_paper_label.
  - exact (reachable_scene_ok _ demo_paper_reachable).
  - exact demo_paper_hit.
Qed.

Lemma demo_focused_unfold :
  demo_focused = animationFrame 2300 2300 [] demo_startup demo_zooming.
Proof. reflexivity. Qed.

Lemma demo_focused_state :
  contentOverlay demo_focused =
    mkOverlay display_block (Panel "Éducation" (JSString text_Education)) /\
  raf demo_focused = [cb_initialCameraAnimation; cb_animate] /\
  isZooming demo_focused = true /\
  initialAnimationStartTime demo_focused = Some 16 /\
  phase demo_focused = Focused.
Proof.
  destruct demo_zooming_facts as (t & Hraf & Ht & Hm & Hflags & Hz & _).
  unfold intro_flags in Hflags. injection Hflags as _ Hs.
  assert (16 <> 0) as Hv by lra.
  assert (2300 - 16 < 8000) as Hrun by lra.
  assert (1200 <= 2300 - zt_startTime t) as Hdone by (rewrite Ht; lra).
  destruct (frame_completes_zoom demo_zooming t 0%nat 16 2300 2300 demo_startup
              "Éducation" Hraf Hs Hv Hrun Hdone
              (reachable_scene_ok _ demo_zooming_reachable) Hm
              demo_zooming_label eq_refl) as (Hov & Hraf' & Hz' & Hs').
  rewrite <- demo_focused_unfold in Hov, Hraf', Hz', Hs'.
  rewrite Hz in Hz'.
  split; [exact Hov | split; [exact Hraf' | split; [exact Hz' | split; [exact Hs' | ]]]].
  unfold phase. rewrite Hraf', Hz'. reflexivity.
Qed.

Lemma demo_focused_reachable : reachable demo_focused.
Proof. apply reachable_handle; [apply demo_zooming_reachable | reflexivity]. Qed.

Lemma demo_close_deliverable :
  deliverable (CloseOverlayClick [] (vec3 0 0 0) 3000) demo_focused.
Proof.
  destruct demo_focused_state as (Hov & _).
  cbn [deliverable]. unfold closeOverlay_clickable. rewrite Hov.
  split; reflexivity.
Qed.

Lemma demo_closing_reachable : reachable demo_closing.
Proof.
  apply reachable_handle; [apply demo_focused_reachable | apply demo_close_deliverable].
Qed.

Lemma demo_closing_unfold :
  demo_closing = closeOverlayClick [] (vec3 0 0 0) 3000 demo_focused.
Proof. reflexivity. Qed.

Lemma demo_closing_state :
  raf demo_closing =
    [cb_initialCameraAnimation; cb_animate;
     cb_animateReset (reset_tween_of 3000 demo_focused)] /\
  isZooming demo_closing = true /\
  display (contentOverlay demo_closing) = display_none /\
  initialAnimationStartTime demo_closing = Some 16 /\
  phase demo_closing = FocusTweenOut.
Proof.
  destruct demo_focused_state as (_ & Hraf & _ & Hs & _).
  destruct (closeOverlayClick_state [] (vec3 0 0 0) 3000 demo_focused)
    as (Hraf' & Hz' & Hd' & Hs').
  rewrite <- demo_closing_unfold in Hraf', Hz', Hd', Hs'.
  rewrite Hraf in Hraf'. rewrite Hs in Hs'.
  split; [exact Hraf' | split; [exact Hz' | split; [exact Hd' | split; [exact Hs' | ]]]].
  unfold phase. rewrite Hraf'. reflexivity.
Qed.

Lemma demo_restored_unfold :
  demo_restored = animationFrame 4600 4600 [] demo_startup demo_closing.
Proof. reflexivity. Qed.

Lemma demo_restored_state :
  raf demo_restored = [cb_initialCameraAnimation; cb_animate] /\
  isZooming demo_restored = false /\
  cam_position (camera demo_restored) = vec3 0 2 8 /\
  controls demo_restored = mkControls true 3 100 (vec3 0 0 6) /\
  phase demo_restored = Idle.
Proof.
  destruct demo_closing_state as (Hraf & _ & _ & Hs & _).
  assert (16 <> 0) as Hv by lra.
  assert (4600 - 16 < 8000) as Hrun by lra.
  assert (1500 <= 4600 - rt_startTime (reset_tween_of 3000 demo_focused)) as Hdone
    by (cbn [rt_startTime reset_tween_of]; lra).
  destruct (frame_completes_reset_state demo_closing _ 16 4600 4600 demo_startup
              Hraf Hs Hv Hrun Hdone) as (Hraf' & Hz' & Hc' & Hl').
  rewrite <- demo_restored_unfold in Hraf', Hz', Hc', Hl'.
  split; [exact Hraf' | split; [exact Hz' | split; [exact Hc' | split; [exact Hl' | ]]]].
  unfold phase. rewrite Hraf', Hz'. reflexivity.
Qed.

Lemma demo_restored_reachable : reachable demo_restored.
Proof. apply reachable_handle; [apply demo_closing_reachable | reflexivity]. Qed.

(** * More of the page *)

(** ** The tween callbacks a frame hands on *)

Lemma filter_sub {A} (f g : A -> bool) (l : list A) :
  (forall x, f x = true -> g x = true) ->
  List.filter f (List.filter g l) = List.filter f l.
Proof.
  intros H. induction l as [ | x l IH]; simpl; trivial.
  destruct (g x) eqn:Hg; simpl.
  - rewrite IH. reflexivity.
  - destruct (f x) eqn:Hf; trivial. rewrite (H x Hf) in Hg. discriminate.
Qed.

Lemma existsb_sub {A} (f g : A -> bool) (l : list A) :
  (forall x, f x = true -> g x = true) ->
  existsb f (List.filter g l) = existsb f l.
Proof.
  intros H. induction l as [ | x l IH]; simpl; trivial.
  destruct (g x) eqn:Hg; simpl.
  - rewrite IH. reflexivity.
  - destruct (f x) eqn:Hf; trivial. rewrite (H x Hf) in Hg. discriminate.
Qed.

Lemma zoom_is_tween cb : is_zoom_cb cb = true -> is_tween_cb cb = true.
Proof. unfold is_tween_cb. intros ->. reflexivity. Qed.

Lemma reset_is_tween cb : is_reset_cb cb = true -> is_tween_cb cb = true.
Proof. unfold is_tween_cb. intros ->. apply orb_true_r. Qed.

Lemma still_running_is_tween now cb : still_running now cb = true -> is_tween_cb cb = true.
Proof. destruct cb; simpl; trivial. Qed.

Lemma reset_done_is_tween now cb : reset_done now cb = true -> is_tween_cb cb = true.
Proof. destruct cb; simpl; trivial. Qed.

Section TweenFrame.

Variables (timestamp now : R) (intersects : list ObjectRef) (updated : Camera).

Lemma run_callbacks_cons cb rest s :
  run_callbacks timestamp now intersects updated (cb :: rest) s =
  run_callbacks timestamp now intersects updated rest
    (run_callback timestamp now intersects updated s cb).
Proof. reflexivity. Qed.

Lemma run_callbacks_app q1 q2 s :
  run_callbacks timestamp now intersects updated (q1 ++ q2) s =
  run_callbacks timestamp now intersects updated q2
    (run_callbacks timestamp now intersects updated q1 s).
Proof. unfold run_callbacks. apply fold_left_app. Qed.

Lemma run_callback_tween_list cb s :
  List.filter is_tween_cb (raf (run_callback timestamp now intersects updated s cb)) =
  List.filter is_tween_cb (raf s) ++ (if still_running now cb then [cb] else []).
Proof.
  destruct cb as [ | t | t | ]; cbn [run_callback still_running].
  - unfold initialCameraAnimation.
    destruct (Rlt_dec _ 1); project; rewrite ?List.filter_app; simpl;
      rewrite app_nil_r; reflexivity.
  - destruct (Rlt_dec (now - zt_startTime t) 1200) as [Hlt | Hge].
    + rewrite animateCamera_running by trivial. project.
      rewrite List.filter_app. reflexivity.
    + rewrite animateCamera_done, showContent_raf by lra. project.
      rewrite app_nil_r. reflexivity.
  - destruct (Rlt_dec (now - rt_startTime t) 1500) as [Hlt | Hge].
    + rewrite animateReset_running by trivial. project.
      rewrite List.filter_app. reflexivity.
    + rewrite animateReset_done by lra. project.
      rewrite app_nil_r. reflexivity.
  - destruct (animate_frame now intersects updated s) as (_ & -> & _).
    rewrite List.filter_app. simpl. reflexivity.
Qed.

Lemma run_callbacks_tween_list todo s :
  List.filter is_tween_cb (raf (run_callbacks timestamp now intersects updated todo s)) =
  List.filter is_tween_cb (raf s) ++ List.filter (still_running now) todo.
Proof.
  revert s. induction todo as [ | cb rest IH]; intros s.
  - simpl. rewrite app_nil_r. reflexivity.
  - rewrite run_callbacks_cons, IH, run_callback_tween_list, <- app_assoc.
    simpl. destruct (still_running now cb); reflexivity.
Qed.

Lemma run_callback_flag cb s :
  isZooming (run_callback timestamp now intersects updated s cb) =
  isZooming s && negb (reset_done now cb).
Proof.
  destruct cb as [ | t | t | ]; cbn [run_callback reset_done negb];
    rewrite ?andb_true_r.
  - apply initialCameraAnimation_frame.
  - destruct (Rlt_le_dec (now - zt_startTime t) 1200) as [Hlt | Hge].
    + rewrite animateCamera_running by trivial. reflexivity.
    + rewrite animateCamera_done by trivial.
      match goal with |- context [showContent ?m ?x] =>
        destruct (showContent_frame m x) as (-> & _) end.
      reflexivity.
  - destruct (Rlt_dec (now - rt_startTime t) 1500) as [Hlt | Hge].
    + rewrite animateReset_running by trivial. simpl. rewrite andb_true_r. reflexivity.
    + rewrite animateReset_done by lra. simpl. rewrite andb_false_r. reflexivity.
  - apply animate_frame.
Qed.

Lemma run_callbacks_flag todo s :
  isZooming (run_callbacks timestamp now intersects updated todo s) =
  isZooming s && negb (existsb (reset_done now) todo).
Proof.
  revert s. induction todo as [ | cb rest IH]; intros s.
  - simpl. rewrite andb_true_r. reflexivity.
  - rewrite run_callbacks_cons, IH, run_callback_flag.
    simpl. rewrite negb_orb, andb_assoc. reflexivity.
Qed.

End TweenFrame.

Lemma phase_tween_list s :
  phase s =
  if existsb is_zoom_cb (List.filter is_tween_cb (raf s)) then FocusTweenIn
  else if existsb is_reset_cb (List.filter is_tween_cb (raf s)) then FocusTweenOut
  else if isZooming s then Focused
  else Idle.
Proof.
  unfold phase.
  rewrite (existsb_sub is_zoom_cb is_tween_cb _ zoom_is_tween).
  rewrite (existsb_sub is_reset_cb is_tween_cb _ reset_is_tween).
  reflexivity.
Qed.

Lemma animationFrame_phase timestamp now intersects updated s :
  single_flight [] s ->
  event_edge (AnimationFrame timestamp now intersects updated) (phase s)
    (phase (animationFrame timestamp now intersects updated s)) = true.
Proof.
  intros (Hcount & Hflight & _).
  rewrite !phase_tween_list. unfold animationFrame.
  rewrite run_callbacks_tween_list, run_callbacks_flag.
  cbn [raf with_raf isZooming List.filter app].
  rewrite <- (filter_sub (still_running now) is_tween_cb (raf s)
                (still_running_is_tween now)).
  rewrite <- (existsb_sub (reset_done now) is_tween_cb (raf s)
                (reset_done_is_tween now)).
  unfold tweens_in in Hcount, Hflight. simpl in Hcount, Hflight.
  assert (forall cb, In cb (List.filter is_tween_cb (raf s)) -> is_tween_cb cb = true)
    as Htw by (intros cb Hin; apply List.filter_In in Hin; tauto).
  destruct (List.filter is_tween_cb (raf s)) as [ | cb [ | cb' l]];
    [ | | simpl in Hcount; lia].
  - simpl. rewrite andb_true_r. destruct (isZooming s); reflexivity.
  - destruct Hflight as [Hz _]; [simpl; lia | ]. rewrite Hz.
    specialize (Htw cb (or_introl eq_refl)).
    destruct cb as [ | t | t | ]; try discriminate; simpl.
    + destruct (Rlt_dec (now - zt_startTime t) 1200); reflexivity.
    + destruct (Rlt_dec (now - rt_startTime t) 1500); reflexivity.
Qed.

(** X1.  The edges of the machine.  In every state the page can reach, an
    event changes the phase only along Idle -> FocusTweenIn (a click on the
    window), FocusTweenIn -> Focused and FocusTweenOut -> Idle (a frame), and
    Focused -> FocusTweenOut (a click on the close button, which can only be
    clicked in Focused); a paper that finishes loading changes no phase. *)
Theorem phase_edges e s :
  reachable s -> deliverable e s ->
  event_edge e (phase s) (phase (handle e s)) = true.
Proof.
  intros Hr Hd. pose proof (reachable_single_flight s Hr) as Hsf.
  destruct e; cbn [handle].
  - assert (phase (paperLoaded fbx r1 r2 r3 r4 s) = phase s) as ->.
    { unfold paperLoaded. destruct (paperLabels !! length (papers s)); reflexivity. }
    simpl. destruct (phase s); reflexivity.
  - destruct (isZooming s) eqn:Hz.
    + rewrite onClick_ignored by exact Hz. simpl. destruct (phase s); reflexivity.
    + apply (idle_phase_iff s Hsf) in Hz. rewrite Hz.
      unfold onClick. apply (idle_phase_iff s Hsf) in Hz. rewrite Hz.
      destruct (parentModel_of (papers s) intersects) as [[parentModel o] | ].
      * rewrite phase_zoomToModel. reflexivity.
      * apply (idle_phase_iff s Hsf) in Hz. rewrite Hz. reflexivity.
  - destruct Hd as [Hc _].
    assert (display (contentOverlay s) = display_block) as Hb.
    { unfold closeOverlay_clickable in Hc.
      destruct (display (contentOverlay s)); [discriminate | reflexivity]. }
    destruct Hsf as (Hcount & Hflight & Hshown & _).
    assert (tweens_in (raf s) = 0%nat) as Hq.
    { destruct (tweens_in (raf s)) eqn:E; trivial.
      destruct Hflight as [_ Hf]; [simpl; lia | congruence]. }
    destruct (tweens_in_0_existsb _ Hq) as [Hzq Hrq].
    assert (phase s = Focused) as ->
      by (unfold phase; rewrite Hzq, Hrq, (Hshown Hb); reflexivity).
    rewrite closeOverlayClick_starts. unfold phase. project.
    rewrite !existsb_app, Hzq, Hrq. reflexivity.
  - apply animationFrame_phase, Hsf.
Qed.

(** ** A tween callback is the last request *)

Lemma tween_free_In q cb :
  tweens_in q = 0%nat -> In cb q -> is_tween_cb cb = false.
Proof.
  unfold tweens_in. intros Hq Hin.
  destruct (is_tween_cb cb) eqn:E; trivial.
  assert (In cb (List.filter is_tween_cb q)) as Hf by (apply List.filter_In; auto).
  destruct (List.filter is_tween_cb q); [destruct Hf | discriminate].
Qed.

Lemma tween_free_filter q : tweens_in q = 0%nat -> List.filter is_tween_cb q = [].
Proof. unfold tweens_in. destruct (List.filter is_tween_cb q); [trivial | discriminate]. Qed.

Section QuietFrame.

Variables (timestamp now : R) (intersects : list ObjectRef) (updated : Camera).

(** What a tween callback requests. *)
Lemma tween_raf cb s :
  is_tween_cb cb = true ->
  raf (run_callback timestamp now intersects updated s cb) =
  raf s ++ (if still_running now cb then [cb] else []).
Proof.
  destruct cb as [ | t | t | ]; try discriminate; intros _;
    cbn [run_callback still_running].
  - destruct (Rlt_dec (now - zt_startTime t) 1200) as [Hlt | Hge].
    + rewrite animateCamera_running by trivial. reflexivity.
    + rewrite animateCamera_done, showContent_raf by lra.
      project. rewrite app_nil_r. reflexivity.
  - destruct (Rlt_dec (now - rt_startTime t) 1500) as [Hlt | Hge].
    + rewrite animateReset_running by trivial. reflexivity.
    + rewrite animateReset_done by lra. project. rewrite app_nil_r. reflexivity.
Qed.

Lemma run_callbacks_tween_free q s :
  tweens_in q = 0%nat -> tweens_in (raf s) = 0%nat ->
  tweens_in (raf (run_callbacks timestamp now intersects updated q s)) = 0%nat.
Proof.
  intros Hq Hs. unfold tweens_in. rewrite run_callbacks_tween_list.
  rewrite (tween_free_filter _ Hs).
  rewrite <- (filter_sub (still_running now) is_tween_cb q (still_running_is_tween now)).
  rewrite (tween_free_filter _ Hq). reflexivity.
Qed.

(** The intro and [animate] leave the selection, the overlay, the console
    and the zoom limits alone. *)
Lemma run_callback_quiet cb s :
  is_tween_cb cb = false ->
  isZooming (run_callback timestamp now intersects updated s cb) = isZooming s /\
  selectedModel (run_callback timestamp now intersects updated s cb)
    = selectedModel s /\
  contentOverlay (run_callback timestamp now intersects updated s cb)
    = contentOverlay s /\
  console_errors (run_callback timestamp now intersects updated s cb)
    = console_errors s /\
  minDistance (controls (run_callback timestamp now intersects updated s cb))
    = minDistance (controls s) /\
  maxDistance (controls (run_callback timestamp now intersects updated s cb))
    = maxDistance (controls s) /\
  target (controls (run_callback timestamp now intersects updated s cb))
    = target (controls s).
Proof.
  destruct cb as [ | t | t | ]; try discriminate; intros _; cbn [run_callback].
  - unfold initialCameraAnimation. destruct (Rlt_dec _ 1); project; repeat split.
  - destruct (animate_frame now intersects updated s)
      as (-> & _ & -> & -> & -> & ->). repeat split.
Qed.

Lemma run_callbacks_quiet q : forall s,
  tweens_in q = 0%nat ->
  isZooming (run_callbacks timestamp now intersects updated q s) = isZooming s /\
  selectedModel (run_callbacks timestamp now intersects updated q s)
    = selectedModel s /\
  contentOverlay (run_callbacks timestamp now intersects updated q s)
    = contentOverlay s /\
  console_errors (run_callbacks timestamp now intersects updated q s)
    = console_errors s /\
  minDistance (controls (run_callbacks timestamp now intersects updated q s))
    = minDistance (controls s) /\
  maxDistance (controls (run_callbacks timestamp now intersects updated q s))
    = maxDistance (controls s) /\
  target (controls (run_callbacks timestamp now intersects updated q s))
    = target (controls s).
Proof.
  induction q as [ | cb rest IH]; intros s Hq; [repeat split | ].
  rewrite tweens_in_cons in Hq. rewrite run_callbacks_cons.
  destruct (is_tween_cb cb) eqn:Hcb; [discriminate | ].
  destruct (IH (run_callback timestamp now intersects updated s cb))
    as (-> & -> & -> & -> & -> & -> & ->); [exact Hq | ].
  apply run_callback_quiet, Hcb.
Qed.

End QuietFrame.

Lemma idle_tween_free s :
  single_flight [] s -> isZooming s = false -> tweens_in (raf s) = 0%nat.
Proof.
  intros (_ & Hflight & _) Hz. simpl in Hflight.
  destruct (tweens_in (raf s)); trivial.
  destruct Hflight as [Hf _]; [lia | congruence].
Qed.

Lemma shown_tween_free s :
  single_flight [] s -> display (contentOverlay s) = display_block ->
  tweens_in (raf s) = 0%nat.
Proof.
  intros (_ & Hflight & _) Hb. simpl in Hflight.
  destruct (tweens_in (raf s)); trivial.
  destruct Hflight as [_ Hf]; [lia | congruence].
Qed.

Lemma clickable_shown s :
  closeOverlay_clickable s = true -> display (contentOverlay s) = display_block.
Proof.
  unfold closeOverlay_clickable.
  destruct (display (contentOverlay s)); [discriminate | reflexivity].
Qed.

Lemma reachable_tween_last s : reachable s -> tween_last (raf s).
Proof.
  induction 1 as [startup now | s e Hr IH Hd].
  - exists [cb_initialCameraAnimation; cb_animate]. split; [reflexivity | ].
    left. apply page_loaded_raf.
  - pose proof (reachable_single_flight s Hr) as Hsf.
    destruct e; cbn [handle deliverable] in *.
    + unfold paperLoaded. destruct (paperLabels !! length (papers s)); exact IH.
    + unfold onClick. destruct (isZooming s) eqn:Hz; [exact IH | ].
      destruct (parentModel_of (papers s) intersects) as [[parentModel o] | ];
        [ | exact IH].
      rewrite zoomToModel_starts. project.
      exists (raf s). split; [apply idle_tween_free; trivial | ].
      right. eexists. split; [ | reflexivity]. reflexivity.
    + rewrite closeOverlayClick_starts. project.
      exists (raf s). split.
      * apply shown_tween_free; trivial. apply clickable_shown, Hd.
      * right. eexists. split; [ | reflexivity]. reflexivity.
    + destruct IH as (pre & Hpre & [Heq | (cb & Hcb & Heq)]);
        unfold animationFrame; rewrite Heq.
      * exists (raf (run_callbacks timestamp now intersects updated pre (with_raf [] s))).
        split; [ | left; reflexivity].
        apply run_callbacks_tween_free; [exact Hpre | reflexivity].
      * rewrite run_callbacks_app, run_callbacks_cons. cbn [run_callbacks fold_left].
        rewrite tween_raf by exact Hcb.
        exists (raf (run_callbacks timestamp now intersects updated pre (with_raf [] s))).
        split; [apply run_callbacks_tween_free; [exact Hpre | reflexivity] | ].
        destruct (still_running now cb).
        -- right. exists cb. split; [exact Hcb | reflexivity].
        -- left. apply app_nil_r.
Qed.

(** The frame of a state with a tween in flight: the other callbacks run
    first, the tween callback last. *)
Lemma frame_split s cb :
  reachable s -> In cb (raf s) -> is_tween_cb cb = true ->
  exists pre,
    tweens_in pre = 0%nat /\ raf s = pre ++ [cb] /\
    forall timestamp now intersects updated,
      animationFrame timestamp now intersects updated s =
      run_callback timestamp now intersects updated
        (run_callbacks timestamp now intersects updated pre (with_raf [] s)) cb.
Proof.
  intros Hr Hin Hcb.
  destruct (reachable_tween_last s Hr) as (pre & Hpre & [Heq | (cb' & Hcb' & Heq)]).
  - rewrite Heq in Hin. rewrite (tween_free_In pre cb Hpre Hin) in Hcb. discriminate.
  - assert (cb' = cb) as ->.
    { rewrite Heq in Hin. apply in_app_or in Hin as [Hin | [Hin | []]]; trivial.
      rewrite (tween_free_In pre cb Hpre Hin) in Hcb. discriminate. }
    exists pre. split; [exact Hpre | split; [exact Heq | ]].
    intros. unfold animationFrame. rewrite Heq, run_callbacks_app. reflexivity.
Qed.

Lemma tween_free_phase s :
  tweens_in (raf s) = 0%nat ->
  phase s = if isZooming s then Focused else Idle.
Proof.
  intros Hq. unfold phase. destruct (tweens_in_0_existsb _ Hq) as [-> ->]. reflexivity.
Qed.

Lemma reset_frame timestamp now intersects updated s t :
  reachable s -> In (cb_animateReset t) (raf s) -> 1500 <= now - rt_startTime t ->
  let s' := animationFrame timestamp now intersects updated s in
  phase s' = Idle /\
  enabled (controls s') = true /\
  minDistance (controls s') = 3 /\ maxDistance (controls s') = 100 /\
  isZooming s' = false /\ selectedModel s' = None /\
  display (contentOverlay s') = display_none.
Proof.
  intros Hr Hin Hdone s'. subst s'.
  destruct (frame_split s (cb_animateReset t) Hr Hin eq_refl) as (pre & Hpre & _ & ->).
  cbn [run_callback].
  match goal with |- context [animateReset t now ?x] =>
    destruct (animateReset_done_fields t now x Hdone)
      as (Hraf & Hz & Hsel & Hcam & Hctl & Hdisp) end.
  split.
  - rewrite tween_free_phase; [rewrite Hz; reflexivity | ].
    rewrite Hraf. apply run_callbacks_tween_free; [exact Hpre | reflexivity].
  - rewrite Hctl. cbn [enabled minDistance maxDistance]. auto 7.
Qed.

(** X3.  The frame that completes the reset.  From a state the page can
    reach with a reset tween in flight, the first frame whose clock reads
    1500 ms or more after the start of the tween ends in Idle: the controls
    are enabled with limits 3 and 100, the flag and the selection are
    cleared and the overlay is hidden, whatever else ran in that frame. *)
Theorem reset_frame_completes timestamp now intersects updated s t :
  reachable s -> In (cb_animateReset t) (raf s) -> 1500 <= now - rt_startTime t ->
  let s' := animationFrame timestamp now intersects updated s in
  phase s' = Idle /\
  enabled (controls s') = true /\
  minDistance (controls s') = 3 /\ maxDistance (controls s') = 100 /\
  isZooming s' = false /\ selectedModel s' = None /\
  display (contentOverlay s') = display_none.
Proof.
  exact (reset_frame timestamp now intersects updated s t).
Qed.

(** ** The papers keep their labels, the selection is a paper, the panel its text *)

(** The text [showContent] reads back from a label made by [createLabel]. *)
Lemma labelText_createLabel text p u cs :
  labelText_of_object (mkObject3D p (Some (createLabel text)) u cs) = Some text.
Proof.
  unfold labelText_of_object, labelText_of, createLabel. simpl.
  destruct (String.eqb text EmptyString) eqn:E; trivial.
Qed.

(** Every label of the page has a text in the table. *)
Lemma paperLabels_content i text :
  paperLabels !! i = Some text ->
  exists content,
    sectionContent !! text = Some content /\
    lookup_content text = JSString content /\
    truthy (JSString content) = true.
Proof.
  destruct i as [ | [ | [ | [ | [ | i]]]]]; simpl; intros [= <-];
    eexists; (split; [ | split]); reflexivity.
Qed.

Lemma papers_labelled_frame time intersects l l' :
  (forall j, l' !! j = option_map (frame_paper time intersects j) (l !! j)) ->
  papers_labelled l -> papers_labelled l'.
Proof.
  intros Hl H i paper' Hp. rewrite Hl in Hp.
  destruct (l !! i) as [paper | ] eqn:E; [ | discriminate].
  injection Hp as <-. rewrite labelText_frame_paper. eauto.
Qed.

Lemma frame_keeps_length {A} (f : nat -> A -> A) (l l' : list A) i :
  (forall j, l' !! j = option_map (f j) (l !! j)) ->
  (i < length l)%nat -> (i < length l')%nat.
Proof.
  intros Hl Hi. apply lookup_lt_is_Some_2 in Hi as [x Hx].
  eapply lookup_lt_Some. rewrite Hl, Hx. reflexivity.
Qed.

Lemma page_loaded_page_ok startup now : page_ok (page_loaded startup now).
Proof.
  unfold page_loaded.
  destruct (animate_frame now [] startup (script_state startup))
    as (Hz & Hraf & Hsel & Hov & _ & Hcon).
  assert (papers (animate now [] startup (script_state startup)) = []) as Hp
    by reflexivity.
  constructor.
  - rewrite Hp. intros i paper Hi. discriminate.
  - rewrite Hsel. discriminate.
  - rewrite Hraf. simpl. intros t [H | [H | []]]; discriminate.
  - unfold phase. rewrite Hraf, Hz. discriminate.
  - rewrite Hov. discriminate.
  - rewrite Hov. left. reflexivity.
  - rewrite Hcon. reflexivity.
Qed.

Lemma paperLoaded_page_ok fbx r1 r2 r3 r4 s :
  page_ok s -> page_ok (paperLoaded fbx r1 r2 r3 r4 s).
Proof.
  intros [Hl Hs Ht Hf Hp Hh Hc]. unfold paperLoaded.
  destruct (paperLabels !! length (papers s)) as [text | ] eqn:Htext;
    [ | constructor; assumption].
  constructor; try assumption; cbn [papers selectedModel with_papers].
  - intros i paper Hi. apply lookup_app_Some in Hi as [Hi | [Hge Hi]].
    + apply Hl, Hi.
    + destruct (i - length (papers s))%nat eqn:E; [ | discriminate].
      injection Hi as <-. exists text. split; [ | apply labelText_createLabel].
      replace i with (length (papers s)) by lia. exact Htext.
  - intros m Hm. destruct (Hs m Hm) as (i & -> & Hi). exists i. split; trivial.
    rewrite length_app. simpl. lia.
Qed.

Lemma onClick_page_ok intersects modelSize now s :
  single_flight [] s -> scene_ok (papers s) = true ->
  hits_exist (papers s) intersects = true ->
  page_ok s -> page_ok (onClick intersects modelSize now s).
Proof.
  intros Hsf Hok Hh Hpage. unfold onClick.
  destruct (isZooming s) eqn:Hz; trivial.
  destruct (parentModel_of (papers s) intersects) as [[parentModel o] | ] eqn:Hpm;
    trivial.
  destruct intersects as [ | [i path] rest]; [discriminate | ].
  destruct (parentModel_of_paper _ _ _ _ Hok Hh) as (paper & Hpaper & Hpm').
  rewrite Hpm' in Hpm. injection Hpm as <- <-.
  pose proof (idle_tween_free s Hsf Hz) as Hq.
  destruct Hpage as [Hl Hs Ht Hf Hp Hh' Hc].
  assert (display (contentOverlay s) = display_none) as Hnone.
  { destruct Hsf as (_ & _ & Hshown & _).
    destruct (display (contentOverlay s)); trivial.
    rewrite Hshown in Hz; [discriminate | reflexivity]. }
  rewrite zoomToModel_starts. constructor; project; try assumption.
  - intros m [= <-]. exists i. split; trivial. eapply lookup_lt_Some, Hpaper.
  - intros t Hin. apply in_app_or in Hin as [Hin | [Hin | []]].
    + discriminate (tween_free_In _ _ Hq Hin).
    + injection Hin as <-. reflexivity.
  - unfold phase. project. rewrite existsb_app. simpl. rewrite orb_true_r. discriminate.
  - rewrite Hnone. discriminate.
Qed.

Lemma closeOverlayClick_page_ok intersects modelSize now s :
  single_flight [] s -> closeOverlay_clickable s = true ->
  page_ok s -> page_ok (closeOverlayClick intersects modelSize now s).
Proof.
  intros Hsf Hclick [Hl Hs Ht Hf Hp Hh Hc].
  pose proof (shown_tween_free s Hsf (clickable_shown s Hclick)) as Hq.
  destruct (tweens_in_0_existsb _ Hq) as [Hzq Hrq].
  rewrite closeOverlayClick_starts. constructor; project; try assumption.
  - intros t Hin. apply in_app_or in Hin as [Hin | [Hin | []]]; [auto | discriminate].
  - unfold phase. project. rewrite !existsb_app, Hzq. simpl. rewrite orb_true_r.
    discriminate.
  - discriminate.
Qed.

Lemma animationFrame_page_ok timestamp now intersects updated s :
  reachable s -> hits_exist (papers s) intersects = true ->
  page_ok s -> page_ok (animationFrame timestamp now intersects updated s).
Proof.
  intros Hr Hh [Hl Hs Ht Hf Hp Hhtml Hc].
  pose proof (reachable_single_flight s Hr) as Hsf.
  destruct (animationFrame_hover timestamp now intersects updated s Hr Hh)
    as (Hpap & _).
  pose proof (papers_labelled_frame _ _ _ _ Hpap Hl) as Hl'.
  assert (forall i, (i < length (papers s))%nat ->
            (i < length (papers (animationFrame timestamp now intersects updated s)))%nat)
    as Hlen by (intros i; apply (frame_keeps_length _ _ _ _ Hpap)).
  assert (forall m, selectedModel s = Some m ->
            exists i, m = (i, []) /\
              (i < length (papers (animationFrame timestamp now intersects updated s)))%nat)
    as Hs' by (intros m Hm; destruct (Hs m Hm) as (i & -> & Hi); eauto).
  destruct (reachable_tween_last s Hr) as (pre & Hpre & [Heq | (cb & Hcb & Heq)]).
  - (* no tween in flight *)
    rewrite <- Heq in Hpre.
    destruct (run_callbacks_quiet timestamp now intersects updated (raf s)
                (with_raf [] s) Hpre) as (Hz1 & Hsel1 & Hov1 & Hcon1 & _).
    pose proof (run_callbacks_tween_free timestamp now intersects updated (raf s)
                  (with_raf [] s) Hpre eq_refl) as Hq1.
    fold (animationFrame timestamp now intersects updated s) in Hz1, Hsel1, Hov1, Hcon1, Hq1.
    cbn [isZooming selectedModel contentOverlay console_errors with_raf]
      in Hz1, Hsel1, Hov1, Hcon1.
    constructor; rewrite ?Hsel1, ?Hov1, ?Hcon1; try assumption.
    + intros t Hin. discriminate (tween_free_In _ _ Hq1 Hin).
    + intros Hph. apply Hf. rewrite tween_free_phase in * by assumption.
      rewrite <- Hz1. exact Hph.
  - (* a tween in flight: its callback runs last *)
    assert (animationFrame timestamp now intersects updated s =
            run_callback timestamp now intersects updated
              (run_callbacks timestamp now intersects updated pre (with_raf [] s)) cb)
      as Hframe
      by (unfold animationFrame; rewrite Heq, run_callbacks_app; reflexivity).
    destruct (run_callbacks_quiet timestamp now intersects updated pre
                (with_raf [] s) Hpre) as (Hz1 & Hsel1 & Hov1 & Hcon1 & _).
    pose proof (run_callbacks_tween_free timestamp now intersects updated pre
                  (with_raf [] s) Hpre eq_refl) as Hq1.
    cbn [isZooming selectedModel contentOverlay console_errors with_raf]
      in Hz1, Hsel1, Hov1, Hcon1.
    destruct (tweens_in_0_existsb _ Hq1) as [Hzq1 Hrq1].
    assert (isZooming s = true /\ display (contentOverlay s) = display_none)
      as [Hz Hnone].
    { destruct Hsf as (_ & Hflight & _). apply Hflight. simpl.
      rewrite Heq, tweens_in_app, tweens_in_single, Hcb. lia. }
    rewrite Hframe in Hpap, Hlen, Hs', Hl' |- *.
    set (s1 := run_callbacks timestamp now intersects updated pre (with_raf [] s)) in *.
    destruct cb as [ | t | t | ]; try discriminate; cbn [run_callback] in *.
    + (* the focus-in tween *)
      assert (selectedModel s = Some (zt_model t)) as Hsel
        by (apply Ht; rewrite Heq; apply in_or_app; right; left; reflexivity).
      rewrite animateCamera_papers in Hpap, Hlen, Hs', Hl'.
      destruct (Rlt_le_dec (now - zt_startTime t) 1200) as [Hlt | Hge].
      * rewrite animateCamera_running by trivial.
        constructor; project; rewrite ?Hsel1, ?Hov1, ?Hcon1; try assumption.
        -- intros t' Hin. apply in_app_or in Hin as [Hin | [Hin | []]].
           ++ discriminate (tween_free_In _ _ Hq1 Hin).
           ++ injection Hin as <-. exact Hsel.
        -- unfold phase. project. rewrite existsb_app. simpl. rewrite orb_true_r.
           discriminate.
      * destruct (Hs _ Hsel) as (i & Hm & Hi).
        apply lookup_lt_is_Some_2 in Hi as [paper Hpaper].
        destruct (Hl i paper Hpaper) as (text & Htext & Hlabel).
        destruct (paperLabels_content i text Htext) as (content & Hcontent & Hlook & Htruthy).
        assert (papers s1 !! i = Some (frame_paper (now * 0.001) intersects i paper))
          as Hpaper1.
        { rewrite Hpap, Hpaper. reflexivity. }
        rewrite animateCamera_done by trivial. rewrite Hm in *.
        erewrite showContent_found;
          [ | unfold labelText_of_model; rewrite object_at_root; project;
              rewrite Hpaper1, labelText_frame_paper; exact Hlabel
            | rewrite Hlook; exact Htruthy ].
        rewrite Hlook.
        constructor; project; rewrite ?Hsel1, ?Hcon1; try assumption.
        -- intros t' Hin. discriminate (tween_free_In _ _ Hq1 Hin).
        -- reflexivity.
        -- intros _. exists i, text, content. rewrite Hsel. auto.
        -- right. exists text, content. split; [ | auto].
           apply list_elem_of_In. eapply list_elem_of_lookup_2, Htext.
    + (* the reset tween *)
      rewrite animateReset_papers in Hpap, Hlen, Hs', Hl'.
      destruct (Rlt_le_dec (now - rt_startTime t) 1500) as [Hlt | Hge].
      * rewrite animateReset_running by trivial.
        constructor; project; rewrite ?Hsel1, ?Hov1, ?Hcon1; try assumption.
        -- intros t' Hin. apply in_app_or in Hin as [Hin | [Hin | []]].
           ++ discriminate (tween_free_In _ _ Hq1 Hin).
           ++ discriminate.
        -- unfold phase. project. rewrite !existsb_app, Hzq1. simpl.
           rewrite orb_true_r. discriminate.
      * rewrite animateReset_done by trivial.
        constructor; project; rewrite ?Hsel1, ?Hov1, ?Hcon1; try assumption.
        -- discriminate.
        -- intros t' Hin. discriminate (tween_free_In _ _ Hq1 Hin).
        -- unfold phase. project. rewrite Hzq1, Hrq1. discriminate.
        -- discriminate.
Qed.

Lemma reachable_page_ok s : reachable s -> page_ok s.
Proof.
  induction 1 as [startup now | s e Hr IH Hd].
  - apply page_loaded_page_ok.
  - pose proof (reachable_single_flight s Hr) as Hsf.
    pose proof (reachable_scene_ok s Hr) as Hok.
    destruct e; cbn [handle deliverable] in *.
    + apply paperLoaded_page_ok, IH.
    + apply onClick_page_ok; assumption.
    + apply closeOverlayClick_page_ok; tauto.
    + apply animationFrame_page_ok; assumption.
Qed.

Lemma focused_iff_shown s :
  reachable s ->
  (display (contentOverlay s) = display_block <-> phase s = Focused) /\
  (phase s = Focused -> closeOverlay_clickable s = true).
Proof.
  intros Hr. pose proof (reachable_single_flight s Hr) as Hsf.
  destruct (reachable_page_ok s Hr) as [_ _ _ Hf Hp _ _].
  split; [split | ].
  - intros Hb. rewrite tween_free_phase by (apply shown_tween_free; trivial).
    destruct Hsf as (_ & _ & Hshown & _). rewrite (Hshown Hb). reflexivity.
  - exact Hf.
  - intros Hph. unfold closeOverlay_clickable.
    destruct (Hp (Hf Hph)) as (i & text & content & _ & _ & _ & ->).
    rewrite (Hf Hph). reflexivity.
Qed.

(** X4.  The overlay is displayed exactly in Focused.  In every state the
    page can reach, the content overlay is displayed if and only if the
    machine is in Focused, and then it holds the panel with the close
    button, which can be clicked: Focused always has its way out. *)
Theorem overlay_shown_iff_focused s :
  reachable s ->
  (display (contentOverlay s) = display_block <-> phase s = Focused) /\
  (phase s = Focused -> closeOverlay_clickable s = true).
Proof.
  exact (focused_iff_shown s).
Qed.

(** X5.  The selection is a loaded paper.  In every state the page can
    reach, [selectedModel], when it is not null, is one of the papers in
    [papers] (the paper itself, never one of its meshes), and it is null
    exactly in Idle. *)
Theorem selection_is_loaded_paper s :
  reachable s ->
  (forall m, selectedModel s = Some m ->
     exists i paper, m = (i, []) /\ papers s !! i = Some paper /\
       object_at (papers s) m = Some paper) /\
  (selectedModel s = None <-> phase s = Idle).
Proof.
  intros Hr. pose proof (reachable_single_flight s Hr) as Hsf.
  destruct (reachable_page_ok s Hr) as [_ Hs _ _ _ _ _].
  split.
  - intros m Hm. destruct (Hs m Hm) as (i & -> & Hi).
    apply lookup_lt_is_Some_2 in Hi as [paper Hpaper].
    exists i, paper. rewrite object_at_root. auto.
  - rewrite (idle_phase_iff s Hsf). destruct Hsf as (_ & _ & _ & Hsel).
    split.
    + intros Hnone. destruct (isZooming s); trivial.
      destruct (proj1 Hsel eq_refl) as [m Hm]. congruence.
    + intros Hz. destruct (selectedModel s) eqn:E; trivial.
      rewrite (proj2 Hsel) in Hz; [discriminate | eauto].
Qed.

(** X6.  The content lookup of the page never misses.  In every state the
    page can reach nothing was logged to the console by [showContent], and
    a panel in the overlay shows one of the five labels of [paperLabels]
    with the text the table has for it; the entry [Contact] of the table is
    never shown. *)
Theorem content_lookup_never_misses s :
  reachable s ->
  console_errors s = [] /\
  (forall labelText content,
     innerHTML (contentOverlay s) = Panel labelText content ->
     In labelText paperLabels /\
     exists text, sectionContent !! labelText = Some text /\ content = JSString text) /\
  (forall content, innerHTML (contentOverlay s) <> Panel "Contact" content).
Proof.
  intros Hr. destruct (reachable_page_ok s Hr) as [_ _ _ _ _ Hh Hc].
  assert (forall labelText content,
            innerHTML (contentOverlay s) = Panel labelText content ->
            In labelText paperLabels /\
            exists text, sectionContent !! labelText = Some text /\
                         content = JSString text) as Hpanel.
  { intros labelText content Heq.
    destruct Hh as [Hh | (text & c & Hin & Hlook & Hh)]; rewrite Hh in Heq;
      [discriminate | ].
    injection Heq as <- <-. eauto. }
  split; [exact Hc | split; [exact Hpanel | ]].
  intros content Heq. destruct (Hpanel _ _ Heq) as [Hin _].
  simpl in Hin. intuition discriminate.
Qed.

(** X7.  The papers keep their labels.  In every state the page can reach
    there are at most five papers, and the paper of index [i] carries the
    label text [paperLabels[i]], which is what [showContent] reads back from
    the sprite [createLabel] made, and which is a key of the table; hovering
    and floating do not change it. *)
Theorem papers_keep_labels s :
  reachable s ->
  (length (papers s) <= 5)%nat /\
  forall i paper, papers s !! i = Some paper ->
    exists text,
      paperLabels !! i = Some text /\
      labelText_of_model (papers s) (i, []) = Some text /\
      has_entry text = true.
Proof.
  intros Hr. destruct (reachable_page_ok s Hr) as [Hl _ _ _ _ _ _].
  split.
  - destruct (le_lt_dec (length (papers s)) 5) as [Hle | Hgt]; trivial.
    apply lookup_lt_is_Some_2 in Hgt as [paper Hpaper].
    destruct (Hl _ _ Hpaper) as (text & Htext & _). discriminate.
  - intros i paper Hpaper. destruct (Hl _ _ Hpaper) as (text & Htext & Hlabel).
    exists text. split; [exact Htext | split].
    + unfold labelText_of_model. rewrite object_at_root, Hpaper. exact Hlabel.
    + destruct (paperLabels_content i text Htext) as (content & Hcontent & _).
      unfold has_entry. apply bool_decide_eq_true. eauto.
Qed.

Lemma focus_frame timestamp now intersects updated s t :
  reachable s -> hits_exist (papers s) intersects = true ->
  In (cb_animateCamera t) (raf s) -> 1200 <= now - zt_startTime t ->
  let s' := animationFrame timestamp now intersects updated s in
  phase s' = Focused /\
  enabled (controls s') = true /\
  minDistance (controls s') = zt_zoomDistance t * 0.5 /\
  maxDistance (controls s') = zt_zoomDistance t * 2 /\
  selectedModel s' = Some (zt_model t) /\
  exists i text content,
    zt_model t = (i, []) /\ paperLabels !! i = Some text /\
    sectionContent !! text = Some content /\
    contentOverlay s' = mkOverlay display_block (Panel text (JSString content)).
Proof.
  intros Hr Hh Hin Hdone s'.
  pose proof (animationFrame_page_ok timestamp now intersects updated s Hr Hh
                (reachable_page_ok s Hr)) as [_ _ _ Hf' Hp' _ _].
  fold s' in Hf', Hp'.
  destruct (reachable_page_ok s Hr) as [_ _ Ht _ _ _ _].
  pose proof (Ht t Hin) as Hsel.
  pose proof (reachable_single_flight s Hr) as Hsf.
  destruct (frame_split s (cb_animateCamera t) Hr Hin eq_refl)
    as (pre & Hpre & Heq & Hframe).
  assert (isZooming s = true) as Hz.
  { destruct Hsf as (_ & Hflight & _). apply Hflight. simpl.
    rewrite Heq, tweens_in_app, tweens_in_single. simpl. lia. }
  specialize (Hframe timestamp now intersects updated). fold s' in Hframe.
  cbn [run_callback] in Hframe.
  destruct (run_callbacks_quiet timestamp now intersects updated pre
              (with_raf [] s) Hpre) as (Hz1 & Hsel1 & _).
  pose proof (run_callbacks_tween_free timestamp now intersects updated pre
                (with_raf [] s) Hpre eq_refl) as Hq1.
  cbn [isZooming selectedModel with_raf] in Hz1, Hsel1.
  set (s1 := run_callbacks timestamp now intersects updated pre (with_raf [] s)) in *.
  assert (phase s' = Focused) as Hph.
  { rewrite tween_free_phase.
    - rewrite Hframe, animateCamera_done by exact Hdone.
      match goal with |- context [showContent ?m ?x] =>
        destruct (showContent_frame m x) as (-> & _) end.
      project. rewrite Hz1, Hz. reflexivity.
    - rewrite Hframe, animateCamera_done, showContent_raf by exact Hdone.
      exact Hq1. }
  assert (selectedModel s' = Some (zt_model t)) as Hsel'.
  { rewrite Hframe, animateCamera_done by exact Hdone.
    match goal with |- context [showContent ?m ?x] =>
      destruct (showContent_frame m x) as (_ & _ & -> & _) end.
    project. rewrite Hsel1. exact Hsel. }
  split; [exact Hph | ].
  assert (enabled (controls s') = true /\
          minDistance (controls s') = zt_zoomDistance t * 0.5 /\
          maxDistance (controls s') = zt_zoomDistance t * 2) as (He & Hmin & Hmax).
  { rewrite Hframe, animateCamera_done by exact Hdone.
    match goal with |- context [showContent ?m ?x] =>
      destruct (showContent_frame m x) as (_ & _ & _ & _ & -> & _) end.
    project. auto. }
  split; [exact He | ]. split; [exact Hmin | ]. split; [exact Hmax | ].
  split; [exact Hsel' | ].
  destruct (Hp' (Hf' Hph)) as (i & text & content & Hsel'' & Htext & Hcontent & Hhtml).
  exists i, text, content.
  split; [congruence | split; [exact Htext | split; [exact Hcontent | ]]].
  pose proof (Hf' Hph) as Hb.
  destruct (contentOverlay s') as [d h]. simpl in Hb, Hhtml. congruence.
Qed.

(** X2.  The frame that completes the focus-in.  From a state the page can
    reach with a focus-in tween in flight, the first frame whose clock reads
    1200 ms or more after the click ends in Focused: the controls are
    enabled with limits half and twice the zoom distance, the clicked paper
    is still the selection, and the overlay is displayed with the label of
    that paper and the text the table has for it. *)
Theorem focus_frame_completes timestamp now intersects updated s t :
  reachable s -> hits_exist (papers s) intersects = true ->
  In (cb_animateCamera t) (raf s) -> 1200 <= now - zt_startTime t ->
  let s' := animationFrame timestamp now intersects updated s in
  phase s' = Focused /\
  enabled (controls s') = true /\
  minDistance (controls s') = zt_zoomDistance t * 0.5 /\
  maxDistance (controls s') = zt_zoomDistance t * 2 /\
  selectedModel s' = Some (zt_model t) /\
  exists i text content,
    zt_model t = (i, []) /\ paperLabels !! i = Some text /\
    sectionContent !! text = Some content /\
    contentOverlay s' = mkOverlay display_block (Panel text (JSString content)).
Proof.
  exact (focus_frame timestamp now intersects updated s t).
Qed.

(** ** The guard of [resetView] *)

(** With its two readings of the clock equal, [resetView_at] is
    [resetView]. *)
Lemma resetView_at_same now s : resetView_at now now s = resetView now s.
Proof. reflexivity. Qed.

Lemma resetView_at_starts now now' s :
  now' - now < 1500 ->
  resetView_at now now' s =
  overlay_display_set display_none
    (requestAnimationFrame (cb_animateReset (reset_tween_of now s))
       (reset_pose (reset_tween_of now s) (1 - (1 - (now' - now) / 1500) ^ 3)
          (controls_enabled_set false (with_isZooming true s)))).
Proof.
  intros Hrun.
  unfold resetView_at, boolean_strict_eq_string. rewrite andb_false_r. cbv zeta.
  change (mkResetTween _ _ _) with (reset_tween_of now s).
  rewrite animateReset_running by exact Hrun.
  reflexivity.
Qed.

(** X8.  [resetView] never returns early.  Its guard compares a boolean
    with the string 'block' and so never holds: from every state, also one
    with [isZooming] clear and the overlay hidden, the call sets
    [isZooming], disables the controls, requests [animateReset] with the
    pose of the moment as start, and hides the overlay.  This holds
    whatever the clock reads at the first call of [animateReset], as long
    as that is less than 1500 ms after the reading that [startTime] got;
    the function with one reading is the case where the two are equal. *)
Theorem resetView_never_returns_early now now' s :
  now' - now < 1500 ->
  let s' := resetView_at now now' s in
  isZooming s' = true /\
  enabled (controls s') = false /\
  raf s' = raf s ++ [cb_animateReset
                       (mkResetTween (cam_position (camera s)) (target (controls s)) now)] /\
  display (contentOverlay s') = display_none /\
  phase s' <> Idle /\ phase s' <> Focused /\
  resetView now s = resetView_at now now s.
Proof.
  intros Hrun s'. subst s'. rewrite resetView_at_starts by exact Hrun. project.
  split; [reflexivity | ]. split; [reflexivity | ]. split; [reflexivity | ].
  split; [reflexivity | ].
  split; [ | split; [ | reflexivity]];
    unfold phase; project; rewrite !existsb_app; simpl; rewrite !orb_true_r;
    destruct (existsb is_zoom_cb (raf s)); discriminate.
Qed.

(** ** Easing *)

Lemma cube_le p q : 0 <= p -> p <= q -> p * p * p <= q * q * q.
Proof.
  intros Hp Hpq.
  assert (p * p <= q * q) by nra.
  assert (0 <= p * p) by nra.
  nra.
Qed.





Lemma easeInOutCubic_low p : p < 0.5 -> easeInOutCubic p = 4 * (p * p * p).
Proof.
  intros H. unfold easeInOutCubic. destruct (Rlt_dec p 0.5); [lra | contradiction].
Qed.

Lemma easeInOutCubic_high p :
  0.5 <= p -> easeInOutCubic p = 1 - 4 * ((1 - p) * (1 - p) * (1 - p)).
Proof.
  intros H. unfold easeInOutCubic. destruct (Rlt_dec p 0.5); [lra | simpl; lra].
Qed.

Lemma easeInOutCubic_range x : 0 <= x -> x <= 1 -> 0 <= easeInOutCubic x <= 1.
Proof.
  intros H0 H1. destruct (Rlt_le_dec x 0.5) as [Hx | Hx].
  - rewrite easeInOutCubic_low by exact Hx.
    pose proof (cube_le 0 x (Rle_refl 0) H0).
    pose proof (cube_le x 0.5 H0 (Rlt_le _ _ Hx)). lra.
  - rewrite easeInOutCubic_high by exact Hx.
    assert (0 <= 1 - x) as H2 by lra.
    pose proof (cube_le 0 (1 - x) (Rle_refl 0) H2).
    assert (1 - x <= 0.5) as H3 by lra.
    pose proof (cube_le (1 - x) 0.5 H2 H3). lra.
Qed.

(** X10.  The easing of the focus-in tween.  On [0, 1] the eased progress
    of [animateCamera] starts at 0, ends at 1, never decreases, stays within
    [0, 1], passes through one half at the middle where its two branches
    meet, and is symmetric about that point. *)
Theorem easeInOutCubic_shape p q :
  0 <= p -> p <= q -> q <= 1 ->
  0 <= easeInOutCubic p /\ easeInOutCubic p <= easeInOutCubic q /\
  easeInOutCubic q <= 1 /\
  easeInOutCubic 0 = 0 /\ easeInOutCubic 1 = 1 /\
  easeInOutCubic 0.5 = 0.5 /\ 4 * (0.5 * 0.5 * 0.5) = 0.5 /\
  easeInOutCubic (1 - p) = 1 - easeInOutCubic p.
Proof.
  intros Hp Hpq Hq.
  split; [apply easeInOutCubic_range; lra | ].
  split.
  { destruct (Rlt_le_dec p 0.5) as [Hp5 | Hp5], (Rlt_le_dec q 0.5) as [Hq5 | Hq5].
    - rewrite !easeInOutCubic_low by assumption.
      pose proof (cube_le p q Hp Hpq). lra.
    - rewrite easeInOutCubic_low, easeInOutCubic_high by assumption.
      pose proof (cube_le p 0.5 Hp (Rlt_le _ _ Hp5)).
      assert (0 <= 1 - q) as H2 by lra. assert (1 - q <= 0.5) as H3 by lra.
      pose proof (cube_le (1 - q) 0.5 H2 H3). lra.
    - lra.
    - rewrite !easeInOutCubic_high by assumption.
      assert (0 <= 1 - q) as H2 by lra. assert (1 - q <= 1 - p) as H3 by lra.
      pose proof (cube_le (1 - q) (1 - p) H2 H3). lra. }
  split; [apply easeInOutCubic_range; lra | ].
  split; [apply easeInOutCubic_0 | ]. split; [apply easeInOutCubic_1 | ].
  split; [rewrite easeInOutCubic_high; lra | ]. split; [lra | ].
  destruct (Rlt_le_dec p 0.5) as [Hp5 | Hp5].
  - rewrite (easeInOutCubic_low p) by exact Hp5.
    rewrite (easeInOutCubic_high (1 - p)) by lra. lra.
  - destruct (Req_dec_T p 0.5) as [-> | Hne].
    + replace (1 - 0.5) with 0.5 by lra. rewrite easeInOutCubic_high; lra.
    + rewrite (easeInOutCubic_high p) by exact Hp5.
      rewrite (easeInOutCubic_low (1 - p)) by lra. lra.
Qed.

Lemma progress_nonneg elapsed duration :
  0 < duration -> 0 <= elapsed -> 0 <= elapsed / duration.
Proof.
  intros Hd He. unfold Rdiv. apply Rmult_le_pos; [exact He | ].
  left. apply Rinv_0_lt_compat, Hd.
Qed.



(** ** The intro tween: its path and its duration *)

Lemma Rpower_2_range x : x <= 0 -> 0 < Rpower 2 x <= 1.
Proof.
  intros Hx. split; [apply exp_pos | ].
  rewrite <- (Rpower_O 2) by lra. apply Rle_Rpower; lra.
Qed.

Lemma intro_camera timestamp s :
  intro_start timestamp s <= timestamp ->
  exists e,
    0 <= e <= 1 /\
    (8000 <= timestamp - intro_start timestamp s -> e = 1) /\
    (timestamp - intro_start timestamp s < 8000 ->
     e = 1 - Rpower 2 (-10 * ((timestamp - intro_start timestamp s) / 8000))) /\
    cam_position (camera (initialCameraAnimation timestamp s)) =
      vec3 0 (100 * (1 - e) + 2 * e) (20 * (1 - e) + 8 * e) /\
    cam_orientation (camera (initialCameraAnimation timestamp s)) =
      RotationX (- PI / 2 * (1 - e) + 0 * e).
Proof.
  intros Hstart.
  destruct (Rlt_le_dec (timestamp - intro_start timestamp s) 8000) as [Hlt | Hge].
  - exists (1 - Rpower 2 (-10 * ((timestamp - intro_start timestamp s) / 8000))).
    rewrite initialCameraAnimation_running by exact Hlt. project.
    split; [ | split; [lra | split; [reflexivity | split; reflexivity]]].
    assert (0 <= (timestamp - intro_start timestamp s) / 8000)
      by (apply progress_nonneg; lra).
    destruct (Rpower_2_range (-10 * ((timestamp - intro_start timestamp s) / 8000)));
      lra.
  - exists 1. rewrite initialCameraAnimation_done by exact Hge. project.
    split; [lra | split; [reflexivity | split; [lra | split; reflexivity]]].
Qed.

(** X13.  The path of the intro.  Two calls of [initialCameraAnimation]
    that work with the same start time [v], the first at [ts1 >= v] and the
    second at [ts2 >= ts1]: the camera is on the line x = 0 with height
    between 2 and 100 and depth between 8 and 20, tilted between looking
    straight down and looking forward; it never rises or moves back from one
    call to the next; and a call 8000 ms or more after [v] puts it at
    (0, 2, 8) looking forward. *)
Theorem intro_descends ts1 ts2 s1 s2 v :
  intro_start ts1 s1 = v -> intro_start ts2 s2 = v -> v <= ts1 -> ts1 <= ts2 ->
  let c1 := camera (initialCameraAnimation ts1 s1) in
  let c2 := camera (initialCameraAnimation ts2 s2) in
  vx (cam_position c1) = 0 /\
  2 <= vy (cam_position c1) <= 100 /\ 8 <= vz (cam_position c1) <= 20 /\
  (exists a, cam_orientation c1 = RotationX a /\ - PI / 2 <= a <= 0) /\
  vy (cam_position c2) <= vy (cam_position c1) /\
  vz (cam_position c2) <= vz (cam_position c1) /\
  (8000 <= ts2 - v ->
   cam_position c2 = vec3 0 2 8 /\ cam_orientation c2 = RotationX 0).
Proof.
  intros H1 H2 Hv Hts c1 c2. subst c1 c2.
  destruct (intro_camera ts1 s1) as (e1 & He1 & Hdone1 & Hrun1 & -> & ->);
    [rewrite H1; exact Hv | ].
  destruct (intro_camera ts2 s2) as (e2 & He2 & Hdone2 & Hrun2 & -> & ->);
    [rewrite H2; lra | ].
  rewrite H1 in Hdone1, Hrun1. rewrite H2 in Hdone2, Hrun2. simpl.
  assert (e1 <= e2) as Hmono.
  { destruct (Rlt_le_dec (ts2 - v) 8000) as [Hlt2 | Hge2].
    - rewrite (Hrun1 ltac:(lra)), (Hrun2 Hlt2).
      assert (Rpower 2 (-10 * ((ts2 - v) / 8000)) <= Rpower 2 (-10 * ((ts1 - v) / 8000)));
        [ | lra].
      apply Rle_Rpower; [lra | ].
      assert ((ts1 - v) / 8000 <= (ts2 - v) / 8000); [ | lra].
      unfold Rdiv. apply Rmult_le_compat_r; [ | lra].
      left. apply Rinv_0_lt_compat. lra.
    - rewrite (Hdone2 Hge2). lra. }
  pose proof PI_RGT_0 as Hpi.
  split; [reflexivity | ]. split; [lra | ]. split; [lra | ].
  split; [eexists; split; [reflexivity | nra] | ].
  split; [lra | ]. split; [lra | ].
  intros Hge2. rewrite (Hdone2 Hge2). split; f_equal; lra.
Qed.

Section IntroFrame.

Variables (timestamp now : R) (intersects : list ObjectRef) (updated : Camera).

Lemma animateReset_intro_flags t s :
  intro_flags (animateReset t now s) = intro_flags s.
Proof.
  destruct (Rlt_le_dec (now - rt_startTime t) 1500) as [Hlt | Hge].
  - rewrite animateReset_running by trivial. reflexivity.
  - rewrite animateReset_done by trivial. reflexivity.
Qed.

Lemma run_callback_flags_other cb s :
  cb <> cb_initialCameraAnimation ->
  intro_flags (run_callback timestamp now intersects updated s cb) = intro_flags s.
Proof.
  destruct cb as [ | t | t | ]; [congruence | | | ]; intros _; cbn [run_callback].
  - apply animateCamera_intro_flags.
  - apply animateReset_intro_flags.
  - apply animate_intro_flags.
Qed.

(** The intro's callback, for a start time that has been stored. *)
Lemma intro_callback_flags s v b :
  intro_flags s = (b, Some v) -> v <> 0 ->
  intro_flags (initialCameraAnimation timestamp s) =
  (if Rlt_dec (timestamp - v) 8000 then b else true, Some v).
Proof.
  unfold intro_flags. intros [= Hb Hs] Hv.
  assert (intro_start timestamp s = v) as Hstart
    by (apply intro_start_started; assumption).
  destruct (Rlt_dec (timestamp - v) 8000) as [Hlt | Hge].
  - rewrite initialCameraAnimation_running by (rewrite Hstart; exact Hlt).
    project. rewrite Hstart, Hb. reflexivity.
  - rewrite initialCameraAnimation_done by (rewrite Hstart; lra).
    project. rewrite Hstart. reflexivity.
Qed.

Lemma run_callbacks_intro_flags todo : forall s v b,
  intro_flags s = (b, Some v) -> v <> 0 ->
  intro_flags (run_callbacks timestamp now intersects updated todo s) =
  (if Rlt_dec (timestamp - v) 8000 then b
   else b || existsb is_intro_cb todo, Some v).
Proof.
  induction todo as [ | cb rest IH]; intros s v b Hf Hv.
  - simpl. rewrite Hf, orb_false_r. destruct (Rlt_dec _ _); reflexivity.
  - rewrite run_callbacks_cons.
    destruct cb as [ | t | t | ].
    + cbn [run_callback]. erewrite IH;
        [ | apply intro_callback_flags; eassumption | exact Hv].
      simpl. destruct (Rlt_dec (timestamp - v) 8000); [reflexivity | ].
      rewrite orb_true_r. reflexivity.
    + erewrite IH; [reflexivity | | exact Hv].
      rewrite run_callback_flags_other by discriminate. exact Hf.
    + erewrite IH; [reflexivity | | exact Hv].
      rewrite run_callback_flags_other by discriminate. exact Hf.
    + erewrite IH; [reflexivity | | exact Hv].
      rewrite run_callback_flags_other by discriminate. exact Hf.
Qed.

End IntroFrame.

Lemma intro_calls_existsb q :
  (0 < intro_calls q)%nat -> existsb is_intro_cb q = true.
Proof.
  induction q as [ | cb q IH]; [simpl; unfold intro_calls; simpl; lia | ].
  rewrite intro_calls_cons. simpl. destruct (is_intro_cb cb); simpl; auto.
Qed.

(** X14.  The intro lasts 8000 ms from the first frame.  Once a start time
    other than 0 is stored, no event changes it; and from a state the page
    can reach in which the intro is not complete, a frame completes it
    exactly when its timestamp is 8000 ms or more after the stored start
    time.  A stored start time of 0 counts as none: the next call of the
    intro takes its own timestamp as start, as the first call does. *)
Theorem intro_lasts_8000 timestamp now intersects updated s v :
  reachable s -> initialAnimationComplete s = false ->
  initialAnimationStartTime s = Some v -> v <> 0 ->
  let s' := animationFrame timestamp now intersects updated s in
  initialAnimationStartTime s' = Some v /\
  (initialAnimationComplete s' = true <-> 8000 <= timestamp - v) /\
  (forall e, initialAnimationStartTime (handle e s) = Some v) /\
  (forall ts s0, initialAnimationStartTime s0 = None \/
                 initialAnimationStartTime s0 = Some 0 ->
     initialAnimationStartTime (initialCameraAnimation ts s0) = Some ts).
Proof.
  intros Hr Hc Hs Hv s'. subst s'.
  assert (forall ts n i u,
            intro_flags (animationFrame ts n i u s) =
            (if Rlt_dec (ts - v) 8000 then false else true, Some v)) as Hframe.
  { intros ts n i u. unfold animationFrame.
    rewrite (run_callbacks_intro_flags ts n i u (raf s) (with_raf [] s) v false);
      [ | unfold intro_flags; project; rewrite Hc, Hs; reflexivity | exact Hv].
    rewrite intro_calls_existsb; [reflexivity | ].
    pose proof (reachable_intro_pending s Hr) as Hi. unfold intro_pending in Hi.
    rewrite Hc in Hi. simpl in Hi. lia. }
  split; [exact (f_equal snd (Hframe timestamp now intersects updated)) | ].
  split.
  { pose proof (f_equal fst (Hframe timestamp now intersects updated)) as H.
    unfold intro_flags in H. cbn [fst] in H. rewrite H.
    destruct (Rlt_dec (timestamp - v) 8000); split; intros; try lra;
      try discriminate; reflexivity. }
  split.
  - intros e. destruct e; cbn [handle].
    + unfold paperLoaded. destruct (paperLabels !! length (papers s)); exact Hs.
    + unfold onClick. destruct (isZooming s); trivial.
      destruct (parentModel_of (papers s) intersects0) as [[parentModel o] | ];
        trivial.
      rewrite zoomToModel_starts. exact Hs.
    + rewrite closeOverlayClick_starts. exact Hs.
    + exact (f_equal snd (Hframe timestamp0 now0 intersects0 updated0)).
  - intros ts s0 H0.
    assert (intro_start ts s0 = ts) as Hstart.
    { unfold intro_start. destruct H0 as [-> | ->]; trivial.
      destruct (Req_dec_T 0 0); [reflexivity | contradiction]. }
    destruct (Rlt_le_dec (ts - intro_start ts s0) 8000) as [Hlt | Hge].
    + rewrite initialCameraAnimation_running by exact Hlt. project.
      rewrite Hstart. reflexivity.
    + rewrite initialCameraAnimation_done by exact Hge. project.
      rewrite Hstart. reflexivity.
Qed.

(** ** The idle orbit, frame after frame *)

(** What [animate] does to the camera in its orbit branch. *)
Lemma animate_orbit now intersects updated s :
  initialAnimationComplete s = true -> isZooming s = false ->
  selectedModel s = None ->
  cameraOrbitAngle (animate now intersects updated s)
    = cameraOrbitAngle s - cameraOrbitSpeed * 0.005 /\
  cam_position (camera (animate now intersects updated s)) =
    vec3 (cos (cameraOrbitAngle s - cameraOrbitSpeed * 0.005) * cameraOrbitRadius)
         (cameraOrbitHeight + sin (now * 0.001 * 0.3) * 0.2)
         (sin (cameraOrbitAngle s - cameraOrbitSpeed * 0.005) * cameraOrbitRadius + 6).
Proof.
  intros Hc Hz Hsel. unfold animate. cbv zeta.
  cbn [camera cameraOrbitAngle with_papers].
  match goal with |- context [hover ?i ?x] =>
    destruct (hover_frame i x) as (_ & _ & _ & -> & _ & _ & _ & ->) end.
  cbn [camera cameraOrbitAngle with_papers].
  unfold animate_camera. simpl. rewrite Hc, Hz, Hsel. simpl. split; reflexivity.
Qed.

Lemma idle_selection s :
  single_flight [] s -> isZooming s = false -> selectedModel s = None.
Proof.
  intros (_ & _ & _ & Hs) Hz. destruct (selectedModel s) eqn:E; trivial.
  rewrite (proj2 Hs) in Hz; [discriminate | eauto].
Qed.

(** A frame in Idle, once the intro is over. *)
Lemma idle_frame timestamp now intersects updated s :
  reachable s -> initialAnimationComplete s = true -> phase s = Idle ->
  let s' := animationFrame timestamp now intersects updated s in
  s' = animate now intersects updated (with_raf [] s) /\
  initialAnimationComplete s' = true /\ phase s' = Idle /\
  controls s' = controls s.
Proof.
  intros Hr Hc Hp s'. subst s'.
  rewrite (animationFrame_queue _ _ _ _ _ _ (idle_queue s Hr Hc Hp)).
  cbn [run_callbacks fold_left run_callback].
  split; [reflexivity | ]. split; [rewrite animate_complete; exact Hc | ].
  unfold phase.
  destruct (animate_frame now intersects updated (with_raf [] s))
    as (-> & -> & _ & _ & -> & _).
  apply (idle_phase_iff s (reachable_single_flight s Hr)) in Hp.
  simpl. rewrite Hp. split; reflexivity.
Qed.

(** X15.  The orbit turns by the frame, not by the clock.  From a state
    the page can reach in Idle with the intro over, any number of frames,
    whatever their timestamps, the clock and the pointer, leave the machine
    in Idle and lower [cameraOrbitAngle] by 0.0001 each: after [n] frames
    the angle is the one before less n times 0.0001. *)
Theorem idle_orbit_accumulates es : forall s,
  reachable s -> initialAnimationComplete s = true -> phase s = Idle ->
  all_deliverable es s -> forallb is_frame es = true ->
  reachable (run_events es s) /\
  phase (run_events es s) = Idle /\
  cameraOrbitAngle (run_events es s)
    = cameraOrbitAngle s - INR (length es) * 0.0001.
Proof.
  induction es as [ | e rest IH]; intros s Hr Hc Hp Hd Hf.
  - simpl. split; [exact Hr | split; [exact Hp | lra]].
  - destruct Hd as [Hd Hrest]. simpl in Hf. apply andb_true_iff in Hf as [He Hf].
    destruct e; try discriminate.
    destruct (idle_frame timestamp now intersects updated s Hr Hc Hp)
      as (Heq & Hc' & Hp' & _).
    assert (reachable (handle (AnimationFrame timestamp now intersects updated) s))
      as Hr' by (apply reachable_handle; assumption).
    destruct (IH _ Hr' Hc' Hp' Hrest Hf) as (Hr'' & Hp'' & Hangle).
    change (run_events (AnimationFrame timestamp now intersects updated :: rest) s)
      with (run_events rest (handle (AnimationFrame timestamp now intersects updated) s)).
    split; [exact Hr'' | split; [exact Hp'' | ]].
    rewrite Hangle. cbn [handle]. rewrite Heq.
    pose proof (reachable_single_flight s Hr) as Hsf.
    apply (idle_phase_iff s Hsf) in Hp.
    destruct (animate_orbit now intersects updated (with_raf [] s) Hc Hp
                (idle_selection s Hsf Hp)) as (-> & _).
    change (length (AnimationFrame timestamp now intersects updated :: rest))
      with (S (length rest)).
    rewrite S_INR. unfold cameraOrbitSpeed. simpl. lra.
Qed.

(** X16.  The idle orbit is a circle inside the zoom range.  After a frame
    in Idle with the intro over, the camera is at horizontal distance 4 from
    the vertical axis through (0, 0, 6), at a height between 0.6 and 1, and
    its distance to (0, 0, 6) lies within the limits [minDistance] and
    [maxDistance] of the controls, which are 3 and 100. *)
Theorem idle_orbit_circle timestamp now intersects updated s :
  reachable s -> initialAnimationComplete s = true -> phase s = Idle ->
  let s' := animationFrame timestamp now intersects updated s in
  let p := cam_position (camera s') in
  vx p * vx p + (vz p - 6) * (vz p - 6) = 16 /\
  0.6 <= vy p <= 1 /\
  minDistance (controls s') = 3 /\ maxDistance (controls s') = 100 /\
  minDistance (controls s') <= distanceTo p (vec3 0 0 6) <= maxDistance (controls s').
Proof.
  intros Hr Hc Hp s' p. subst p s'.
  destruct (idle_frame timestamp now intersects updated s Hr Hc Hp)
    as (Heq & _ & _ & ->).
  pose proof (reachable_single_flight s Hr) as Hsf.
  apply (idle_phase_iff s Hsf) in Hp.
  destruct (reachable_idle_limits s Hr Hp) as [-> ->].
  rewrite Heq.
  destruct (animate_orbit now intersects updated (with_raf [] s) Hc Hp
              (idle_selection s Hsf Hp)) as (_ & ->).
  unfold cameraOrbitRadius, cameraOrbitHeight, distanceTo, lengthSq, sub.
  cbn [vx vy vz].
  set (a := cameraOrbitAngle (with_raf [] s) - cameraOrbitSpeed * 0.005).
  set (y := 0.8 + sin (now * 0.001 * 0.3) * 0.2).
  pose proof (sin2_cos2 a) as Hsc. unfold Rsqr in Hsc.
  pose proof (SIN_bound (now * 0.001 * 0.3)) as [Hlo Hhi].
  assert (0.6 <= y <= 1) as Hy by (unfold y; lra).
  split; [nra | ]. split; [exact Hy | ]. split; [reflexivity | ].
  split; [reflexivity | ].
  replace ((cos a * 4 - 0) * (cos a * 4 - 0) + (y - 0) * (y - 0)
           + (sin a * 4 + 6 - 6) * (sin a * 4 + 6 - 6)) with (16 + y * y) by nra.
  split.
  - rewrite <- (sqrt_square 3) by lra. apply sqrt_le_1_alt. nra.
  - rewrite <- (sqrt_square 100) by lra. apply sqrt_le_1_alt. nra.
Qed.

(** ** The papers: on a circle, floating about their places *)

Lemma userData_float_frame_paper time intersects j p :
  userData_float (frame_paper time intersects j p) = userData_float p.
Proof.
  unfold frame_paper.
  assert (forall x, userData_float (float_paper time x) = userData_float x) as Hfloat
    by (intros x; unfold float_paper;
        destruct (userData_float x) eqn:E; exact E).
  rewrite Hfloat.
  destruct intersects as [ | [i path] rest]; [ | case_bool_decide]; reflexivity.
Qed.

Lemma reachable_papers_home s : reachable s -> papers_home (papers s).
Proof.
  induction 1 as [startup now | s e Hr IH Hd].
  - intros i paper Hi. discriminate.
  - destruct e; cbn [handle deliverable] in *.
    + unfold paperLoaded.
      destruct (paperLabels !! length (papers s)) as [text | ]; [ | exact IH].
      cbn [papers with_papers]. intros i paper Hi.
      apply lookup_app_Some in Hi as [Hi | [Hge Hi]]; [apply IH, Hi | ].
      destruct (i - length (papers s))%nat eqn:E; [ | discriminate].
      injection Hi as <-. eexists. split; [reflexivity | ].
      replace i with (length (papers s)) by lia. reflexivity.
    + rewrite onClick_papers. exact IH.
    + unfold closeOverlayClick. rewrite onClick_papers, resetView_starts. exact IH.
    + destruct (animationFrame_hover timestamp now intersects updated s Hr Hd)
        as (Hpap & _).
      intros i paper' Hi. rewrite Hpap in Hi.
      destruct (papers s !! i) as [paper | ] eqn:E; [ | discriminate].
      injection Hi as <-. rewrite userData_float_frame_paper. apply IH, E.
Qed.

(** X17.  The papers stand on a circle.  In every state the page can reach
    the paper of index [i] remembers as its initial position the one
    [loadPapers] computed for it, at angle 2 pi i / 5: at horizontal distance
    1.5 from the vertical axis through (0, 0, 6), which is the axis of the
    idle orbit, and at a height within 0.2 of the floor of the scene; no
    event changes it. *)
Theorem papers_on_circle s :
  reachable s ->
  forall i paper, papers s !! i = Some paper ->
    exists u, userData_float paper = Some u /\
      initialPosition u = paper_home i /\
      vx (paper_home i) * vx (paper_home i)
        + (vz (paper_home i) - 6) * (vz (paper_home i) - 6) = 2.25 /\
      -0.2 <= vy (paper_home i) <= 0.2.
Proof.
  intros Hr i paper Hi.
  destruct (reachable_papers_home s Hr i paper Hi) as (u & Hu & Hhome).
  exists u. split; [exact Hu | split; [exact Hhome | ]].
  unfold paper_home, radius. cbn [vx vy vz].
  set (a := INR i / INR numberOfPapers * PI * 2).
  pose proof (sin2_cos2 a) as Hsc. unfold Rsqr in Hsc.
  pose proof (SIN_bound (a * 2)) as [Hlo Hhi].
  split; [nra | lra].
Qed.

Lemma Rabs_sin_scaled x r : Rabs (sin x * r) <= Rabs r.
Proof.
  rewrite Rabs_mult. pose proof (SIN_bound x) as [Hlo Hhi].
  assert (Rabs (sin x) <= 1) by (apply Rabs_le; lra).
  pose proof (Rabs_pos r). pose proof (Rabs_pos (sin x)). nra.
Qed.

Lemma Rabs_cos_scaled x r : Rabs (cos x * r) <= Rabs r.
Proof.
  rewrite Rabs_mult. pose proof (COS_bound x) as [Hlo Hhi].
  assert (Rabs (cos x) <= 1) by (apply Rabs_le; lra).
  pose proof (Rabs_pos r). pose proof (Rabs_pos (cos x)). nra.
Qed.

(** X18.  The papers float about their places.  After every frame, each
    paper is within 0.7 times its float radius of its place on the circle
    along x and along y, and within 0.35 times its float radius along z,
    whatever the clock reads; with the float radius [createPaper] draws,
    below 0.3, that is less than 0.21 and 0.105. *)
Theorem papers_float_about_home timestamp now intersects updated s :
  reachable s -> hits_exist (papers s) intersects = true ->
  forall i paper,
    papers (animationFrame timestamp now intersects updated s) !! i = Some paper ->
    exists u, userData_float paper = Some u /\
      Rabs (vx (position paper) - vx (paper_home i)) <= 0.7 * Rabs (floatRadius u) /\
      Rabs (vy (position paper) - vy (paper_home i)) <= 0.7 * Rabs (floatRadius u) /\
      Rabs (vz (position paper) - vz (paper_home i)) <= 0.35 * Rabs (floatRadius u) /\
      (forall r4, 0 <= r4 < 1 -> floatRadius u = r4 * 0.2 + 0.1 ->
         0.7 * Rabs (floatRadius u) < 0.21).
Proof.
  intros Hr Hh i paper' Hi.
  destruct (animationFrame_hover timestamp now intersects updated s Hr Hh)
    as (Hpap & _).
  rewrite Hpap in Hi.
  destruct (papers s !! i) as [paper | ] eqn:E; [ | discriminate].
  injection Hi as <-.
  destruct (reachable_papers_home s Hr i paper E) as (u & Hu & Hhome).
  exists u. rewrite userData_float_frame_paper. split; [exact Hu | ].
  unfold frame_paper.
  match goal with |- context [float_paper ?t ?x] =>
    assert (userData_float x = Some u) as Hx
      by (destruct intersects as [ | [k path] rest]; [ | case_bool_decide]; exact Hu);
    set (shown := x) in * end.
  unfold float_paper. rewrite Hx. cbn [position set_position vx vy vz].
  rewrite Hhome.
  split; [ | split; [ | split]].
  - match goal with |- Rabs (?h + ?d - ?h) <= _ =>
      replace (h + d - h) with d by lra end.
    etransitivity; [apply Rabs_sin_scaled | ].
    rewrite Rabs_mult, (Rabs_right 0.7) by lra. lra.
  - match goal with |- Rabs (?h + ?d - ?h) <= _ =>
      replace (h + d - h) with d by lra end.
    etransitivity; [apply Rabs_sin_scaled | ].
    rewrite Rabs_mult, (Rabs_right 0.7) by lra. lra.
  - match goal with |- Rabs (?h + ?d - ?h) <= _ =>
      replace (h + d - h) with d by lra end.
    etransitivity; [apply Rabs_cos_scaled | ].
    rewrite !Rabs_mult, (Rabs_right 0.7), (Rabs_right 0.5) by lra. lra.
  - intros r4 Hr4 ->. rewrite Rabs_right by lra. lra.
Qed.

(** ** The pointer in device coordinates *)

(** X19.  The pointer in normalized device coordinates.  In a window of
    positive width and height, [onMouseMove] (and [onClick], which computes
    the same) maps the pointer into the square from -1 to 1 exactly when the
    pointer is inside the window; the top left corner goes to (-1, 1), the
    centre to (0, 0), the bottom right corner to (1, -1), the y axis is
    flipped, and the position in the window can be read back from the
    result. *)
Theorem pointer_in_device_square clientX clientY innerWidth innerHeight :
  0 < innerWidth -> 0 < innerHeight ->
  let m := onMouseMove clientX clientY innerWidth innerHeight in
  ((-1 <= v2x m <= 1 /\ -1 <= v2y m <= 1) <->
   (0 <= clientX <= innerWidth /\ 0 <= clientY <= innerHeight)) /\
  clientX = (v2x m + 1) / 2 * innerWidth /\
  clientY = (1 - v2y m) / 2 * innerHeight /\
  onMouseMove 0 0 innerWidth innerHeight = vec2 (-1) 1 /\
  onMouseMove (innerWidth / 2) (innerHeight / 2) innerWidth innerHeight = vec2 0 0 /\
  onMouseMove innerWidth innerHeight innerWidth innerHeight = vec2 1 (-1) /\
  (forall lower, clientY <= lower ->
     v2y (onMouseMove clientX lower innerWidth innerHeight) <= v2y m).
Proof.
  intros Hw Hh m. subst m. unfold onMouseMove. cbn [v2x v2y].
  assert (clientX / innerWidth * innerWidth = clientX) as Hx by (field; lra).
  assert (clientY / innerHeight * innerHeight = clientY) as Hy by (field; lra).
  set (a := clientX / innerWidth) in *. set (b := clientY / innerHeight) in *.
  split; [ | split; [ | split; [ | split; [ | split; [ | split]]]]].
  - split.
    + intros [[Hx1 Hx2] [Hy1 Hy2]].
      assert (0 <= a <= 1) as Ha by lra. assert (0 <= b <= 1) as Hb by lra.
      rewrite <- Hx, <- Hy. repeat split; nra.
    + intros [[Hx1 Hx2] [Hy1 Hy2]].
      assert (0 <= a <= 1) as Ha by (split; nra).
      assert (0 <= b <= 1) as Hb by (split; nra).
      lra.
  - rewrite <- Hx at 1. field.
  - rewrite <- Hy at 1. field.
  - f_equal; field; lra.
  - f_equal; field; lra.
  - f_equal; field; lra.
  - intros lower Hl.
    assert (b <= lower / innerHeight); [ | lra].
    unfold b, Rdiv. apply Rmult_le_compat_r; [ | exact Hl].
    left. apply Rinv_0_lt_compat, Hh.
Qed.

(** ** The star field and the nebula clouds *)

Lemma spherical_lengthSq r theta phi :
  lengthSq (vec3 (r * sin phi * cos theta) (r * sin phi * sin theta) (r * cos phi))
  = r * r.
Proof.
  unfold lengthSq. cbn [vx vy vz].
  pose proof (sin2_cos2 theta) as Ht. pose proof (sin2_cos2 phi) as Hp.
  unfold Rsqr in Ht, Hp.
  replace (r * sin phi * cos theta * (r * sin phi * cos theta)
           + r * sin phi * sin theta * (r * sin phi * sin theta)
           + r * cos phi * (r * cos phi))
    with (r * r * (sin phi * sin phi * (sin theta * sin theta + cos theta * cos theta)
                   + cos phi * cos phi)) by ring.
  rewrite Ht, Rmult_1_r, Hp. ring.
Qed.

Lemma createStar_color d :
  unit_interval (draw_brightness d) ->
  let c := point_color (createStar d) in
  0.7 <= red c <= 1 /\ 0.3 <= green c <= 1 /\ 0.3 <= blue c <= 1.
Proof.
  intros [Hb0 Hb1]. unfold createStar. cbv zeta. cbn [point_color].
  destruct (Rgt_dec _ 0.995); [simpl; lra | ].
  destruct (Rgt_dec _ 0.98); [simpl; lra | ].
  destruct (Rgt_dec _ 0.95); simpl; lra.
Qed.

Lemma nebula_particle baseColor centre scale d :
  0 < scale -> unit_interval (ndraw_radius d) -> unit_interval (ndraw_phi d) ->
  unit_interval (ndraw_size d) ->
  let p := createNebulaParticle baseColor centre scale d in
  lengthSq (sub (point_position p) centre) <= scale * scale /\
  vz centre - scale <= vz (point_position p) <= vz centre + scale /\
  point_color p = rgb (red baseColor * 0.1) (green baseColor * 0.1)
                      (blue baseColor * 0.1) /\
  5 <= point_size p < 15.
Proof.
  intros Hscale [Hr0 Hr1] [Hp0 Hp1] [Hs0 Hs1] p. subst p.
  unfold createNebulaParticle. cbv zeta. cbn [point_position point_color point_size].
  set (r := ndraw_radius d * scale).
  assert (0 <= r <= scale) as Hr by (unfold r; split; nra).
  split; [ | split; [ | split; [reflexivity | lra]]].
  - unfold sub. cbn [vx vy vz].
    match goal with |- lengthSq (vec3 (?cx + ?a - ?cx) (?cy + ?b - ?cy) (?cz + ?c - ?cz)) <= _ =>
      replace (cx + a - cx) with a by lra;
      replace (cy + b - cy) with b by lra;
      replace (cz + c - cz) with c by lra end.
    rewrite spherical_lengthSq. nra.
  - cbn [vz]. rewrite cos_acos by lra.
    set (c := ndraw_phi d * 2 - 1). assert (-1 <= c <= 1) as Hc by (unfold c; lra).
    split; nra.
Qed.

(** ** The planet and the moon, frame after frame *)

Lemma animate_bodies_shown now hits b v :
  moon_children b = moon_children_shown v ->
  animate_bodies now hits b =
  Some (mkBodies (earth_rotation_y b + 0.0002) (clouds_rotation_y b + 0.00025)
          (moonPivot_rotation_y b + 0.0003) (moon_rotation_y b + 0.0001)
          (sin (now * 0.001 * 0.1) * 5) (sin (now * 0.001 * 0.05) * 0.02)
          (now * 0.001)
          (moon_children_shown (if (0 <? hits)%nat then 0.8 else 0))).
Proof. intros H. unfold animate_bodies. rewrite H. reflexivity. Qed.

Lemma animate_bodies_frames_shown frames : forall b v,
  moon_children b = moon_children_shown v ->
  exists b' v',
    animate_bodies_frames frames b = Some b' /\
    moon_children b' = moon_children_shown v' /\
    earth_rotation_y b' = earth_rotation_y b + INR (length frames) * 0.0002 /\
    clouds_rotation_y b' = clouds_rotation_y b + INR (length frames) * 0.00025 /\
    moonPivot_rotation_y b' = moonPivot_rotation_y b + INR (length frames) * 0.0003 /\
    moon_rotation_y b' = moon_rotation_y b + INR (length frames) * 0.0001.
Proof.
  induction frames as [ | [now hits] rest IH]; intros b v Hb.
  - exists b, v. simpl. repeat split; trivial; lra.
  - cbn [animate_bodies_frames]. rewrite (animate_bodies_shown now hits b v Hb).
    match goal with |- context [animate_bodies_frames rest ?x] =>
      destruct (IH x (if (0 <? hits)%nat then 0.8 else 0) eq_refl)
        as (b' & v' & -> & Hc & He & Hcl & Hp & Hm) end.
    exists b', v'. cbn [earth_rotation_y clouds_rotation_y moonPivot_rotation_y
                        moon_rotation_y] in He, Hcl, Hp, Hm.
    change (length ((now, hits) :: rest)) with (S (length rest)). rewrite S_INR.
    repeat split; trivial; lra.
Qed.

(** X22.  The planet and the moon, frame after frame.  Started with the
    moon as the script builds it, any frames followed by one at clock [now]
    with [hits] hits of the ray on the moon never throw, and leave: the
    planet, its clouds, the pivot of the moon and the moon turned by 0.0002,
    0.00025, 0.0003 and 0.0001 for each frame, whatever the clock; the moon
    at a height within 5 and a tilt within 0.02 given by the clock of the
    last frame; the label of the moon at opacity 0.8 if the last ray hit the
    moon and 0 if not; and the rim light, the other child, as it was.  A
    list of children without a child named Moon is left alone. *)
Theorem bodies_frame_after_frame frames now hits b :
  moon_children b = moon_children_built ->
  exists b',
    animate_bodies_frames (frames ++ [(now, hits)]) b = Some b' /\
    earth_rotation_y b' = earth_rotation_y b + INR (S (length frames)) * 0.0002 /\
    clouds_rotation_y b' = clouds_rotation_y b + INR (S (length frames)) * 0.00025 /\
    moonPivot_rotation_y b' =
      moonPivot_rotation_y b + INR (S (length frames)) * 0.0003 /\
    moon_rotation_y b' = moon_rotation_y b + INR (S (length frames)) * 0.0001 /\
    moon_position_y b' = sin (now * 0.001 * 0.1) * 5 /\
    -5 <= moon_position_y b' <= 5 /\
    -0.02 <= moon_rotation_z b' <= 0.02 /\
    moonLabel_opacity b' = Some (if (0 <? hits)%nat then 0.8 else 0) /\
    moon_children b' !! 0%nat = Some (mkMoonChild "" None) /\
    (forall cs v, find_Moon cs = None -> set_Moon_opacity v cs = Some cs).
Proof.
  intros Hb.
  assert (forall l x b0, animate_bodies_frames (l ++ [x]) b0 =
            match animate_bodies_frames l b0 with
            | Some b1 => animate_bodies (fst x) (snd x) b1
            | None => None
            end) as Hsnoc.
  { induction l as [ | [n h] l IH]; intros [n' h'] b0; cbn [animate_bodies_frames app].
    - cbn [fst snd]. destruct (animate_bodies n' h' b0); reflexivity.
    - destruct (animate_bodies n h b0); [apply IH | reflexivity]. }
  destruct (animate_bodies_frames_shown frames b 0 Hb)
    as (b1 & v1 & Hrun & Hc & He & Hcl & Hp & Hm).
  rewrite Hsnoc, Hrun. cbn [fst snd].
  rewrite (animate_bodies_shown now hits b1 v1 Hc).
  eexists. split; [reflexivity | ].
  cbn [earth_rotation_y clouds_rotation_y moonPivot_rotation_y moon_rotation_y
       moon_position_y moon_rotation_z moon_children].
  rewrite S_INR.
  pose proof (SIN_bound (now * 0.001 * 0.1)). pose proof (SIN_bound (now * 0.001 * 0.05)).
  split; [lra | ]. split; [lra | ]. split; [lra | ]. split; [lra | ].
  split; [reflexivity | ]. split; [lra | ]. split; [lra | ].
  split; [reflexivity | ]. split; [reflexivity | ].
  intros cs v Hnone. unfold set_Moon_opacity. rewrite Hnone. reflexivity.
Qed.

(** ** A click on a paper *)

Lemma onClick_paper i path rest modelSize now s :
  reachable s -> isZooming s = false ->
  hits_exist (papers s) ((i, path) :: rest) = true ->
  exists paper,
    papers s !! i = Some paper /\
    onClick ((i, path) :: rest) modelSize now s =
    requestAnimationFrame
      (cb_animateCamera
         (zoom_tween_of (i, []) paper modelSize now
            (with_selectedModel (Some (i, [])) s)))
      (zoom_pose
         (zoom_tween_of (i, []) paper modelSize now
            (with_selectedModel (Some (i, [])) s)) 0
         (controls_enabled_set false
            (with_isZooming true (with_selectedModel (Some (i, [])) s)))).
Proof.
  intros Hr Hz Hh.
  destruct (parentModel_of_paper _ _ _ _ (reachable_scene_ok s Hr) Hh)
    as (paper & Hpaper & Hpm).
  exists paper. split; [exact Hpaper | ].
  unfold onClick. rewrite Hz, Hpm. apply zoomToModel_starts.
Qed.

(** With its two readings of the clock equal, [onClick_at] is [onClick]. *)
Lemma onClick_at_same intersects modelSize now s :
  onClick_at intersects modelSize now now s = onClick intersects modelSize now s.
Proof. reflexivity. Qed.

Lemma zoomToModel_at_starts model o modelSize now now' s :
  now' - now < 1200 ->
  zoomToModel_at model o modelSize now now' s =
  requestAnimationFrame (cb_animateCamera (zoom_tween_of model o modelSize now s))
    (zoom_pose (zoom_tween_of model o modelSize now s)
       (easeInOutCubic ((now' - now) / 1200))
       (controls_enabled_set false (with_isZooming true s))).
Proof.
  intros Hrun. unfold zoomToModel_at. cbv zeta.
  change (mkZoomTween _ _ _ _ _ _ _) with (zoom_tween_of model o modelSize now s).
  rewrite animateCamera_running by exact Hrun.
  reflexivity.
Qed.

(** X23.  A click selects the paper of the nearest hit.  In Idle, a click
    whose ray hits something below [papers] selects the paper the first
    (nearest) hit lies in, also when the hit is a mesh deep inside it, and
    starts the focus-in tween from the pose of the moment towards the
    position that paper has at the click, moved by (0, 0.2, twice the
    largest extent of its box).  The click turns the camera to look at the
    paper, disables the controls and leaves the papers and the overlay
    alone.  This holds whatever the clock reads at the first call of
    [animateCamera], as long as that is less than 1200 ms after the reading
    that [startTime] got; the handler with one reading is the case where
    the two are equal. *)
Theorem click_selects_nearest_paper i path rest modelSize now now' s :
  reachable s -> phase s = Idle ->
  hits_exist (papers s) ((i, path) :: rest) = true ->
  now' - now < 1200 ->
  let s' := onClick_at ((i, path) :: rest) modelSize now now' s in
  exists paper t,
    papers s !! i = Some paper /\
    selectedModel s' = Some (i, []) /\ isZooming s' = true /\
    raf s' = raf s ++ [cb_animateCamera t] /\
    zt_model t = (i, []) /\ zt_startTime t = now /\
    zt_modelPosition t = position paper /\
    zt_targetPosition t =
      add (position paper) (vec3 0 0.2 (maxDimension_of modelSize * 2)) /\
    zt_startPosition t = cam_position (camera s) /\
    zt_startTarget t = target (controls s) /\
    cam_orientation (camera s') = LookAt (position paper) /\
    enabled (controls s') = false /\
    papers s' = papers s /\ contentOverlay s' = contentOverlay s /\
    onClick ((i, path) :: rest) modelSize now s
    = onClick_at ((i, path) :: rest) modelSize now now s.
Proof.
  intros Hr Hp Hh Hrun s'. subst s'.
  apply (idle_phase_iff s (reachable_single_flight s Hr)) in Hp.
  destruct (parentModel_of_paper _ _ _ _ (reachable_scene_ok s Hr) Hh)
    as (paper & Hpaper & Hpm).
  exists paper. eexists. split; [exact Hpaper | ].
  unfold onClick_at. rewrite Hp, Hpm.
  rewrite zoomToModel_at_starts by exact Hrun. project.
  split; [reflexivity | ]. split; [reflexivity | ]. split; [reflexivity | ].
  split; [reflexivity | ]. split; [reflexivity | ]. split; [reflexivity | ].
  split; [reflexivity | ]. split; [reflexivity | ]. split; [reflexivity | ].
  split; [reflexivity | ]. split; [reflexivity | ]. split; [reflexivity | ].
  split; [reflexivity | ]. unfold onClick. rewrite Hp, Hpm. reflexivity.
Qed.

(** ** From Idle to Focused and back *)

(** X24.  A whole cycle.  From any state in Idle the page can reach: a
    click on a paper, a frame 1200 ms or more later, a click on the close
    button, which that frame has made available, and a frame 1500 ms or
    more after it, whatever else the pointer is over meanwhile, take the
    machine through FocusTweenIn, Focused and FocusTweenOut back to Idle.
    In Focused the overlay shows the label and the text of the clicked
    paper; back in Idle the controls are enabled with limits 3 and 100,
    nothing is selected and the overlay is hidden. *)
Theorem focus_cycle_returns i path rest size0 t0 ts1 now1 hits1 upd1
    hits2 size2 t2 ts3 now3 hits3 upd3 s :
  reachable s -> phase s = Idle ->
  hits_exist (papers s) ((i, path) :: rest) = true ->
  let s1 := handle (WindowClick ((i, path) :: rest) size0 t0) s in
  hits_exist (papers s1) hits1 = true -> 1200 <= now1 - t0 ->
  let s2 := handle (AnimationFrame ts1 now1 hits1 upd1) s1 in
  hits_exist (papers s2) hits2 = true ->
  let s3 := handle (CloseOverlayClick hits2 size2 t2) s2 in
  1500 <= now3 - t2 ->
  let s4 := handle (AnimationFrame ts3 now3 hits3 upd3) s3 in
  phase s1 = FocusTweenIn /\ phase s2 = Focused /\
  deliverable (CloseOverlayClick hits2 size2 t2) s2 /\
  phase s3 = FocusTweenOut /\ phase s4 = Idle /\
  selectedModel s2 = Some (i, []) /\
  (exists text content,
     paperLabels !! i = Some text /\ sectionContent !! text = Some content /\
     contentOverlay s2 = mkOverlay display_block (Panel text (JSString content))) /\
  enabled (controls s4) = true /\
  minDistance (controls s4) = 3 /\ maxDistance (controls s4) = 100 /\
  selectedModel s4 = None /\
  display (contentOverlay s4) = display_none.
Proof.
  intros Hr Hp Hh0 s1 Hh1 Hdone1 s2 Hh2 s3 Hdone3 s4.
  pose proof (reachable_single_flight s Hr) as Hsf.
  pose proof (proj1 (idle_phase_iff s Hsf) Hp) as Hz.
  (* the click *)
  assert (reachable s1) as Hr1 by (apply reachable_handle; [exact Hr | exact Hh0]).
  destruct (onClick_paper i path rest size0 t0 s Hr Hz Hh0) as (paper & Hpaper & Hs1).
  fold (handle (WindowClick ((i, path) :: rest) size0 t0) s) in Hs1. fold s1 in Hs1.
  set (t := zoom_tween_of (i, []) paper size0 t0
              (with_selectedModel (Some (i, [])) s)) in Hs1.
  assert (In (cb_animateCamera t) (raf s1)) as Hin1.
  { rewrite Hs1. project. apply in_or_app. right. left. reflexivity. }
  assert (phase s1 = FocusTweenIn) as Hp1.
  { rewrite Hs1. unfold phase. project. rewrite existsb_app. simpl.
    rewrite orb_true_r. reflexivity. }
  (* the frame that completes the focus-in *)
  destruct (focus_frame ts1 now1 hits1 upd1 s1 t Hr1 Hh1 Hin1 Hdone1)
    as (Hp2 & _ & _ & _ & Hsel2 & (i' & text & content & Hi' & Htext & Hcontent & Hov2)).
  fold (handle (AnimationFrame ts1 now1 hits1 upd1) s1) in Hp2, Hsel2, Hov2.
  fold s2 in Hp2, Hsel2, Hov2.
  cbn [zt_model t zoom_tween_of] in Hsel2, Hi'. injection Hi' as <-.
  assert (reachable s2) as Hr2 by (apply reachable_handle; [exact Hr1 | exact Hh1]).
  destruct (focused_iff_shown s2 Hr2) as [_ Hclick].
  assert (deliverable (CloseOverlayClick hits2 size2 t2) s2) as Hd2
    by (split; [apply Hclick, Hp2 | exact Hh2]).
  (* the click on the close button *)
  assert (reachable s3) as Hr3 by (apply reachable_handle; [exact Hr2 | exact Hd2]).
  destruct (closeOverlayClick_state hits2 size2 t2 s2) as (Hraf3 & _).
  fold (handle (CloseOverlayClick hits2 size2 t2) s2) in Hraf3. fold s3 in Hraf3.
  assert (In (cb_animateReset (reset_tween_of t2 s2)) (raf s3)) as Hin3.
  { rewrite Hraf3. apply in_or_app. right. left. reflexivity. }
  assert (phase s3 = FocusTweenOut) as Hp3.
  { pose proof (phase_tween_list s3) as H. rewrite Hraf3 in H.
    rewrite List.filter_app in H.
    rewrite tween_free_filter in H.
    - exact H.
    - apply shown_tween_free; [apply reachable_single_flight, Hr2 | ].
      apply clickable_shown, Hclick, Hp2. }
  (* the frame that completes the reset *)
  destruct (reset_frame ts3 now3 hits3 upd3 s3 (reset_tween_of t2 s2) Hr3 Hin3 Hdone3)
    as (Hp4 & Hen4 & Hmin4 & Hmax4 & _ & Hsel4 & Hdisp4).
  fold (handle (AnimationFrame ts3 now3 hits3 upd3) s3)
    in Hp4, Hen4, Hmin4, Hmax4, Hsel4, Hdisp4.
  fold s4 in Hp4, Hen4, Hmin4, Hmax4, Hsel4, Hdisp4.
  split; [exact Hp1 | ]. split; [exact Hp2 | ]. split; [exact Hd2 | ].
  split; [exact Hp3 | ]. split; [exact Hp4 | ]. split; [exact Hsel2 | ].
  split; [exists text, content; auto | ].
  split; [exact Hen4 | ]. split; [exact Hmin4 | ]. split; [exact Hmax4 | ].
  split; [exact Hsel4 | exact Hdisp4].
Qed.

(** ** The session, for the properties above *)

Lemma demo_hovering_idle : phase demo_hovering = Idle.
Proof.
  destruct demo_hovering_flags as (_ & Hz & Hraf).
  unfold phase. rewrite Hraf, Hz. reflexivity.
Qed.

Lemma demo_hovering_intro :
  initialAnimationComplete demo_hovering = false /\
  initialAnimationStartTime demo_hovering = Some 16.
Proof.
  destruct demo_hovering_flags as (Hf & _).
  unfold intro_flags in Hf. injection Hf as Hc Hs. auto.
Qed.

Lemma demo_paper_first : exists paper, papers demo_paper !! 0%nat = Some paper.
Proof.
  destruct (proj1 (hits_exist_lookup _ _) demo_paper_hit 0%nat [0%nat])
    as (paper & Hp & _); [left; reflexivity | eauto].
Qed.

Lemma demo_hovering_unfold :
  demo_hovering = animationFrame 1000 1000 [(0%nat, [0%nat])] demo_startup demo_paper.
Proof. reflexivity. Qed.

Lemma demo_hovering_first :
  exists paper,
    papers (animationFrame 1000 1000 [(0%nat, [0%nat])] demo_startup demo_paper)
      !! 0%nat = Some paper.
Proof.
  rewrite <- demo_hovering_unfold.
  destruct (proj1 (hits_exist_lookup _ _) demo_hovering_hit 0%nat [0%nat])
    as (paper & Hp & _); [left; reflexivity | eauto].
Qed.

Lemma demo_closing_reset :
  In (cb_animateReset (reset_tween_of 3000 demo_focused)) (raf demo_closing).
Proof.
  destruct demo_closing_state as (-> & _). right. right. left. reflexivity.
Qed.

(** ** The orbit angle moves in Idle only *)

Lemma animate_no_orbit now intersects updated s :
  initialAnimationComplete s = false \/ isZooming s = true ->
  cameraOrbitAngle (animate now intersects updated s) = cameraOrbitAngle s.
Proof.
  intros H. unfold animate. cbv zeta. cbn [cameraOrbitAngle with_papers].
  match goal with |- context [hover ?i ?x] =>
    destruct (hover_frame i x) as (_ & _ & _ & _ & _ & _ & _ & ->) end.
  unfold animate_camera. simpl.
  destruct H as [-> | ->]; [reflexivity | ].
  rewrite andb_false_r. simpl.
  destruct (initialAnimationComplete s); reflexivity.
Qed.

Lemma showContent_angle model s :
  cameraOrbitAngle (showContent model s) = cameraOrbitAngle s.
Proof. unfold showContent. break_handlers. Qed.

Lemma animateCamera_angle t now s :
  cameraOrbitAngle (animateCamera t now s) = cameraOrbitAngle s.
Proof.
  destruct (Rlt_le_dec (now - zt_startTime t) 1200) as [Hlt | Hge].
  - rewrite animateCamera_running by trivial. reflexivity.
  - rewrite animateCamera_done, showContent_angle by trivial. reflexivity.
Qed.

Lemma animateReset_angle t now s :
  cameraOrbitAngle (animateReset t now s) = cameraOrbitAngle s.
Proof.
  destruct (Rlt_le_dec (now - rt_startTime t) 1500) as [Hlt | Hge].
  - rewrite animateReset_running by trivial. reflexivity.
  - rewrite animateReset_done by trivial. reflexivity.
Qed.

Lemma initialCameraAnimation_angle timestamp s :
  cameraOrbitAngle (initialCameraAnimation timestamp s) = cameraOrbitAngle s.
Proof. unfold initialCameraAnimation. destruct (Rlt_dec _ 1); reflexivity. Qed.

Section AngleFrame.

Variables (timestamp now : R) (intersects : list ObjectRef) (updated : Camera).

Lemma run_callback_angle_busy cb s :
  isZooming s = true ->
  cameraOrbitAngle (run_callback timestamp now intersects updated s cb)
  = cameraOrbitAngle s.
Proof.
  intros Hz. destruct cb as [ | t | t | ]; cbn [run_callback].
  - apply initialCameraAnimation_angle.
  - apply animateCamera_angle.
  - apply animateReset_angle.
  - apply animate_no_orbit. auto.
Qed.

Lemma run_callbacks_angle_busy q : forall s,
  tweens_in q = 0%nat -> isZooming s = true ->
  cameraOrbitAngle (run_callbacks timestamp now intersects updated q s)
  = cameraOrbitAngle s.
Proof.
  induction q as [ | cb rest IH]; intros s Hq Hz; [reflexivity | ].
  rewrite tweens_in_cons in Hq. rewrite run_callbacks_cons.
  destruct (is_tween_cb cb) eqn:Hcb; [discriminate | ].
  destruct (run_callback_quiet timestamp now intersects updated cb s Hcb) as (Hz' & _).
  rewrite IH; [apply run_callback_angle_busy, Hz | exact Hq | congruence].
Qed.

Lemma run_callback_angle_intro cb s :
  initialAnimationComplete (run_callback timestamp now intersects updated s cb) = false ->
  initialAnimationComplete s = false /\
  cameraOrbitAngle (run_callback timestamp now intersects updated s cb)
  = cameraOrbitAngle s.
Proof.
  destruct cb as [ | t | t | ]; cbn [run_callback].
  - rewrite initialCameraAnimation_angle.
    unfold initialCameraAnimation. destruct (Rlt_dec _ 1); project; intros H;
      [auto | discriminate].
  - rewrite animateCamera_complete, animateCamera_angle. auto.
  - rewrite animateReset_complete, animateReset_angle. auto.
  - rewrite animate_complete. intros H. split; [exact H | ].
    apply animate_no_orbit. auto.
Qed.

Lemma run_callbacks_angle_intro todo : forall s,
  initialAnimationComplete (run_callbacks timestamp now intersects updated todo s)
    = false ->
  initialAnimationComplete s = false /\
  cameraOrbitAngle (run_callbacks timestamp now intersects updated todo s)
  = cameraOrbitAngle s.
Proof.
  induction todo as [ | cb rest IH]; intros s H; [auto | ].
  rewrite run_callbacks_cons in *.
  destruct (IH _ H) as (Hc & ->).
  apply run_callback_angle_intro, Hc.
Qed.

End AngleFrame.

Lemma reachable_angle_intro s :
  reachable s -> initialAnimationComplete s = false -> cameraOrbitAngle s = PI / 2.
Proof.
  induction 1 as [startup now | s e Hr IH Hd]; intros Hc.
  - unfold page_loaded. rewrite animate_no_orbit; [reflexivity | left; reflexivity].
  - destruct e; cbn [handle] in *.
    + unfold paperLoaded in *.
      destruct (paperLabels !! length (papers s)); exact (IH Hc).
    + unfold onClick in *. destruct (isZooming s); [exact (IH Hc) | ].
      destruct (parentModel_of (papers s) intersects) as [[parentModel o] | ];
        [ | exact (IH Hc)].
      rewrite zoomToModel_starts in *. exact (IH Hc).
    + rewrite closeOverlayClick_starts in *. exact (IH Hc).
    + unfold animationFrame in *.
      destruct (run_callbacks_angle_intro _ _ _ _ _ _ Hc) as (Hc' & ->).
      exact (IH Hc').
Qed.

(** X25.  The orbit angle moves in Idle only.  In every state the page can
    reach: while the intro is not complete [cameraOrbitAngle] is still
    pi / 2, the value the script gave it; and outside Idle, that is from the
    click on a paper to the end of the reset, no event changes it, so the
    orbit goes on after a focus from the angle it had before. *)
Theorem orbit_angle_waits e s :
  reachable s -> deliverable e s ->
  (initialAnimationComplete s = false -> cameraOrbitAngle s = PI / 2) /\
  (phase s <> Idle -> cameraOrbitAngle (handle e s) = cameraOrbitAngle s).
Proof.
  intros Hr Hd. split; [apply reachable_angle_intro, Hr | ].
  intros Hp. pose proof (reachable_single_flight s Hr) as Hsf.
  pose proof (busy_phase_isZooming s Hsf Hp) as Hz.
  destruct e; cbn [handle].
  - unfold paperLoaded. destruct (paperLabels !! length (papers s)); reflexivity.
  - rewrite onClick_ignored by exact Hz. reflexivity.
  - rewrite closeOverlayClick_starts. reflexivity.
  - destruct (reachable_tween_last s Hr) as (pre & Hpre & [Heq | (cb & Hcb & Heq)]);
      unfold animationFrame; rewrite Heq.
    + rewrite run_callbacks_angle_busy; [reflexivity | exact Hpre | exact Hz].
    + rewrite run_callbacks_app, run_callbacks_cons. cbn [run_callbacks fold_left].
      destruct cb as [ | t | t | ]; try discriminate; cbn [run_callback].
      * rewrite animateCamera_angle, run_callbacks_angle_busy;
          [reflexivity | exact Hpre | exact Hz].
      * rewrite animateReset_angle, run_callbacks_angle_busy;
          [reflexivity | exact Hpre | exact Hz].
Qed.

(** ** The orientation of the papers *)

Lemma randomRotation_range u :
  unit_interval u -> - (PI / 4) <= randomRotation u < PI / 4.
Proof.
  intros [H0 H1]. unfold randomRotation. pose proof PI_RGT_0. split; nra.
Qed.

Lemma rotate_paper_step time index u rotation :
  let m := if Nat.even index then 0.7 else 1.0 in
  let r' := rotate_paper time index u rotation in
  Rabs (euler_x r' - euler_x rotation) <= Rabs (rotationSpeed u) * m /\
  Rabs (euler_y r' - euler_y rotation) <= Rabs (rotationSpeed u) * m /\
  Rabs (euler_z r' - euler_z rotation) <= Rabs (rotationSpeed u) * m.
Proof.
  intros m r'. subst r'. unfold rotate_paper. cbv zeta. cbn [euler_x euler_y euler_z].
  fold m.
  assert (0 < m) as Hm by (unfold m; destruct (Nat.even index); lra).
  assert (forall c, -1 <= c <= 1 ->
            forall x, Rabs (x + c * rotationSpeed u * m - x)
                      <= Rabs (rotationSpeed u) * m) as Hstep.
  { intros c Hc x. replace (x + c * rotationSpeed u * m - x)
      with (c * rotationSpeed u * m) by lra.
    rewrite !Rabs_mult, (Rabs_right m) by lra.
    assert (Rabs c <= 1) by (apply Rabs_le; lra).
    pose proof (Rabs_pos (rotationSpeed u)) as Hs.
    apply Rmult_le_compat_r; [lra | ].
    rewrite <- (Rmult_1_l (Rabs (rotationSpeed u))) at 2.
    apply Rmult_le_compat_r; assumption. }
  split; [apply Hstep, SIN_bound | split; [apply Hstep, COS_bound | apply Hstep, SIN_bound]].
Qed.

(** X26.  The orientation of the papers.  Fed with results of
    [Math.random()], [loadPapers] sets a paper of even index upright within
    0.3 times a quarter of pi about x and about z, a paper of odd index flat
    within a quarter of pi, and turns each about y to within an eighth of pi
    of pi / 2 less its angle on the circle.  In [animate] each frame turns a
    paper by at most its rotation speed about each axis, 0.7 times that for
    an even index, and nothing turns it back: after [n] frames the paper is
    within [n] times that of where it started. *)
Theorem paper_orientation i u1 u2 u3 times u rotation :
  unit_interval u1 -> unit_interval u2 -> unit_interval u3 ->
  let r0 := paper_rotation i u1 u2 u3 in
  let m := if Nat.even i then 0.7 else 1.0 in
  let r := rotate_paper_frames times i u rotation in
  (if Nat.even i
   then Rabs (euler_x r0 - PI / 2) <= 0.3 * (PI / 4) /\ Rabs (euler_z r0) <= 0.3 * (PI / 4)
   else Rabs (euler_x r0) <= PI / 4 /\ Rabs (euler_z r0) <= PI / 4) /\
  Rabs (euler_y r0 - (PI / 2 - INR i / INR numberOfPapers * PI * 2)) <= PI / 8 /\
  Rabs (euler_x r - euler_x rotation) <= INR (length times) * (Rabs (rotationSpeed u) * m) /\
  Rabs (euler_y r - euler_y rotation) <= INR (length times) * (Rabs (rotationSpeed u) * m) /\
  Rabs (euler_z r - euler_z rotation) <= INR (length times) * (Rabs (rotationSpeed u) * m).
Proof.
  intros H1 H2 H3 r0 m r. subst r0 r.
  pose proof (randomRotation_range u1 H1) as R1.
  pose proof (randomRotation_range u2 H2) as R2.
  pose proof (randomRotation_range u3 H3) as R3.
  pose proof PI_RGT_0 as Hpi.
  split; [ | split].
  - unfold paper_rotation. cbv zeta. cbn [euler_x euler_z].
    destruct (Nat.even i); split; apply Rabs_le; lra.
  - unfold paper_rotation. cbv zeta. cbn [euler_y]. apply Rabs_le. lra.
  - unfold rotate_paper_frames. revert rotation.
    induction times as [ | time rest IH]; intros rotation.
    + simpl. rewrite !Rminus_diag, Rabs_R0. lra.
    + cbn [fold_left]. change (length (time :: rest)) with (S (length rest)).
      rewrite S_INR.
      destruct (IH (rotate_paper time i u rotation)) as (Hx & Hy & Hz).
      destruct (rotate_paper_step time i u rotation) as (Sx & Sy & Sz).
      fold m in Sx, Sy, Sz.
      set (final := fold_left (fun r time0 => rotate_paper time0 i u r) rest
                      (rotate_paper time i u rotation)) in *.
      set (mid := rotate_paper time i u rotation) in *.
      repeat split.
      * replace (euler_x final - euler_x rotation)
          with ((euler_x final - euler_x mid) + (euler_x mid - euler_x rotation)) by lra.
        etransitivity; [apply Rabs_triang | lra].
      * replace (euler_y final - euler_y rotation)
          with ((euler_y final - euler_y mid) + (euler_y mid - euler_y rotation)) by lra.
        etransitivity; [apply Rabs_triang | lra].
      * replace (euler_z final - euler_z rotation)
          with ((euler_z final - euler_z mid) + (euler_z mid - euler_z rotation)) by lra.
        etransitivity; [apply Rabs_triang | lra].
Qed.

(** ** The material of a paper *)

Lemma texture_of_cases textures key :
  texture_of textures key = mv_undefined \/
  exists path, texture_of textures key = mv_texture path.
Proof.
  unfold texture_of.
  destruct (List.find _ textures) as [kv | ]; [right; eauto | left; reflexivity].
Qed.

(** X27.  What reaches the material of a paper.  Whatever textures were
    loaded, the properties [createPaper] hands to the material of a mesh
    hold a texture map exactly for the textures that exist, never an
    undefined one; they always hold [metalness] 0.3, [roughness] 0.8,
    [depthWrite] and [depthTest]; and they never hold [transparent], whose
    value [false] the pruning loop deletes with the missing maps.  For the
    notepad that leaves nine properties, for the open book five. *)
Theorem material_props_pruned textures :
  let m := material_of textures in
  (forall mapKey textureKey,
     In (mapKey, textureKey)
        [("map", "baseColor"); ("normalMap", "normal"); ("metalnessMap", "metallic");
         ("roughnessMap", "roughness"); ("aoMap", "ao")] ->
     (In mapKey (List.map fst m) <->
      exists path, texture_of textures textureKey = mv_texture path)) /\
  (forall key v, In (key, v) m -> v <> mv_undefined) /\
  In ("metalness", mv_number 0.3) m /\ In ("roughness", mv_number 0.8) m /\
  In ("depthWrite", mv_boolean true) m /\ In ("depthTest", mv_boolean true) m /\
  ~ In "transparent" (List.map fst m) /\
  List.map (fun t => List.map fst (material_of t)) paperModels_textures =
    [ ["map"; "normalMap"; "metalnessMap"; "roughnessMap"; "aoMap";
       "metalness"; "roughness"; "depthWrite"; "depthTest"];
      ["map"; "metalness"; "roughness"; "depthWrite"; "depthTest"] ].
Proof.
  intros m. subst m. unfold material_of, prune_materialProps, materialProps.
  assert ((if Req_dec_T 0.3 0 then false else true) = true) as H3
    by (destruct (Req_dec_T 0.3 0); [lra | reflexivity]).
  assert ((if Req_dec_T 0.8 0 then false else true) = true) as H8
    by (destruct (Req_dec_T 0.8 0); [lra | reflexivity]).
  split; [ | split; [ | split; [ | split; [ | split; [ | split; [ | split]]]]]].
  - intros mapKey textureKey Hin.
    destruct (texture_of_cases textures "baseColor") as [E1 | (p1 & E1)],
             (texture_of_cases textures "normal") as [E2 | (p2 & E2)],
             (texture_of_cases textures "metallic") as [E3 | (p3 & E3)],
             (texture_of_cases textures "roughness") as [E4 | (p4 & E4)],
             (texture_of_cases textures "ao") as [E5 | (p5 & E5)];
      rewrite E1, E2, E3, E4, E5; cbn [List.filter snd mv_truthy];
      rewrite H3, H8; cbn [List.map fst];
      simpl in Hin;
      destruct Hin as [Hin | [Hin | [Hin | [Hin | [Hin | []]]]]];
      injection Hin as <- <-;
      rewrite ?E1, ?E2, ?E3, ?E4, ?E5;
      (split; [intros Hk; simpl in Hk; try (eexists; reflexivity);
               exfalso; intuition discriminate
              | intros (path & Hpath); try discriminate; simpl; tauto]).
  - intros key v Hin Hv. subst v. apply List.filter_In in Hin as [_ Hin].
    discriminate.
  - apply List.filter_In. split; [simpl; tauto | exact H3].
  - apply List.filter_In. split; [simpl; tauto | exact H8].
  - apply List.filter_In. split; [simpl; tauto | reflexivity].
  - apply List.filter_In. split; [simpl; tauto | reflexivity].
  - intros Hin. apply in_map_iff in Hin as ([key v] & Hkey & Hin).
    simpl in Hkey. subst key. apply List.filter_In in Hin as [Hin Hv].
    simpl in Hin.
    repeat (destruct Hin as [Hin | Hin];
            [inversion Hin; subst; simpl in Hv; discriminate Hv | ]).
    contradiction.
  - unfold paperModels_textures. cbn [List.map].
    unfold material_of, prune_materialProps, materialProps, texture_of.
    cbn [List.find fst snd String.eqb Ascii.eqb Bool.eqb List.filter mv_truthy].
    simpl List.find. cbn [List.filter snd mv_truthy]. rewrite H3, H8. reflexivity.
Qed.
(** ** Double arithmetic: how far rounding can move a result *)

Lemma Double_u_range : 0 < Double.u <= / 8.
Proof. unfold Double.u. split; lra. Qed.

Lemma Double_eta_pos : 0 < Double.eta.
Proof. unfold Double.eta. apply Rinv_0_lt_compat, pow_lt. lra. Qed.

Lemma Double_eta_le_u : Double.eta <= Double.u.
Proof.
  unfold Double.eta, Double.u. apply Rinv_le_contravar; [apply pow_lt; lra | ].
  apply Rle_pow; [lra | lia].
Qed.

Lemma Rabs_le_between x y : Rabs x <= y -> - y <= x <= y.
Proof. unfold Rabs. destruct (Rcase_abs x); lra. Qed.

Lemma Double_rounded_exact x : Double.rounded x x.
Proof.
  unfold Double.rounded. replace (x - x) with 0 by lra. rewrite Rabs_R0.
  pose proof Double_u_range. pose proof Double_eta_pos. pose proof (Rabs_pos x). nra.
Qed.

Lemma Double_lerp_exact v1 v2 alpha : Double.lerp v1 v2 alpha (v1 + (v2 - v1) * alpha).
Proof.
  exists (v2 - v1), ((v2 - v1) * alpha). repeat split; apply Double_rounded_exact.
Qed.

Lemma Double_lerpVectors_exact v1 v2 alpha :
  Double.lerpVectors v1 v2 alpha (lerpVectors v1 v2 alpha).
Proof. repeat split; apply Double_lerp_exact. Qed.

(** A rounded result, as the exact one plus an error. *)
Lemma Double_rounded_error x y :
  Double.rounded x y ->
  exists e, y = x + e /\ Rabs e <= Double.u * Rabs x + Double.eta.
Proof. intros H. exists (y - x). split; [lra | exact H]. Qed.

(** The interpolation in doubles stays within six roundings of the exact
    one, for numbers of size at most [M]. *)
Lemma Double_lerp_near v1 v2 alpha r M :
  Rabs v1 <= M -> Rabs v2 <= M -> 0 <= alpha <= 1 ->
  Double.lerp v1 v2 alpha r ->
  Rabs (r - (v1 + (v2 - v1) * alpha)) <= 6 * (Double.u * M + Double.eta).
Proof.
  intros H1 H2 [Ha0 Ha1] (d & p & Hd & Hp & Hr).
  destruct (Double_rounded_error _ _ Hd) as (e1 & -> & He1).
  destruct (Double_rounded_error _ _ Hp) as (e2 & -> & He2).
  destruct (Double_rounded_error _ _ Hr) as (e3 & -> & He3).
  pose proof Double_u_range as [Hu0 Hu1]. pose proof Double_eta_pos as Heta.
  set (u := Double.u) in *. set (eta := Double.eta) in *.
  assert (0 <= M) as HM by (pose proof (Rabs_pos v1); lra).
  assert (0 <= u * M) as HuM by nra.
  assert (u * (u * M) <= u * M / 8) as HuuM by nra.
  assert (u * eta <= eta / 8) as Hueta by nra.
  (* the difference *)
  assert (Rabs (v2 - v1) <= 2 * M) as HA.
  { unfold Rminus. eapply Rle_trans; [apply Rabs_triang | ]. rewrite Rabs_Ropp. lra. }
  assert (Rabs e1 <= 2 * (u * M) + eta) as HE1 by nra.
  (* the product *)
  assert (Rabs ((v2 - v1 + e1) * alpha) <= 2 * M + Rabs e1) as HP.
  { rewrite Rabs_mult, (Rabs_right alpha) by lra.
    pose proof (Rabs_triang (v2 - v1) e1). pose proof (Rabs_pos (v2 - v1 + e1)). nra. }
  assert (Rabs e2 <= 2 * (u * M) + u * Rabs e1 + eta) as HE2 by nra.
  assert (u * Rabs e1 <= u * M / 4 + eta / 8) as HuE1.
  { pose proof (Rabs_pos e1). nra. }
  (* the sum *)
  assert (Rabs (v1 + (v2 - v1) * alpha) <= M) as HL.
  { apply Rabs_le. apply Rabs_le_between in H1, H2. split; nra. }
  assert (Rabs (v1 + ((v2 - v1 + e1) * alpha + e2)) <= M + Rabs e1 + Rabs e2) as HS.
  { replace (v1 + ((v2 - v1 + e1) * alpha + e2))
      with ((v1 + (v2 - v1) * alpha) + (e1 * alpha + e2)) by ring.
    eapply Rle_trans; [apply Rabs_triang | ].
    assert (Rabs (e1 * alpha + e2) <= Rabs e1 + Rabs e2); [ | lra].
    eapply Rle_trans; [apply Rabs_triang | ].
    rewrite Rabs_mult, (Rabs_right alpha) by lra. pose proof (Rabs_pos e1). nra. }
  assert (u * Rabs e2 <= u * M / 2 + eta / 4) as HuE2.
  { pose proof (Rabs_pos e2). nra. }
  assert (Rabs e3 <= u * M + u * Rabs e1 + u * Rabs e2 + eta) as HE3 by nra.
  replace (v1 + ((v2 - v1 + e1) * alpha + e2) + e3 - (v1 + (v2 - v1) * alpha))
    with (e1 * alpha + e2 + e3) by ring.
  assert (Rabs (e1 * alpha + e2 + e3) <= Rabs e1 + Rabs e2 + Rabs e3) as HT.
  { eapply Rle_trans; [apply Rabs_triang | ].
    assert (Rabs (e1 * alpha + e2) <= Rabs e1 + Rabs e2); [ | lra].
    eapply Rle_trans; [apply Rabs_triang | ].
    rewrite Rabs_mult, (Rabs_right alpha) by lra. pose proof (Rabs_pos e1). nra. }
  lra.
Qed.

Lemma Double_lerp_end v1 v2 r M :
  Rabs v1 <= M -> Rabs v2 <= M -> Double.lerp v1 v2 1 r ->
  Rabs (r - v2) <= 6 * (Double.u * M + Double.eta).
Proof.
  intros H1 H2 H.
  replace v2 with (v1 + (v2 - v1) * 1) at 1 by ring.
  apply Double_lerp_near; trivial. lra.
Qed.

Lemma Double_lerp_between v1 v2 alpha r M :
  Rabs v1 <= M -> Rabs v2 <= M -> 0 <= alpha <= 1 ->
  Double.lerp v1 v2 alpha r ->
  between_within (6 * (Double.u * M + Double.eta)) v1 v2 r.
Proof.
  intros H1 H2 Ha H.
  pose proof (Double_lerp_near v1 v2 alpha r M H1 H2 Ha H) as Hn.
  apply Rabs_le_between in Hn.
  assert (Rmin v1 v2 <= v1 + (v2 - v1) * alpha <= Rmax v1 v2) as Hb.
  { unfold Rmin, Rmax. destruct (Rle_dec v1 v2); split; nra. }
  unfold between_within. lra.
Qed.

Lemma Double_lerpVectors_near v1 v2 alpha v M :
  bounded M v1 -> bounded M v2 -> 0 <= alpha <= 1 ->
  Double.lerpVectors v1 v2 alpha v ->
  near (6 * (Double.u * M + Double.eta)) v (lerpVectors v1 v2 alpha).
Proof.
  intros (Hx1 & Hy1 & Hz1) (Hx2 & Hy2 & Hz2) Ha (Hx & Hy & Hz).
  unfold near, lerpVectors. cbn [vx vy vz].
  split; [ | split]; apply (Double_lerp_near _ _ _ _ M); assumption.
Qed.

Lemma Double_lerpVectors_end v1 v2 v M :
  bounded M v1 -> bounded M v2 -> Double.lerpVectors v1 v2 1 v ->
  near (6 * (Double.u * M + Double.eta)) v v2.
Proof.
  intros (Hx1 & Hy1 & Hz1) (Hx2 & Hy2 & Hz2) (Hx & Hy & Hz).
  split; [ | split].
  - apply (Double_lerp_end (vx v1) _ _ M); assumption.
  - apply (Double_lerp_end (vy v1) _ _ M); assumption.
  - apply (Double_lerp_end (vz v1) _ _ M); assumption.
Qed.

Lemma Double_lerpVectors_in_box v1 v2 alpha v M :
  bounded M v1 -> bounded M v2 -> 0 <= alpha <= 1 ->
  Double.lerpVectors v1 v2 alpha v ->
  in_box_within (6 * (Double.u * M + Double.eta)) v1 v2 v.
Proof.
  intros (Hx1 & Hy1 & Hz1) (Hx2 & Hy2 & Hz2) Ha (Hx & Hy & Hz).
  split; [ | split]; apply (Double_lerp_between _ _ alpha _ M); assumption.
Qed.

Lemma bounded_le M N p : M <= N -> bounded M p -> bounded N p.
Proof. intros H (Hx & Hy & Hz). repeat split; lra. Qed.

Lemma near_le tol tol' p q : tol <= tol' -> near tol p q -> near tol' p q.
Proof. intros H (Hx & Hy & Hz). repeat split; lra. Qed.

Lemma near_trans t1 t2 p q r : near t1 p q -> near t2 q r -> near (t1 + t2) p r.
Proof.
  intros (Hx & Hy & Hz) (Hx' & Hy' & Hz').
  apply Rabs_le_between in Hx, Hy, Hz, Hx', Hy', Hz'.
  repeat split; apply Rabs_le; lra.
Qed.

(** The target of the focus-in tween, computed in doubles, is within three
    roundings of the position of the model moved by (0, 0.2, zoomDistance). *)
Lemma targetPosition_double_near modelPosition zoomDistance targetPosition M :
  1 <= M -> bounded M modelPosition -> Rabs zoomDistance <= M ->
  targetPosition_double modelPosition zoomDistance targetPosition ->
  near (3 * (Double.u * M + Double.eta)) targetPosition
       (add modelPosition (vec3 0 0.2 zoomDistance)) /\
  bounded (3 * M) targetPosition.
Proof.
  intros HM (Hx & Hy & Hz) Hd (c & Hc & Hsx & Hsy & Hsz).
  cbn [vx vy vz] in Hsx, Hsy, Hsz.
  pose proof Double_u_range as [Hu0 Hu1]. pose proof Double_eta_pos as Heta.
  pose proof Double_eta_le_u as Heu.
  unfold Double.rounded in *.
  set (u := Double.u) in *. set (eta := Double.eta) in *.
  assert (0 <= u * M) as HuM by nra.
  assert (Rabs (vx targetPosition - (vx modelPosition + 0)) <= u * M + eta) as Htx.
  { eapply Rle_trans; [exact Hsx | ]. replace (vx modelPosition + 0) with (vx modelPosition) by lra.
    nra. }
  rewrite (Rabs_right 0.2) in Hc by lra.
  assert (Rabs (vy modelPosition + c) <= M + 0.2 + (u * 0.2 + eta)) as Hyc.
  { apply Rabs_le_between in Hc, Hy. apply Rabs_le. lra. }
  assert (Rabs (vy targetPosition - (vy modelPosition + 0.2))
          <= 3 * (u * M + eta)) as Hty.
  { replace (vy targetPosition - (vy modelPosition + 0.2))
      with ((vy targetPosition - (vy modelPosition + c)) + (c - 0.2)) by ring.
    eapply Rle_trans; [apply Rabs_triang | ].
    assert (u * Rabs (vy modelPosition + c) <= u * M + u * 0.2 + u * (u * 0.2 + eta))
      by nra.
    assert (u * (u * 0.2 + eta) <= u * 0.2 / 8 + eta / 8) by nra.
    nra. }
  assert (Rabs (vz modelPosition + zoomDistance) <= 2 * M) as Hzc.
  { apply Rabs_le_between in Hz, Hd. apply Rabs_le. lra. }
  assert (Rabs (vz targetPosition - (vz modelPosition + zoomDistance))
          <= 2 * (u * M) + eta) as Htz by nra.
  split.
  - unfold near, add. cbn [vx vy vz]. repeat split; lra.
  - apply Rabs_le_between in Htx, Hty, Htz, Hx, Hy, Hz, Hd.
    assert (u * M <= M / 8) as HuM8 by nra.
    assert (eta <= / 8) as Heta8 by lra.
    unfold bounded. repeat split; apply Rabs_le; lra.
Qed.

(** ** Distances move by no more than the points *)

Lemma dot_le_norms a b :
  vx a * vx b + vy a * vy b + vz a * vz b
  <= sqrt (lengthSq a) * sqrt (lengthSq b).
Proof.
  assert (0 <= lengthSq a) as Ha by (unfold lengthSq; nra).
  assert (0 <= lengthSq b) as Hb by (unfold lengthSq; nra).
  rewrite <- sqrt_mult by trivial.
  set (d := vx a * vx b + vy a * vy b + vz a * vz b).
  eapply Rle_trans; [apply Rle_abs | ].
  rewrite <- sqrt_Rsqr_abs. apply sqrt_le_1_alt.
  unfold Rsqr, d, lengthSq. destruct a as [a1 a2 a3], b as [b1 b2 b3]. cbn [vx vy vz].
  pose proof (Rle_0_sqr (a1 * b2 - a2 * b1)) as H1.
  pose proof (Rle_0_sqr (a1 * b3 - a3 * b1)) as H2.
  pose proof (Rle_0_sqr (a2 * b3 - a3 * b2)) as H3.
  unfold Rsqr in H1, H2, H3. lra.
Qed.

Lemma norm_triangle a b :
  sqrt (lengthSq (add a b)) <= sqrt (lengthSq a) + sqrt (lengthSq b).
Proof.
  assert (0 <= lengthSq a) as Ha by (unfold lengthSq; nra).
  assert (0 <= lengthSq b) as Hb by (unfold lengthSq; nra).
  pose proof (sqrt_pos (lengthSq a)) as Hpa. pose proof (sqrt_pos (lengthSq b)) as Hpb.
  rewrite <- (sqrt_square (sqrt (lengthSq a) + sqrt (lengthSq b))) by lra.
  apply sqrt_le_1_alt.
  pose proof (dot_le_norms a b) as Hd.
  pose proof (sqrt_sqrt _ Ha) as Hsa. pose proof (sqrt_sqrt _ Hb) as Hsb.
  unfold lengthSq, add in *. cbn [vx vy vz] in *. nra.
Qed.

Lemma norm_small tol e :
  Rabs (vx e) <= tol -> Rabs (vy e) <= tol -> Rabs (vz e) <= tol ->
  sqrt (lengthSq e) <= 2 * tol.
Proof.
  intros Hx Hy Hz.
  assert (0 <= tol) as Ht by (pose proof (Rabs_pos (vx e)); lra).
  apply Rabs_le_between in Hx, Hy, Hz.
  rewrite <- (sqrt_square (2 * tol)) by lra. apply sqrt_le_1_alt.
  unfold lengthSq. nra.
Qed.

Lemma sub_add_sub p q c : sub p c = add (sub q c) (sub p q).
Proof. unfold sub, add. cbn [vx vy vz]. f_equal; ring. Qed.

Lemma distanceTo_near tol p q c :
  near tol p q -> Rabs (distanceTo p c - distanceTo q c) <= 2 * tol.
Proof.
  intros (Hx & Hy & Hz). unfold distanceTo.
  assert (sqrt (lengthSq (sub p q)) <= 2 * tol) as Hpq
    by (apply norm_small; assumption).
  assert (sqrt (lengthSq (sub q p)) <= 2 * tol) as Hqp.
  { apply norm_small; cbn [sub vx vy vz]; rewrite Rabs_minus_sym; assumption. }
  pose proof (norm_triangle (sub q c) (sub p q)) as H1.
  rewrite <- sub_add_sub in H1.
  pose proof (norm_triangle (sub p c) (sub q p)) as H2.
  rewrite <- sub_add_sub in H2.
  apply Rabs_le. lra.
Qed.

Lemma distanceTo_sym p q : distanceTo p q = distanceTo q p.
Proof. unfold distanceTo, lengthSq, sub. cbn [vx vy vz]. f_equal. ring. Qed.

Lemma distanceTo_near_both tol p q c c' :
  near tol p q -> near tol c c' ->
  Rabs (distanceTo p c - distanceTo q c') <= 4 * tol.
Proof.
  intros Hp Hc.
  pose proof (distanceTo_near tol p q c Hp) as H1.
  pose proof (distanceTo_near tol c c' q Hc) as H2.
  rewrite (distanceTo_sym c q), (distanceTo_sym c' q) in H2.
  apply Rabs_le_between in H1, H2. apply Rabs_le. lra.
Qed.
(** ** The tween callbacks in double arithmetic *)

Lemma animateCamera_with_exact t now s :
  animateCamera_with
    (lerpVectors (zt_startPosition t) (zt_targetPosition t)
       (easeInOutCubic (Rmin ((now - zt_startTime t) / 1200) 1)))
    (lerpVectors (zt_startTarget t) (zt_modelPosition t)
       (easeInOutCubic (Rmin ((now - zt_startTime t) / 1200) 1)))
    t now s
  = animateCamera t now s.
Proof. reflexivity. Qed.

Lemma animateReset_with_exact t now s :
  animateReset_with
    (lerpVectors (rt_startPosition t) finalCameraPosition
       (easeOutCubic (Rmin ((now - rt_startTime t) / 1500) 1)))
    (lerpVectors (rt_startTarget t) (vec3 0 0 6)
       (easeOutCubic (Rmin ((now - rt_startTime t) / 1500) 1)))
    t now s
  = animateReset t now s.
Proof. reflexivity. Qed.

Lemma Double_eased_exact e : Double.eased e e.
Proof. split; trivial. Qed.

(** Exact arithmetic is one of the behaviours the relations allow. *)
Lemma animateCamera_double_exact t now s :
  animateCamera_double t now s (animateCamera t now s).
Proof.
  eexists _, _, _. split; [apply Double_eased_exact | ].
  split; [apply Double_lerpVectors_exact | ].
  split; [apply Double_lerpVectors_exact | ].
  symmetry. apply animateCamera_with_exact.
Qed.

Lemma animateReset_double_exact t now s :
  animateReset_double t now s (animateReset t now s).
Proof.
  eexists _, _, _. split; [apply Double_eased_exact | ].
  split; [apply Double_lerpVectors_exact | ].
  split; [apply Double_lerpVectors_exact | ].
  symmetry. apply animateReset_with_exact.
Qed.

Lemma Double_add_exact a b : Double.add a b (add a b).
Proof. repeat split; apply Double_rounded_exact. Qed.

Lemma zoom_tween_double_exact model o modelSize now s :
  zoom_tween_double model o modelSize now s (zoom_tween_of model o modelSize now s).
Proof.
  eexists. split; [ | reflexivity].
  exists 0.2. split; [apply Double_rounded_exact | apply Double_add_exact].
Qed.

Lemma animateCamera_with_done cameraPosition controlsTarget t now s :
  1200 <= now - zt_startTime t ->
  animateCamera_with cameraPosition controlsTarget t now s =
  showContent (zt_model t)
    (controls_maxDistance_set (zt_zoomDistance t * 2)
       (controls_minDistance_set (zt_zoomDistance t * 0.5)
          (controls_enabled_set true
             (camera_orientation_set (LookAt (zt_modelPosition t))
                (controls_target_set controlsTarget
                   (camera_position_set cameraPosition s)))))).
Proof.
  intros H. unfold animateCamera_with.
  rewrite progress_done by lra.
  destruct (Rlt_dec 1 1) as [a|_]; [lra|]. reflexivity.
Qed.

Lemma animateCamera_with_running cameraPosition controlsTarget t now s :
  now - zt_startTime t < 1200 ->
  animateCamera_with cameraPosition controlsTarget t now s =
  requestAnimationFrame (cb_animateCamera t)
    (camera_orientation_set (LookAt (zt_modelPosition t))
       (controls_target_set controlsTarget
          (camera_position_set cameraPosition s))).
Proof.
  intros H. unfold animateCamera_with.
  destruct (progress_running (now - zt_startTime t) 1200) as [-> Hlt]; try lra.
  destruct (Rlt_dec _ 1) as [_|n]; [reflexivity | contradiction].
Qed.

Lemma animateReset_with_done cameraPosition controlsTarget t now s :
  1500 <= now - rt_startTime t ->
  animateReset_with cameraPosition controlsTarget t now s =
  overlay_display_set display_none
    (with_selectedModel None
       (controls_maxDistance_set 100
          (controls_minDistance_set 3
             (controls_enabled_set true
                (with_isZooming false
                   (controls_target_set controlsTarget
                      (camera_position_set cameraPosition s))))))).
Proof.
  intros H. unfold animateReset_with.
  rewrite progress_done by lra.
  destruct (Rlt_dec 1 1) as [a|_]; [lra|]. reflexivity.
Qed.

(** The pose a call of [animateCamera] leaves. *)
Lemma animateCamera_with_pose cameraPosition controlsTarget t now s :
  cam_position (camera (animateCamera_with cameraPosition controlsTarget t now s))
    = cameraPosition /\
  target (controls (animateCamera_with cameraPosition controlsTarget t now s))
    = controlsTarget /\
  cam_orientation (camera (animateCamera_with cameraPosition controlsTarget t now s))
    = LookAt (zt_modelPosition t).
Proof.
  destruct (Rlt_le_dec (now - zt_startTime t) 1200) as [Hlt | Hge].
  - rewrite animateCamera_with_running by exact Hlt. repeat split.
  - rewrite animateCamera_with_done by exact Hge.
    match goal with |- context [showContent ?m ?x] =>
      destruct (showContent_frame m x) as (_ & _ & _ & -> & -> & _) end.
    repeat split.
Qed.

(** At completion the eased progress is 1. *)
Lemma animateCamera_double_done t now s s' :
  1200 <= now - zt_startTime t ->
  animateCamera_double t now s s' ->
  exists cameraPosition controlsTarget,
    Double.lerpVectors (zt_startPosition t) (zt_targetPosition t) 1 cameraPosition /\
    Double.lerpVectors (zt_startTarget t) (zt_modelPosition t) 1 controlsTarget /\
    s' = animateCamera_with cameraPosition controlsTarget t now s.
Proof.
  intros Hdone (e & pos & tgt & [_ He] & Hpos & Htgt & ->).
  rewrite progress_done in He by lra.
  rewrite (He easeInOutCubic_1) in Hpos, Htgt.
  exists pos, tgt. auto.
Qed.

Lemma animateReset_double_done t now s s' :
  1500 <= now - rt_startTime t ->
  animateReset_double t now s s' ->
  exists cameraPosition controlsTarget,
    Double.lerpVectors (rt_startPosition t) finalCameraPosition 1 cameraPosition /\
    Double.lerpVectors (rt_startTarget t) (vec3 0 0 6) 1 controlsTarget /\
    s' = animateReset_with cameraPosition controlsTarget t now s.
Proof.
  intros Hdone (e & pos & tgt & [_ He] & Hpos & Htgt & ->).
  rewrite progress_done in He by lra.
  assert (easeOutCubic 1 = 1) as H1 by (unfold easeOutCubic; simpl; lra).
  rewrite (He H1) in Hpos, Htgt.
  exists pos, tgt. auto.
Qed.

Lemma bounded_anchor M : 8 <= M -> bounded M finalCameraPosition /\ bounded M (vec3 0 0 6).
Proof.
  intros H. unfold bounded, finalCameraPosition. cbn [vx vy vz].
  repeat split; apply Rabs_le; lra.
Qed.

Lemma Double_slack_small M :
  0 <= M <= 1000000 -> Double.u * M + Double.eta < / 1000000000.
Proof.
  intros [H0 H1]. pose proof Double_eta_le_u as He. pose proof Double_u_range as [Hu _].
  assert (Double.u * M <= Double.u * 1000000) by nra.
  unfold Double.u in *. lra.
Qed.

(** C4, as amended.  Round trip.  Whatever Idle state [idle] the focus
    started from and whatever pose the camera had then, the call of
    [animateReset] that completes the reset tween, computed in doubles,
    leaves the camera within six roundings of (0, 2, 8) and the look-target
    within six roundings of (0, 0, 6), for a start pose of size at most
    [M]; the zoom limits are 3 and 100 exactly, which are the limits [idle]
    had, and [isZooming] and [selectedModel] are cleared.  The anchor is a
    constant: the idle orbit keeps the camera at height at most 1, so the
    pose before the click is not what is restored. *)
Theorem reset_round_trip idle t now s s' M :
  reachable idle -> phase idle = Idle ->
  1500 <= now - rt_startTime t ->
  animateReset_double t now s s' ->
  8 <= M <= 1000000 ->
  bounded M (rt_startPosition t) -> bounded M (rt_startTarget t) ->
  let tol := 6 * (Double.u * M + Double.eta) in
  near tol (cam_position (camera s')) (vec3 0 2 8) /\
  near tol (target (controls s')) (vec3 0 0 6) /\
  tol < 6 / 1000000000 /\
  minDistance (controls s') = 3 /\
  maxDistance (controls s') = 100 /\
  minDistance (controls s') = minDistance (controls idle) /\
  maxDistance (controls s') = maxDistance (controls idle) /\
  isZooming s' = false /\
  selectedModel s' = None /\
  raf s' = raf s /\
  (forall time s0,
     cam_position (camera (orbit_camera time s0)) <> cam_position (camera s')).
Proof.
  intros Hr Hp Hdone Hdbl [HM HM'] Hbp Hbt tol.
  pose proof (reachable_single_flight idle Hr) as Hsf.
  apply (idle_phase_iff idle Hsf) in Hp.
  destruct (reachable_idle_limits idle Hr Hp) as [Hmin Hmax].
  destruct (animateReset_double_done t now s s' Hdone Hdbl)
    as (pos & tgt & Hpos & Htgt & ->).
  rewrite animateReset_with_done by exact Hdone.
  destruct (bounded_anchor M HM) as [Hba Hbt'].
  pose proof (Double_lerpVectors_end _ _ _ M Hbp Hba Hpos) as Hnp.
  pose proof (Double_lerpVectors_end _ _ _ M Hbt Hbt' Htgt) as Hnt.
  assert (tol < 6 / 1000000000) as Htol.
  { pose proof (Double_slack_small M). unfold tol. lra. }
  project. rewrite Hmin, Hmax.
  split; [exact Hnp | ]. split; [exact Hnt | ]. split; [exact Htol | ].
  repeat (split; [reflexivity | ]).
  intros time s0 Heq.
  pose proof (orbit_camera_below_anchor time s0) as Hb.
  rewrite Heq in Hb.
  destruct Hnp as (_ & Hy & _). unfold finalCameraPosition in Hy. cbn [vy] in Hy.
  apply Rabs_le_between in Hy. fold tol in Hy. lra.
Qed.
(** ** The completing step on binary64 numbers *)

Lemma Double_lerp_same v : Double.lerp v v 1 v.
Proof.
  pose proof (Double_lerp_exact v v 1) as H.
  replace (v + (v - v) * 1) with v in H by ring. exact H.
Qed.

Lemma Double_lerpVectors_same v : Double.lerpVectors v v 1 v.
Proof. repeat split; apply Double_lerp_same. Qed.

Section Binary64Examples.

Import PrimFloat.

Lemma Binary64_reset_low_camera :
  Binary64.animateReset_position Binary64.low_camera 0%float 1500%float
  = (0%float, Binary64.below_2, 8%float).
Proof. vm_compute. reflexivity. Qed.

Lemma Binary64_low_height :
  Binary64.to_R Binary64.low_height = - 7205759403792794 / 2 ^ 57.
Proof.
  unfold Binary64.to_R.
  replace (FloatOps.Prim2SF Binary64.low_height)
    with (SpecFloat.S754_finite true 7205759403792794 (-57))
    by (vm_compute; reflexivity).
  cbn [powerRZ]. replace (Pos.to_nat 57) with 57%nat by reflexivity. lra.
Qed.

Lemma Binary64_below_2 : Binary64.to_R Binary64.below_2 = 2 - / 2 ^ 52.
Proof.
  unfold Binary64.to_R.
  replace (FloatOps.Prim2SF Binary64.below_2)
    with (SpecFloat.S754_finite false 9007199254740991 (-52))
    by (vm_compute; reflexivity).
  cbn [powerRZ]. replace (Pos.to_nat 52) with 52%nat by reflexivity. lra.
Qed.

(** The doubles of that step: the difference [2 - low_height] is rounded,
    the product with 1 is exact, and the sum is rounded to [below_2]. *)
Lemma Binary64_low_difference :
  (2 - Binary64.low_height)%float = ((2 - Binary64.low_height) * 1)%float /\
  Binary64.to_R (2 - Binary64.low_height)%float = 4616189618054758 / 2 ^ 51 /\
  (Binary64.low_height + (2 - Binary64.low_height) * 1)%float = Binary64.below_2.
Proof.
  split; [vm_compute; reflexivity | ]. split; [ | vm_compute; reflexivity].
  unfold Binary64.to_R.
  replace (FloatOps.Prim2SF (2 - Binary64.low_height)%float)
    with (SpecFloat.S754_finite false 4616189618054758 (-51))
    by (vm_compute; reflexivity).
  cbn [powerRZ]. replace (Pos.to_nat 51) with 51%nat by reflexivity. lra.
Qed.

(** The relation of double arithmetic admits what the doubles do there. *)
Lemma Double_lerp_low_height :
  Double.lerp (Binary64.to_R Binary64.low_height) 2 1
    (Binary64.to_R Binary64.below_2).
Proof.
  destruct Binary64_low_difference as (_ & Hd & _).
  exists (Binary64.to_R (2 - Binary64.low_height)%float),
         (Binary64.to_R (2 - Binary64.low_height)%float).
  rewrite Hd, Binary64_low_height, Binary64_below_2.
  pose proof Double_eta_pos as Heta.
  unfold Double.rounded, Double.u.
  split; [ | split].
  - rewrite (Rabs_right (2 - _)) by lra. apply Rabs_le. lra.
  - rewrite Rmult_1_r. rewrite (Rabs_right (_ / _)) by lra. apply Rabs_le. lra.
  - rewrite (Rabs_right (_ + _)) by lra. apply Rabs_le. lra.
Qed.

(** The call at 1500 that completes [low_tween], with the doubles of that
    step, is a step of the relation. *)
Lemma low_tween_completes :
  animateReset_double low_tween 1500 (script_state demo_startup)
    (animateReset_with (vec3 0 (Binary64.to_R Binary64.below_2) 8) (vec3 0 0 6)
       low_tween 1500 (script_state demo_startup)).
Proof.
  exists 1, (vec3 0 (Binary64.to_R Binary64.below_2) 8), (vec3 0 0 6).
  split; [split; [lra | reflexivity] | ].
  split; [ | split; [apply Double_lerpVectors_same | reflexivity]].
  unfold low_tween, finalCameraPosition, Double.lerpVectors.
  cbn [rt_startPosition vx vy vz].
  split; [apply Double_lerp_same | split; [ | apply Double_lerp_same]].
  apply Double_lerp_low_height.
Qed.

Lemma low_tween_bounds :
  bounded 8 (rt_startPosition low_tween) /\ bounded 8 (rt_startTarget low_tween).
Proof.
  unfold low_tween, bounded. cbn [rt_startPosition rt_startTarget vx vy vz].
  rewrite Binary64_low_height.
  repeat split; apply Rabs_le; lra.
Qed.

(** C4 as stated fails.  A reset tween that starts with the camera 0.05
    below the floor, at (0, -0.05, 8), and is completed by the call at 1500
    leaves the camera at height 1.9999999999999998, the largest double
    below 2, and not at (0, 2, 8): the last step computes
    [-0.05 + (2 - -0.05) * 1], where the difference is rounded.  The real
    number that double stands for is 2 - 2^-52, and the relation of double
    arithmetic admits the step. *)
Lemma reset_anchor_counterexample :
  Binary64.animateReset_position Binary64.low_camera 0%float 1500%float
    = (0%float, Binary64.below_2, 8%float) /\
  Binary64.animateReset_position Binary64.low_camera 0%float 1500%float
    <> (0, 2, 8)%float /\
  Binary64.to_R Binary64.below_2 = 2 - / 2 ^ 52 /\
  exists s',
    1500 <= 1500 - rt_startTime low_tween /\
    animateReset_double low_tween 1500 (script_state demo_startup) s' /\
    cam_position (camera s') = vec3 0 (Binary64.to_R Binary64.below_2) 8 /\
    cam_position (camera s') <> vec3 0 2 8.
Proof.
  split; [exact Binary64_reset_low_camera | ].
  split.
  { rewrite Binary64_reset_low_camera. intros H.
    apply (f_equal (fun v => eqb (snd (fst v)) 2%float)) in H.
    vm_compute in H. discriminate H. }
  split; [exact Binary64_below_2 | ].
  assert (1500 <= 1500 - rt_startTime low_tween) as Hdone
    by (cbn [rt_startTime low_tween]; lra).
  exists (animateReset_with (vec3 0 (Binary64.to_R Binary64.below_2) 8) (vec3 0 0 6)
            low_tween 1500 (script_state demo_startup)).
  split; [exact Hdone | ].
  split; [exact low_tween_completes | ].
  rewrite animateReset_with_done by exact Hdone. project.
  split; [reflexivity | ].
  intros H. apply (f_equal vy) in H. cbn [vy] in H.
  rewrite Binary64_below_2 in H. lra.
Qed.

Lemma Binary64_focus_contact :
  Binary64.animateCamera_position Binary64.contact_position
    (Binary64.contact_maxDimension * 2)%float Binary64.startup_camera 0%float 1200%float
  = Binary64.contact_end.
Proof. vm_compute. reflexivity. Qed.

End Binary64Examples.

(** ** The focus-in tween of the example on binary64 numbers *)

Lemma Double_rounded_pos x y :
  0 <= x -> - (Double.u * x) <= y - x <= Double.u * x -> Double.rounded x y.
Proof.
  intros Hx H. unfold Double.rounded. rewrite (Rabs_right x) by lra.
  pose proof Double_eta_pos. apply Rabs_le. lra.
Qed.

Lemma Double_rounded_neg x y :
  x <= 0 -> Double.u * x <= y - x <= - (Double.u * x) -> Double.rounded x y.
Proof.
  intros Hx H. unfold Double.rounded. rewrite (Rabs_left1 x) by lra.
  pose proof Double_eta_pos. apply Rabs_le. lra.
Qed.

Lemma Double_lerp_to v1 v2 : Double.lerp v1 v2 1 v2.
Proof.
  exists (v2 - v1), (v2 - v1).
  split; [apply Double_rounded_exact | ].
  split.
  - replace ((v2 - v1) * 1) with (v2 - v1) by ring. apply Double_rounded_exact.
  - replace (v1 + (v2 - v1)) with v2 by ring. apply Double_rounded_exact.
Qed.

Lemma Binary64_contact_size :
  contact_size_double
  = vec3 (5404319552844595 / 2 ^ 53) (7205759403792794 / 2 ^ 54)
         (7205759403792794 / 2 ^ 56).
Proof. reflexivity. Qed.

Lemma Binary64_contact_target :
  Binary64.to_Vector3 Binary64.contact_target
  = vec3 1 (7205759403792794 / 2 ^ 55) (8106479329266893 / 2 ^ 50).
Proof.
  unfold Binary64.contact_target, Binary64.contact_position, Binary64.to_Vector3.
  f_equal. change (Binary64.to_R _) with (4503599627370496 / 2 ^ 52). lra.
Qed.

Lemma Binary64_contact_end :
  Binary64.to_Vector3 Binary64.contact_end
  = vec3 1 (7205759403792896 / 2 ^ 55) (8106479329266892 / 2 ^ 50).
Proof.
  unfold Binary64.contact_end, Binary64.to_Vector3.
  f_equal. change (Binary64.to_R _) with (4503599627370496 / 2 ^ 52). lra.
Qed.

Lemma Binary64_fifth : Binary64.to_R Binary64.fifth = 7205759403792794 / 2 ^ 55.
Proof. reflexivity. Qed.

Lemma maxDimension_contact_double :
  maxDimension_of contact_size_double = 5404319552844595 / 2 ^ 53.
Proof.
  rewrite Binary64_contact_size. unfold maxDimension_of. cbn [vx vy vz].
  rewrite (Rmax_left (5404319552844595 / 2 ^ 53)) by lra. apply Rmax_left. lra.
Qed.

(** The tween of the example is one [zoomToModel] can build in doubles, and
    the pose the doubles leave at its completion is a step of the relation. *)
Lemma contact_tween_double_built :
  zoom_tween_double (0%nat, []) contact_paper contact_size_double 0 contact_scene
    contact_tween_double.
Proof.
  exists (Binary64.to_Vector3 Binary64.contact_target). split; [ | reflexivity].
  exists (Binary64.to_R Binary64.fifth).
  rewrite Binary64_fifth, Binary64_contact_target, maxDimension_contact_double.
  unfold Double.add. cbn [position contact_paper vx vy vz].
  split; [apply Double_rounded_pos; unfold Double.u; lra | ].
  split; [apply Double_rounded_pos; unfold Double.u; lra | ].
  split; apply Double_rounded_pos; unfold Double.u; lra.
Qed.

Lemma contact_tween_double_completes :
  animateCamera_double contact_tween_double 1200 contact_scene
    (animateCamera_with (Binary64.to_Vector3 Binary64.contact_end) (vec3 1 0 6)
       contact_tween_double 1200 contact_scene).
Proof.
  exists 1, (Binary64.to_Vector3 Binary64.contact_end), (vec3 1 0 6).
  split; [split; [lra | reflexivity] | ].
  split; [ | split; [ | reflexivity]].
  - unfold contact_tween_double. cbn [zt_startPosition zt_targetPosition].
    rewrite Binary64_contact_target, Binary64_contact_end.
    unfold Double.lerpVectors. cbn [vx vy vz camera cam_position contact_scene
      with_papers script_state demo_startup].
    split; [apply Double_lerp_to | split].
    + exists (- 7022800668930867 / 2 ^ 46), (- 7022800668930867 / 2 ^ 46).
      split; [apply Double_rounded_neg; unfold Double.u; lra | ].
      split; [apply Double_rounded_neg; unfold Double.u; lra | ].
      apply Double_rounded_pos; unfold Double.u; lra.
    + exists (- 7205759403792794 / 2 ^ 49), (- 7205759403792794 / 2 ^ 49).
      split; [apply Double_rounded_neg; unfold Double.u; lra | ].
      split; [apply Double_rounded_neg; unfold Double.u; lra | ].
      apply Double_rounded_pos; unfold Double.u; lra.
  - unfold contact_tween_double. cbn [zt_startTarget zt_modelPosition].
    split; [ | split]; apply Double_lerp_to.
Qed.

(** ** Where the focus-in tween leaves the camera, in double arithmetic *)

(** The pose at the call that completes a focus-in tween built by
    [zoomToModel], against the position of the model moved by
    (0, 0.2, zoomDistance). *)
Lemma focus_end_pose model o modelSize start s0 t now s s' M :
  zoom_tween_double model o modelSize start s0 t ->
  1200 <= now - start ->
  animateCamera_double t now s s' ->
  1 <= M -> bounded M (position o) ->
  bounded M (cam_position (camera s0)) -> bounded M (target (controls s0)) ->
  Rabs (maxDimension_of modelSize * 2) <= M ->
  near (21 * (Double.u * M + Double.eta)) (cam_position (camera s'))
       (add (position o) (vec3 0 0.2 (maxDimension_of modelSize * 2))) /\
  near (21 * (Double.u * M + Double.eta)) (target (controls s')) (position o) /\
  cam_orientation (camera s') = LookAt (position o) /\
  enabled (controls s') = true /\
  minDistance (controls s') = maxDimension_of modelSize * 2 * 0.5 /\
  maxDistance (controls s') = maxDimension_of modelSize * 2 * 2.
Proof.
  intros (tp & Htp & ->) Hdone Hdbl HM Hbm Hbc Hbt Hzd.
  destruct (targetPosition_double_near _ _ _ M HM Hbm Hzd Htp) as [Hnear Hbtp].
  assert (1200 <= now - zt_startTime
            (mkZoomTween model (position o) (maxDimension_of modelSize * 2) tp
               (cam_position (camera s0)) (target (controls s0)) start)) as Hdone'
    by exact Hdone.
  destruct (animateCamera_double_done _ now s s' Hdone' Hdbl)
    as (pos & tgt & Hpos & Htgt & ->).
  cbn [zt_startPosition zt_targetPosition zt_startTarget zt_modelPosition] in Hpos, Htgt.
  pose proof Double_u_range as [Hu0 Hu1]. pose proof Double_eta_pos as Heta.
  assert (0 <= Double.u * M) as HuM by nra.
  assert (M <= 3 * M) as HM3 by lra.
  pose proof (Double_lerpVectors_end _ _ _ (3 * M)
                (bounded_le M (3 * M) _ HM3 Hbc) Hbtp Hpos) as Hnp.
  pose proof (Double_lerpVectors_end _ _ _ M Hbt Hbm Htgt) as Hnt.
  destruct (animateCamera_with_pose pos tgt
              (mkZoomTween model (position o) (maxDimension_of modelSize * 2) tp
                 (cam_position (camera s0)) (target (controls s0)) start) now s)
    as (-> & -> & ->).
  split.
  { eapply near_le; [ | exact (near_trans _ _ _ _ _ Hnp Hnear)]. lra. }
  split; [eapply near_le; [ | exact Hnt]; lra | ].
  split; [reflexivity | ].
  rewrite animateCamera_with_done by exact Hdone'.
  match goal with |- context [showContent ?m ?x] =>
    destruct (showContent_frame m x) as (_ & _ & _ & _ & -> & _) end.
  project. auto.
Qed.

(** C2, as amended.  At the call that completes a focus-in tween, computed
    in doubles, the camera is, within floating-point tolerance, at the
    position the model had when the tween started, moved by
    (0, 0.2, 2 * maxDimension): twice the largest extent of the bounding box
    along z, and 0.2 up.  The look-target is, within that tolerance, that
    position of the model, and the distance between camera and model is
    sqrt(0.04 + (2 * maxDimension)^2) up to twice the tolerance.  The
    tolerance is 21 roundings of a number of size [M], where [M] bounds the
    coordinates of the model, of the pose the tween started from, and the
    zoom distance. *)
Theorem focus_in_final_camera model o modelSize start s0 t now s s' M :
  zoom_tween_double model o modelSize start s0 t ->
  1200 <= now - start ->
  animateCamera_double t now s s' ->
  1 <= M -> bounded M (position o) ->
  bounded M (cam_position (camera s0)) -> bounded M (target (controls s0)) ->
  Rabs (2 * maxDimension_of modelSize) <= M ->
  let tol := 21 * (Double.u * M + Double.eta) in
  near tol (cam_position (camera s'))
    (add (position o) (vec3 0 0.2 (2 * maxDimension_of modelSize))) /\
  near tol (sub (cam_position (camera s')) (position o))
    (vec3 0 0.2 (2 * maxDimension_of modelSize)) /\
  near tol (target (controls s')) (position o) /\
  Rabs (distanceTo (cam_position (camera s')) (position o)
        - sqrt (0.04 + (2 * maxDimension_of modelSize) * (2 * maxDimension_of modelSize)))
  <= 2 * tol.
Proof.
  intros Ht Hdone Hdbl HM Hbm Hbc Hbt Hzd tol.
  replace (2 * maxDimension_of modelSize) with (maxDimension_of modelSize * 2) in * by lra.
  destruct (focus_end_pose model o modelSize start s0 t now s s' M
              Ht Hdone Hdbl HM Hbm Hbc Hbt Hzd) as (Hpos & Htgt & _).
  fold tol in Hpos, Htgt.
  split; [exact Hpos | ].
  split.
  { destruct Hpos as (Hx & Hy & Hz). unfold near, sub, add in *. cbn [vx vy vz] in *.
    repeat split; [eapply Rle_trans; [ | exact Hx] | eapply Rle_trans; [ | exact Hy]
                  | eapply Rle_trans; [ | exact Hz]]; right; f_equal; ring. }
  split; [exact Htgt | ].
  rewrite <- (distance_of_offset (position o)).
  apply distanceTo_near, Hpos.
Qed.
(** ** The focus-in tween does not overshoot *)

Lemma progress_range elapsed duration :
  0 < duration -> 0 <= elapsed -> 0 <= Rmin (elapsed / duration) 1 <= 1.
Proof.
  intros Hd He. pose proof (progress_nonneg elapsed duration Hd He).
  split; [apply Rmin_glb; lra | apply Rmin_r].
Qed.

(** X11.  The focus-in tween does not overshoot.  At every call of
    [animateCamera] that comes no earlier than the start of its tween,
    computed in doubles, the camera lies in the box spanned by the start
    position and the target position of the tween, give or take six
    roundings of a number of size [M], where [M] bounds the coordinates of
    the four corners; the point the controls orbit lies, with the same
    margin, in the box spanned by the start target and the position of the
    model; and the camera looks at the model. *)
Theorem focus_tween_stays_between t now s s' M :
  zt_startTime t <= now ->
  animateCamera_double t now s s' ->
  bounded M (zt_startPosition t) -> bounded M (zt_targetPosition t) ->
  bounded M (zt_startTarget t) -> bounded M (zt_modelPosition t) ->
  let tol := 6 * (Double.u * M + Double.eta) in
  in_box_within tol (zt_startPosition t) (zt_targetPosition t)
    (cam_position (camera s')) /\
  in_box_within tol (zt_startTarget t) (zt_modelPosition t)
    (target (controls s')) /\
  cam_orientation (camera s') = LookAt (zt_modelPosition t).
Proof.
  intros Hstart (e & pos & tgt & [He _] & Hpos & Htgt & ->) Hb1 Hb2 Hb3 Hb4 tol.
  assert (0 <= e <= 1) as Hrange.
  { apply He.
    destruct (progress_range (now - zt_startTime t) 1200) as [H0 H1]; [lra | lra | ].
    apply easeInOutCubic_range; assumption. }
  destruct (animateCamera_with_pose pos tgt t now s) as (-> & -> & ->).
  split; [ | split; [ | reflexivity]].
  - exact (Double_lerpVectors_in_box _ _ e pos M Hb1 Hb2 Hrange Hpos).
  - exact (Double_lerpVectors_in_box _ _ e tgt M Hb3 Hb4 Hrange Htgt).
Qed.

(** ** The zoom range at the end of the focus-in tween *)

Lemma sqrt_above a b : 0 <= a -> a * a <= b -> a <= sqrt b.
Proof.
  intros Ha Hab. rewrite <- (sqrt_square a) by exact Ha. apply sqrt_le_1_alt, Hab.
Qed.

Lemma sqrt_below a b : 0 <= a -> 0 <= b -> b <= a * a -> sqrt b <= a.
Proof.
  intros Ha Hb Hab. rewrite <- (sqrt_square a) by exact Ha. apply sqrt_le_1_alt, Hab.
Qed.

(** X9.  Where the focus-in tween leaves the camera, against the zoom range
    it sets.  For a bounding box with largest extent [m >= 0] the tween,
    computed in doubles, ends with [minDistance = m] and [maxDistance = 4m],
    and with the camera at distance sqrt(0.04 + (2m)^2) from the point the
    controls orbit, up to 84 roundings of a number of size [M], which is
    less than 10^-7 for a scene within a million units.  The distance is
    above [minDistance]; it is below [maxDistance] when [m] is 0.0578 or
    more, and above [maxDistance] when [m] is 0.0577 or less: for a model
    that small the camera ends outside the range the controls are given. *)
Theorem focus_distance_and_limits model o modelSize start s0 t now s s' M :
  zoom_tween_double model o modelSize start s0 t ->
  1200 <= now - start ->
  animateCamera_double t now s s' ->
  1 <= M <= 1000000 -> bounded M (position o) ->
  bounded M (cam_position (camera s0)) -> bounded M (target (controls s0)) ->
  let m := maxDimension_of modelSize in
  0 <= m -> 2 * m <= M ->
  let d := distanceTo (cam_position (camera s')) (target (controls s')) in
  let tol := 21 * (Double.u * M + Double.eta) in
  Rabs (d - sqrt (0.04 + (2 * m) * (2 * m))) <= 4 * tol /\
  4 * tol < / 10000000 /\
  minDistance (controls s') = m /\ maxDistance (controls s') = 4 * m /\
  minDistance (controls s') < d /\
  (0.0578 <= m -> d < maxDistance (controls s')) /\
  (m <= 0.0577 -> maxDistance (controls s') < d).
Proof.
  intros Ht Hdone Hdbl [HM HM'] Hbm Hbc Hbt m Hm HmM d tol.
  assert (Rabs (maxDimension_of modelSize * 2) <= M) as Hzd.
  { fold m. apply Rabs_le. lra. }
  destruct (focus_end_pose model o modelSize start s0 t now s s' M
              Ht Hdone Hdbl HM Hbm Hbc Hbt Hzd)
    as (Hpos & Htgt & _ & _ & Hmin & Hmax).
  fold tol in Hpos, Htgt. fold m in Hpos, Hmin, Hmax.
  assert (4 * tol < / 10000000) as Htol.
  { pose proof (Double_slack_small M). unfold tol. lra. }
  assert (Rabs (d - sqrt (0.04 + (2 * m) * (2 * m))) <= 4 * tol) as Hd.
  { replace (2 * m) with (m * 2) by lra.
    rewrite <- (distance_of_offset (position o)).
    apply distanceTo_near_both; assumption. }
  split; [exact Hd | ]. split; [exact Htol | ].
  rewrite Hmin, Hmax.
  split; [lra | ]. split; [lra | ].
  apply Rabs_le_between in Hd.
  assert (0 <= 0.04 + 2 * m * (2 * m)) as Hpos0 by nra.
  split; [ | split].
  - assert (m + / 1000 <= sqrt (0.04 + 2 * m * (2 * m))) as Hlow
      by (apply sqrt_above; nra).
    lra.
  - intros Hbig.
    assert (sqrt (0.04 + 2 * m * (2 * m)) <= 4 * m - / 1000000) as Hup
      by (apply sqrt_below; nra).
    lra.
  - intros Hsmall.
    assert (4 * m + / 1000000 <= sqrt (0.04 + 2 * m * (2 * m))) as Hlow
      by (apply sqrt_above; nra).
    lra.
Qed.
(** ** What the typed arrays hold *)

Lemma Float32_u_range : 0 < Float32.u /\ Float32.u = / 16777216.
Proof. unfold Float32.u. split; lra. Qed.

Lemma Float32_eta_pos : 0 < Float32.eta.
Proof. unfold Float32.eta. apply Rinv_0_lt_compat, pow_lt. lra. Qed.

Lemma Float32_eta_le_u : Float32.eta <= Float32.u.
Proof.
  unfold Float32.eta, Float32.u. apply Rinv_le_contravar; [apply pow_lt; lra | ].
  apply Rle_pow; [lra | lia].
Qed.

Lemma Float32_rounding_id : Float32.rounding (fun x => x).
Proof.
  intros x. unfold Float32.stored. replace (x - x) with 0 by lra. rewrite Rabs_R0.
  pose proof Float32_u_range as [Hu _]. pose proof Float32_eta_pos.
  pose proof (Rabs_pos x). nra.
Qed.

(** An element holds its number up to one part in 2^24 of a bound on the
    number. *)
Lemma Float32_error fround x B :
  Float32.rounding fround -> Rabs x <= B ->
  Rabs (fround x - x) <= (B + 1) / 16777216.
Proof.
  intros Hf Hx. pose proof (Hf x) as H. unfold Float32.stored in H.
  pose proof Float32_u_range as [Hu Hu']. pose proof Float32_eta_le_u as He.
  rewrite Hu' in *. pose proof (Rabs_pos x). nra.
Qed.

Lemma Float32_between fround x a b B :
  Float32.rounding fround -> a <= x <= b -> - B <= a -> b <= B ->
  a - (B + 1) / 16777216 <= fround x <= b + (B + 1) / 16777216.
Proof.
  intros Hf [Ha Hb] HBa HBb.
  assert (Rabs x <= B) as Hx by (apply Rabs_le; lra).
  pose proof (Float32_error fround x B Hf Hx) as He.
  apply Rabs_le_between in He. lra.
Qed.

Lemma add_sub_same p q : p = add q (sub p q).
Proof. destruct p, q. unfold add, sub. cbn [vx vy vz]. f_equal; ring. Qed.

Lemma norm_near tol p q :
  near tol p q -> Rabs (sqrt (lengthSq p) - sqrt (lengthSq q)) <= 2 * tol.
Proof.
  intros (Hx & Hy & Hz).
  assert (sqrt (lengthSq (sub p q)) <= 2 * tol) as Hpq
    by (apply norm_small; assumption).
  assert (sqrt (lengthSq (sub q p)) <= 2 * tol) as Hqp.
  { apply norm_small; cbn [sub vx vy vz]; rewrite Rabs_minus_sym; assumption. }
  pose proof (norm_triangle q (sub p q)) as H1. rewrite <- add_sub_same in H1.
  pose proof (norm_triangle p (sub q p)) as H2. rewrite <- add_sub_same in H2.
  apply Rabs_le. lra.
Qed.

Lemma coordinate_le_norm p r :
  0 <= r -> lengthSq p <= r * r ->
  Rabs (vx p) <= r /\ Rabs (vy p) <= r /\ Rabs (vz p) <= r.
Proof.
  intros Hr Hp. unfold lengthSq in Hp.
  repeat split; apply Rabs_le; split; nra.
Qed.

(** What [store_point] leaves of the position of a point, for coordinates
    of size at most [B]. *)
Lemma store_point_position fround p B :
  Float32.rounding fround -> bounded B (point_position p) ->
  near ((B + 1) / 16777216) (point_position (store_point fround p)) (point_position p).
Proof.
  intros Hf (Hx & Hy & Hz). unfold near, store_point. cbn [point_position vx vy vz].
  repeat split; apply Float32_error; assumption.
Qed.

(** One turn of the loop of [createStarField], before the typed arrays. *)
Lemma createStar_computed d :
  unit_interval (draw_radius d) -> unit_interval (draw_phi d) ->
  unit_interval (draw_size d) -> unit_interval (draw_brightness d) ->
  let r := 300 + draw_radius d * 900 in
  let p := createStar d in
  300 <= r < 1200 /\
  lengthSq (point_position p) = r * r /\
  vz (point_position p) = r * (draw_phi d * 2 - 1) /\
  0.5 <= point_size p < 2.5 /\
  0.7 <= red (point_color p) <= 1 /\
  0.3 <= green (point_color p) <= 1 /\
  0.3 <= blue (point_color p) <= 1 /\
  (draw_colorType d > 0.995 -> point_color p = rgb 0.7 0.8 1) /\
  (0.98 < draw_colorType d <= 0.995 -> point_color p = rgb 1 0.3 0.3) /\
  (0.95 < draw_colorType d <= 0.98 -> point_color p = rgb 1 0.9 0.5) /\
  (draw_colorType d <= 0.95 ->
   point_color p = rgb (0.9 + draw_brightness d * 0.1) (0.9 + draw_brightness d * 0.1)
                       (0.9 + draw_brightness d * 0.1)).
Proof.
  intros [Hr0 Hr1] [Hp0 Hp1] [Hs0 Hs1] Hb r p. subst r p.
  split; [lra | ].
  split; [unfold createStar; cbv zeta; cbn [point_position]; apply spherical_lengthSq | ].
  split.
  { unfold createStar. cbv zeta. cbn [point_position vz].
    rewrite cos_acos by lra. reflexivity. }
  split; [unfold createStar; cbv zeta; cbn [point_size]; lra | ].
  destruct (createStar_color d Hb) as (Hred & Hgreen & Hblue).
  split; [exact Hred | split; [exact Hgreen | split; [exact Hblue | ]]].
  destruct Hb as [Hb0 Hb1].
  unfold createStar. cbv zeta. cbn [point_color]. split; [ | split; [ | split]].
  - intros Hc. destruct (Rgt_dec _ 0.995); [reflexivity | contradiction].
  - intros [Hc1 Hc2]. destruct (Rgt_dec _ 0.995); [lra | ].
    destruct (Rgt_dec _ 0.98) as [ | n0]; [reflexivity | destruct n0; lra].
  - intros [Hc1 Hc2]. destruct (Rgt_dec _ 0.995); [lra | ].
    destruct (Rgt_dec _ 0.98); [lra | ].
    destruct (Rgt_dec _ 0.95) as [ | n1]; [reflexivity | destruct n1; lra].
  - intros Hc.
    destruct (Rgt_dec _ 0.995); [lra | ].
    destruct (Rgt_dec _ 0.98); [lra | ].
    destruct (Rgt_dec _ 0.95); [lra | ].
    reflexivity.
Qed.

(** X20.  The star field is a shell around the scene.  Fed with results of
    [Math.random()], [createStarField] fills its typed arrays with 25000
    points.  What the arrays hold is what the loop computes, rounded to
    binary32: each point lies at a distance from the origin that is within
    a thousandth of a number between 300 and 1200, at a height [z] within a
    thousandth of that number times a number drawn evenly between -1 and 1;
    its size is between 0.5 and 2.5 and no colour channel is below 0.3 or
    above 1, give or take a millionth; and its colour is the rounded blue,
    red or yellow of the source when [colorType] exceeds 0.995, 0.98 or
    0.95, and otherwise a grey, the three channels equal, of brightness 0.9
    or more, give or take a millionth. *)
Theorem star_field_shell fround draws :
  Float32.rounding fround ->
  (forall i, unit_interval (draw_radius (draws i)) /\
             unit_interval (draw_phi (draws i)) /\
             unit_interval (draw_size (draws i)) /\
             unit_interval (draw_brightness (draws i))) ->
  length (starField_attributes fround draws) = (25 * 1000)%nat /\
  forall p, In p (starField_attributes fround draws) ->
    exists i, p = store_point fround (createStar (draws i)) /\
      let r := 300 + draw_radius (draws i) * 900 in
      300 <= r < 1200 /\
      Rabs (sqrt (lengthSq (point_position p)) - r) <= / 1000 /\
      Rabs (vz (point_position p) - r * (draw_phi (draws i) * 2 - 1)) <= / 1000 /\
      0.5 - / 1000000 <= point_size p <= 2.5 + / 1000000 /\
      0.7 - / 1000000 <= red (point_color p) <= 1 + / 1000000 /\
      0.3 - / 1000000 <= green (point_color p) <= 1 + / 1000000 /\
      0.3 - / 1000000 <= blue (point_color p) <= 1 + / 1000000 /\
      (draw_colorType (draws i) > 0.995 ->
       point_color p = rgb (fround 0.7) (fround 0.8) (fround 1)) /\
      (0.98 < draw_colorType (draws i) <= 0.995 ->
       point_color p = rgb (fround 1) (fround 0.3) (fround 0.3)) /\
      (0.95 < draw_colorType (draws i) <= 0.98 ->
       point_color p = rgb (fround 1) (fround 0.9) (fround 0.5)) /\
      (draw_colorType (draws i) <= 0.95 ->
       red (point_color p) = green (point_color p) /\
       green (point_color p) = blue (point_color p) /\
       0.9 - / 1000000 <= red (point_color p)).
Proof.
  intros Hf Hdraws. unfold starField_attributes, createStarField.
  split; [rewrite !length_map, length_seq; reflexivity | ].
  intros p Hin. rewrite List.map_map in Hin.
  apply in_map_iff in Hin as (i & <- & _).
  destruct (Hdraws i) as (Hr & Hp & Hs & Hb).
  exists i. split; [reflexivity | ]. cbv zeta.
  destruct (createStar_computed (draws i) Hr Hp Hs Hb)
    as (Hrange & Hlen & Hz & Hsize & Hred & Hgreen & Hblue & Hc1 & Hc2 & Hc3 & Hc4).
  set (r := 300 + draw_radius (draws i) * 900) in *.
  set (c := createStar (draws i)) in *.
  assert (bounded 1200 (point_position c)) as Hbound.
  { destruct (coordinate_le_norm (point_position c) r) as (Hx & Hy & Hz'); [lra | lra | ].
    repeat split; lra. }
  pose proof (store_point_position fround c 1200 Hf Hbound) as Hnear.
  split; [exact Hrange | ].
  split.
  { pose proof (norm_near _ _ _ Hnear) as Hn.
    rewrite Hlen, sqrt_square in Hn by lra.
    eapply Rle_trans; [exact Hn | lra]. }
  split.
  { destruct Hnear as (_ & _ & Hnz). rewrite <- Hz.
    eapply Rle_trans; [exact Hnz | lra]. }
  cbn [store_point point_size point_color red green blue].
  split.
  { pose proof (Float32_between fround (point_size c) 0.5 2.5 2.5 Hf) as H. lra. }
  split.
  { pose proof (Float32_between fround (red (point_color c)) 0.7 1 1 Hf) as H. lra. }
  split.
  { pose proof (Float32_between fround (green (point_color c)) 0.3 1 1 Hf) as H. lra. }
  split.
  { pose proof (Float32_between fround (blue (point_color c)) 0.3 1 1 Hf) as H. lra. }
  split; [intros H; rewrite (Hc1 H); reflexivity | ].
  split; [intros H; rewrite (Hc2 H); reflexivity | ].
  split; [intros H; rewrite (Hc3 H); reflexivity | ].
  intros H. rewrite (Hc4 H). cbn [red green blue].
  split; [reflexivity | split; [reflexivity | ]].
  destruct Hb as [Hb0 Hb1].
  pose proof (Float32_between fround (0.9 + draw_brightness (draws i) * 0.1) 0.9 1 1 Hf)
    as H'. lra.
Qed.
(** X21.  The nebula clouds lie far behind the scene.  Fed with results of
    [Math.random()], [createNebulaClouds] makes four clouds of 1000 points,
    each moved back by 1000.  What the typed arrays hold is what the loop
    computes, rounded to binary32: every point is within the scale of its
    cloud from the centre of the cloud, give or take a thousandth, so in
    the scene its depth [z] is between -2880 and -2050, give or take a
    thousandth; its colour is the rounded tenth of the colour of its cloud
    and its size is between 5 and 15, give or take a millionth. *)
Theorem nebula_behind_scene fround colors draws :
  Float32.rounding fround ->
  (forall k i, unit_interval (ndraw_radius (draws k i)) /\
               unit_interval (ndraw_phi (draws k i)) /\
               unit_interval (ndraw_size (draws k i))) ->
  length (nebulaClouds_attributes fround colors draws) = 4%nat /\
  forall k cloud, nebulaClouds_attributes fround colors draws !! k = Some cloud ->
    points_position cloud = vec3 0 0 (-1000) /\
    length (points_geometry cloud) = 1000%nat /\
    exists centre scale, nebula_sites !! k = Some (centre, scale) /\
      forall p, In p (points_geometry cloud) ->
        distanceTo (point_position p) centre <= scale + / 1000 /\
        -2880 - / 1000 <= vz (world_position cloud p) <= -2050 + / 1000 /\
        point_color p = rgb (fround (red (colors k) * 0.1))
                            (fround (green (colors k) * 0.1))
                            (fround (blue (colors k) * 0.1)) /\
        5 - / 1000000 <= point_size p <= 15 + / 1000000.
Proof.
  intros Hf Hdraws. split; [reflexivity | ].
  intros k cloud Hk.
  assert (forall centre scale,
            0 < scale <= 300 -> bounded 1600 centre ->
            -1880 <= vz centre - scale -> vz centre + scale <= -1050 ->
            nebula_sites !! k = Some (centre, scale) ->
            cloud = store_cloud fround
                      (move_back (createNebulaCloud (colors k) centre scale (draws k))) ->
            points_position cloud = vec3 0 0 (-1000) /\
            length (points_geometry cloud) = 1000%nat /\
            exists centre scale, nebula_sites !! k = Some (centre, scale) /\
              forall p, In p (points_geometry cloud) ->
                distanceTo (point_position p) centre <= scale + / 1000 /\
                -2880 - / 1000 <= vz (world_position cloud p) <= -2050 + / 1000 /\
                point_color p = rgb (fround (red (colors k) * 0.1))
                                    (fround (green (colors k) * 0.1))
                                    (fround (blue (colors k) * 0.1)) /\
                5 - / 1000000 <= point_size p <= 15 + / 1000000) as Hcloud.
  { intros centre scale [Hscale Hscale'] Hcentre Hlo Hhi Hsite ->.
    cbn [points_position points_geometry store_cloud move_back createNebulaCloud vx vy vz].
    split; [f_equal; lra | ].
    split; [rewrite !length_map, length_seq; reflexivity | ].
    exists centre, scale. split; [exact Hsite | ].
    intros p Hin. rewrite List.map_map in Hin.
    apply in_map_iff in Hin as (i & <- & _).
    destruct (Hdraws k i) as (Hr & Hp & Hs).
    destruct (nebula_particle (colors k) centre scale (draws k i) Hscale Hr Hp Hs)
      as (Hnear & Hz & Hcol & Hsize).
    set (c := createNebulaParticle (colors k) centre scale (draws k i)) in *.
    assert (bounded 1900 (point_position c)) as Hbound.
    { destruct (coordinate_le_norm (sub (point_position c) centre) scale)
        as (Hx & Hy & Hz'); [lra | exact Hnear | ].
      destruct Hcentre as (Hcx & Hcy & Hcz). cbn [sub vx vy vz] in Hx, Hy, Hz'.
      apply Rabs_le_between in Hx, Hy, Hz', Hcx, Hcy, Hcz.
      repeat split; apply Rabs_le; lra. }
    pose proof (store_point_position fround c 1900 Hf Hbound) as Hstored.
    split.
    { pose proof (distanceTo_near _ _ _ centre Hstored) as Hd.
      apply Rabs_le_between in Hd.
      assert (distanceTo (point_position c) centre <= scale) as Hc.
      { unfold distanceTo. apply sqrt_below; [lra | | exact Hnear].
        unfold lengthSq. nra. }
      lra. }
    split.
    { destruct Hstored as (_ & _ & Hsz). apply Rabs_le_between in Hsz.
      unfold world_position, add.
      cbn [vx vy vz points_position store_cloud move_back createNebulaCloud]. lra. }
    split.
    { cbn [store_point point_color]. rewrite Hcol. reflexivity. }
    cbn [store_point point_size].
    pose proof (Float32_between fround (point_size c) 5 15 15 Hf) as H. lra. }
  unfold nebulaClouds_attributes, createNebulaClouds in Hk.
  destruct k as [ | [ | [ | [ | k]]]]; cbn [imap List.map nebula_sites lookup list_lookup]
    in Hk; try discriminate; injection Hk as <-;
    (eapply Hcloud; [ | | | | reflexivity | reflexivity];
     [cbn [vz]; lra | repeat split; cbn [vx vy vz]; apply Rabs_le; lra
     | cbn [vz]; lra | cbn [vz]; lra]).
Qed.
(** * Instances *)

Lemma click_single_flight_witness :
  reachable demo_zooming /\
  (phase demo_zooming <> Idle ->
   forall intersects modelSize now,
     onClick intersects modelSize now demo_zooming = demo_zooming) /\
  (forall intersects modelSize now,
     onClick intersects modelSize now demo_zooming <> demo_zooming ->
     phase demo_zooming = Idle /\
     phase (onClick intersects modelSize now demo_zooming) = FocusTweenIn) /\
  (tweens_in (raf demo_zooming) <= 1)%nat.
Proof.
  split; [exact demo_zooming_reachable | ].
  exact (click_single_flight demo_zooming demo_zooming_reachable).
Defined.

Lemma focus_in_completion_witness :
  1200 <= 1200 - zt_startTime contact_tween /\
  minDistance (controls (animateCamera contact_tween 1200 contact_scene)) =
    0.5 * zt_zoomDistance contact_tween /\
  maxDistance (controls (animateCamera contact_tween 1200 contact_scene)) =
    2 * zt_zoomDistance contact_tween.
Proof.
  assert (1200 <= 1200 - zt_startTime contact_tween) as H by (simpl; lra).
  split; [exact H | ].
  destruct (focus_in_completion contact_tween 1200 contact_scene H)
    as (_ & Hmin & Hmax & _).
  split; [exact Hmin | exact Hmax].
Defined.

Lemma hover_highlight_witness :
  reachable demo_paper /\
  hits_exist (papers demo_paper) [(0%nat, [0%nat])] = true /\
  exists p, papers demo_hovering !! 0%nat = Some p /\ label_opacity p = Some 0.8.
Proof.
  split; [exact demo_paper_reachable | ].
  split; [exact demo_paper_hit | ].
  destruct (hover_highlight 1000 1000 [(0%nat, [0%nat])] demo_startup demo_paper
              demo_paper_reachable demo_paper_hit) as (_ & H & _).
  exact (H 0%nat eq_refl).
Defined.

Lemma hover_sound_rising_edge_witness :
  reachable demo_paper /\
  hits_exist (papers demo_paper) [(0%nat, [0%nat])] = true /\
  lastHoveredModel demo_hovering = Some (0%nat, []).
Proof.
  split; [exact demo_paper_reachable | ].
  split; [exact demo_paper_hit | ].
  exact (proj1 (hover_sound_rising_edge 1000 1000 [(0%nat, [0%nat])] demo_startup
                  demo_paper demo_paper_reachable demo_paper_hit)).
Defined.

Lemma idle_orbit_step_witness :
  reachable demo_idle /\ initialAnimationComplete demo_idle = true /\
  phase demo_idle = Idle /\
  cam_orientation (camera (animationFrame 8032 8032 [] demo_startup demo_idle))
    = LookAt (vec3 0 0.7 6).
Proof.
  split; [exact demo_idle_reachable | ].
  split; [exact (proj1 demo_idle_facts) | ].
  split; [exact (proj2 demo_idle_facts) | ].
  destruct (idle_orbit_step 8032 8032 [] demo_startup demo_idle demo_idle_reachable
              (proj1 demo_idle_facts) (proj2 demo_idle_facts))
    as (_ & _ & _ & _ & H).
  exact H.
Defined.

Lemma isZooming_held_until_reset_witness :
  reachable demo_zooming /\
  (phase demo_zooming <> Idle ->
   isZooming demo_zooming = true /\
   forall intersects modelSize now,
     onClick intersects modelSize now demo_zooming = demo_zooming).
Proof.
  split; [exact demo_zooming_reachable | ].
  destruct (isZooming_held_until_reset demo_zooming demo_zooming_reachable)
    as (_ & _ & _ & _ & H).
  exact H.
Defined.

Lemma focus_in_final_camera_witness :
  zoom_tween_double (0%nat, []) contact_paper contact_size_double 0 contact_scene
    contact_tween_double /\
  1200 <= 1200 - 0 /\
  animateCamera_double contact_tween_double 1200 contact_scene
    (animateCamera_with (Binary64.to_Vector3 Binary64.contact_end) (vec3 1 0 6)
       contact_tween_double 1200 contact_scene) /\
  1 <= 100 /\
  bounded 100 (position contact_paper) /\
  bounded 100 (cam_position (camera contact_scene)) /\
  bounded 100 (target (controls contact_scene)) /\
  Rabs (2 * maxDimension_of contact_size_double) <= 100 /\
  near (21 * (Double.u * 100 + Double.eta))
    (cam_position
       (camera (animateCamera_with (Binary64.to_Vector3 Binary64.contact_end)
                  (vec3 1 0 6) contact_tween_double 1200 contact_scene)))
    (add (position contact_paper)
         (vec3 0 0.2 (2 * maxDimension_of contact_size_double))).
Proof.
  assert (1200 <= 1200 - 0) as Hdone by lra.
  assert (1 <= 100) as HM by lra.
  assert (bounded 100 (position contact_paper)) as Hb1
    by (repeat split; simpl; apply Rabs_le; lra).
  assert (bounded 100 (cam_position (camera contact_scene))) as Hb2
    by (repeat split; simpl; apply Rabs_le; lra).
  assert (bounded 100 (target (controls contact_scene))) as Hb3
    by (repeat split; simpl; apply Rabs_le; lra).
  assert (Rabs (2 * maxDimension_of contact_size_double) <= 100) as Hzd
    by (rewrite maxDimension_contact_double; apply Rabs_le; lra).
  split; [exact contact_tween_double_built | ]. split; [exact Hdone | ].
  split; [exact contact_tween_double_completes | ].
  split; [exact HM | ]. split; [exact Hb1 | ]. split; [exact Hb2 | ].
  split; [exact Hb3 | ]. split; [exact Hzd | ].
  exact (proj1 (focus_in_final_camera (0%nat, []) contact_paper contact_size_double
                  0 contact_scene contact_tween_double 1200 contact_scene _ 100
                  contact_tween_double_built Hdone contact_tween_double_completes
                  HM Hb1 Hb2 Hb3 Hzd)).
Defined.

Lemma reset_round_trip_witness :
  reachable demo_hovering /\ phase demo_hovering = Idle /\
  1500 <= 1500 - rt_startTime low_tween /\
  animateReset_double low_tween 1500 (script_state demo_startup)
    (animateReset_with (vec3 0 (Binary64.to_R Binary64.below_2) 8) (vec3 0 0 6)
       low_tween 1500 (script_state demo_startup)) /\
  8 <= 8 <= 1000000 /\
  bounded 8 (rt_startPosition low_tween) /\ bounded 8 (rt_startTarget low_tween) /\
  near (6 * (Double.u * 8 + Double.eta))
    (cam_position
       (camera (animateReset_with (vec3 0 (Binary64.to_R Binary64.below_2) 8)
                  (vec3 0 0 6) low_tween 1500 (script_state demo_startup))))
    (vec3 0 2 8).
Proof.
  assert (phase demo_hovering = Idle) as Hp.
  { destruct demo_hovering_flags as (_ & Hz & Hraf).
    unfold phase. rewrite Hraf, Hz. reflexivity. }
  assert (1500 <= 1500 - rt_startTime low_tween) as Hdone
    by (cbn [rt_startTime low_tween]; lra).
  assert (8 <= 8 <= 1000000) as HM by lra.
  destruct low_tween_bounds as [Hb1 Hb2].
  split; [exact demo_hovering_reachable | ]. split; [exact Hp | ].
  split; [exact Hdone | ]. split; [exact low_tween_completes | ]. split; [exact HM | ].
  split; [exact Hb1 | ]. split; [exact Hb2 | ].
  exact (proj1 (reset_round_trip demo_hovering low_tween 1500
                  (script_state demo_startup) _ 8
                  demo_hovering_reachable Hp Hdone low_tween_completes HM Hb1 Hb2)).
Defined.

Lemma phase_edges_witness :
  reachable demo_hovering /\ deliverable demo_click demo_hovering /\
  event_edge demo_click (phase demo_hovering) (phase demo_zooming) = true.
Proof.
  split; [exact demo_hovering_reachable | ].
  split; [exact demo_hovering_hit | ].
  exact (phase_edges demo_click demo_hovering demo_hovering_reachable
           demo_hovering_hit).
Defined.

Lemma focus_frame_completes_witness :
  reachable demo_zooming /\ hits_exist (papers demo_zooming) [] = true /\
  exists t,
    In (cb_animateCamera t) (raf demo_zooming) /\ 1200 <= 2300 - zt_startTime t /\
    phase demo_focused = Focused /\ selectedModel demo_focused = Some (zt_model t).
Proof.
  split; [exact demo_zooming_reachable | ]. split; [reflexivity | ].
  destruct demo_zooming_facts as (t & Hraf & Ht & _).
  assert (In (cb_animateCamera t) (raf demo_zooming)) as Hin
    by (rewrite Hraf; right; right; left; reflexivity).
  assert (1200 <= 2300 - zt_startTime t) as Hdone by (rewrite Ht; lra).
  exists t. split; [exact Hin | ]. split; [exact Hdone | ].
  destruct (focus_frame_completes 2300 2300 [] demo_startup demo_zooming t
              demo_zooming_reachable eq_refl Hin Hdone) as (Hp & _ & _ & _ & Hsel & _).
  split; [exact Hp | exact Hsel].
Defined.

Lemma reset_frame_completes_witness :
  reachable demo_closing /\
  In (cb_animateReset (reset_tween_of 3000 demo_focused)) (raf demo_closing) /\
  1500 <= 4600 - rt_startTime (reset_tween_of 3000 demo_focused) /\
  phase demo_restored = Idle.
Proof.
  assert (1500 <= 4600 - rt_startTime (reset_tween_of 3000 demo_focused)) as Hdone
    by (cbn [rt_startTime reset_tween_of]; lra).
  split; [exact demo_closing_reachable | ].
  split; [exact demo_closing_reset | ]. split; [exact Hdone | ].
  exact (proj1 (reset_frame_completes 4600 4600 [] demo_startup demo_closing _
                  demo_closing_reachable demo_closing_reset Hdone)).
Defined.

Lemma overlay_shown_iff_focused_witness :
  reachable demo_focused /\
  (display (contentOverlay demo_focused) = display_block <->
   phase demo_focused = Focused).
Proof.
  split; [exact demo_focused_reachable | ].
  exact (proj1 (overlay_shown_iff_focused demo_focused demo_focused_reachable)).
Defined.

Lemma selection_is_loaded_paper_witness :
  reachable demo_zooming /\
  (selectedModel demo_zooming = None <-> phase demo_zooming = Idle).
Proof.
  split; [exact demo_zooming_reachable | ].
  exact (proj2 (selection_is_loaded_paper demo_zooming demo_zooming_reachable)).
Defined.

Lemma content_lookup_never_misses_witness :
  reachable demo_focused /\ console_errors demo_focused = [].
Proof.
  split; [exact demo_focused_reachable | ].
  exact (proj1 (content_lookup_never_misses demo_focused demo_focused_reachable)).
Defined.

Lemma papers_keep_labels_witness :
  reachable demo_paper /\ (length (papers demo_paper) <= 5)%nat.
Proof.
  split; [exact demo_paper_reachable | ].
  exact (proj1 (papers_keep_labels demo_paper demo_paper_reachable)).
Defined.

Lemma easeInOutCubic_shape_witness :
  0 <= 0.25 /\ 0.25 <= 0.75 /\ 0.75 <= 1 /\
  easeInOutCubic 0.25 <= easeInOutCubic 0.75.
Proof.
  assert (0 <= 0.25) as H1 by lra. assert (0.25 <= 0.75) as H2 by lra.
  assert (0.75 <= 1) as H3 by lra.
  split; [exact H1 | ]. split; [exact H2 | ]. split; [exact H3 | ].
  destruct (easeInOutCubic_shape 0.25 0.75 H1 H2 H3) as (_ & H & _).
  exact H.
Defined.


Lemma intro_descends_witness :
  intro_start 16 (script_state demo_startup) = 16 /\
  intro_start 8016
    (with_initialAnimationStartTime (Some 16) (script_state demo_startup)) = 16 /\
  16 <= 16 /\ 16 <= 8016 /\
  cam_position
    (camera (initialCameraAnimation 8016
               (with_initialAnimationStartTime (Some 16) (script_state demo_startup))))
  = vec3 0 2 8.
Proof.
  assert (intro_start 16 (script_state demo_startup) = 16) as H1 by reflexivity.
  assert (intro_start 8016
            (with_initialAnimationStartTime (Some 16) (script_state demo_startup)) = 16)
    as H2 by (apply intro_start_started; [reflexivity | lra]).
  assert (16 <= 16) as H3 by lra. assert (16 <= 8016) as H4 by lra.
  split; [exact H1 | ]. split; [exact H2 | ]. split; [exact H3 | ].
  split; [exact H4 | ].
  destruct (intro_descends 16 8016 (script_state demo_startup)
              (with_initialAnimationStartTime (Some 16) (script_state demo_startup))
              16 H1 H2 H3 H4) as (_ & _ & _ & _ & _ & _ & Hend).
  apply Hend. lra.
Defined.

Lemma intro_lasts_8000_witness :
  reachable demo_hovering /\ initialAnimationComplete demo_hovering = false /\
  initialAnimationStartTime demo_hovering = Some 16 /\ 16 <> 0 /\
  initialAnimationStartTime (animationFrame 2300 2300 [] demo_startup demo_hovering)
    = Some 16.
Proof.
  assert (16 <> 0) as Hv by lra.
  split; [exact demo_hovering_reachable | ].
  split; [exact (proj1 demo_hovering_intro) | ].
  split; [exact (proj2 demo_hovering_intro) | ]. split; [exact Hv | ].
  exact (proj1 (intro_lasts_8000 2300 2300 [] demo_startup demo_hovering 16
                  demo_hovering_reachable (proj1 demo_hovering_intro)
                  (proj2 demo_hovering_intro) Hv)).
Defined.

Lemma idle_orbit_accumulates_witness :
  reachable demo_idle /\ initialAnimationComplete demo_idle = true /\
  phase demo_idle = Idle /\
  all_deliverable [AnimationFrame 8032 8032 [] demo_startup;
                   AnimationFrame 8048 8048 [] demo_startup] demo_idle /\
  phase (run_events [AnimationFrame 8032 8032 [] demo_startup;
                     AnimationFrame 8048 8048 [] demo_startup] demo_idle) = Idle.
Proof.
  assert (all_deliverable [AnimationFrame 8032 8032 [] demo_startup;
                           AnimationFrame 8048 8048 [] demo_startup] demo_idle) as Hd
    by (split; [reflexivity | split; [reflexivity | exact I]]).
  split; [exact demo_idle_reachable | ].
  split; [exact (proj1 demo_idle_facts) | ].
  split; [exact (proj2 demo_idle_facts) | ]. split; [exact Hd | ].
  destruct (idle_orbit_accumulates _ demo_idle demo_idle_reachable
              (proj1 demo_idle_facts) (proj2 demo_idle_facts) Hd eq_refl)
    as (_ & Hp & _).
  exact Hp.
Defined.

Lemma idle_orbit_circle_witness :
  reachable demo_idle /\ initialAnimationComplete demo_idle = true /\
  phase demo_idle = Idle /\
  minDistance (controls (animationFrame 8032 8032 [] demo_startup demo_idle)) = 3.
Proof.
  split; [exact demo_idle_reachable | ].
  split; [exact (proj1 demo_idle_facts) | ].
  split; [exact (proj2 demo_idle_facts) | ].
  destruct (idle_orbit_circle 8032 8032 [] demo_startup demo_idle demo_idle_reachable
              (proj1 demo_idle_facts) (proj2 demo_idle_facts))
    as (_ & _ & H & _).
  exact H.
Defined.

Lemma papers_on_circle_witness :
  reachable demo_paper /\
  exists paper,
    papers demo_paper !! 0%nat = Some paper /\
    exists u, userData_float paper = Some u /\ initialPosition u = paper_home 0.
Proof.
  split; [exact demo_paper_reachable | ].
  destruct demo_paper_first as (paper & Hp).
  exists paper. split; [exact Hp | ].
  destruct (papers_on_circle demo_paper demo_paper_reachable 0%nat paper Hp)
    as (u & Hu & Hhome & _).
  exists u. split; [exact Hu | exact Hhome].
Defined.

Lemma papers_float_about_home_witness :
  reachable demo_paper /\
  hits_exist (papers demo_paper) [(0%nat, [0%nat])] = true /\
  exists paper,
    papers (animationFrame 1000 1000 [(0%nat, [0%nat])] demo_startup demo_paper)
      !! 0%nat = Some paper /\
    exists u, userData_float paper = Some u /\
      Rabs (vx (position paper) - vx (paper_home 0)) <= 0.7 * Rabs (floatRadius u).
Proof.
  split; [exact demo_paper_reachable | ]. split; [exact demo_paper_hit | ].
  destruct demo_hovering_first as (paper & Hp).
  exists paper. split; [exact Hp | ].
  destruct (papers_float_about_home 1000 1000 [(0%nat, [0%nat])] demo_startup
              demo_paper demo_paper_reachable demo_paper_hit 0%nat paper Hp)
    as (u & Hu & Hx & _).
  exists u. split; [exact Hu | exact Hx].
Defined.

Lemma pointer_in_device_square_witness :
  0 < 800 /\ 0 < 600 /\ onMouseMove 0 0 800 600 = vec2 (-1) 1.
Proof.
  assert (0 < 800) as Hw by lra. assert (0 < 600) as Hh by lra.
  split; [exact Hw | ]. split; [exact Hh | ].
  destruct (pointer_in_device_square 400 300 800 600 Hw Hh) as (_ & _ & _ & H & _).
  exact H.
Defined.

Lemma bodies_frame_after_frame_witness :
  moon_children (mkBodies 0 0 0 0 0 0 0 moon_children_built) = moon_children_built /\
  exists b',
    animate_bodies_frames ([(16, 0%nat)] ++ [(32, 1%nat)])
      (mkBodies 0 0 0 0 0 0 0 moon_children_built) = Some b' /\
    moonLabel_opacity b' = Some 0.8.
Proof.
  split; [reflexivity | ].
  destruct (bodies_frame_after_frame [(16, 0%nat)] 32 1%nat
              (mkBodies 0 0 0 0 0 0 0 moon_children_built) eq_refl)
    as (b' & Hrun & _ & _ & _ & _ & _ & _ & _ & Hlabel & _).
  exists b'. split; [exact Hrun | exact Hlabel].
Defined.

Lemma focus_cycle_returns_witness :
  reachable demo_hovering /\ phase demo_hovering = Idle /\
  hits_exist (papers demo_hovering) [(0%nat, [0%nat])] = true /\
  hits_exist (papers demo_zooming) [] = true /\ 1200 <= 2300 - 1010 /\
  hits_exist (papers demo_focused) [] = true /\ 1500 <= 4600 - 3000 /\
  phase demo_restored = Idle /\ minDistance (controls demo_restored) = 3.
Proof.
  assert (1200 <= 2300 - 1010) as H1 by lra.
  assert (1500 <= 4600 - 3000) as H3 by lra.
  split; [exact demo_hovering_reachable | ].
  split; [exact demo_hovering_idle | ]. split; [exact demo_hovering_hit | ].
  split; [reflexivity | ]. split; [exact H1 | ]. split; [reflexivity | ].
  split; [exact H3 | ].
  destruct (focus_cycle_returns 0%nat [0%nat] [] (vec3 0.6 0.4 0.1) 1010
              2300 2300 [] demo_startup [] (vec3 0 0 0) 3000
              4600 4600 [] demo_startup demo_hovering
              demo_hovering_reachable demo_hovering_idle demo_hovering_hit
              eq_refl H1 eq_refl H3)
    as (_ & _ & _ & _ & Hp & _ & _ & _ & Hmin & _).
  split; [exact Hp | exact Hmin].
Defined.

Lemma orbit_angle_waits_witness :
  reachable demo_zooming /\
  deliverable (AnimationFrame 2300 2300 [] demo_startup) demo_zooming /\
  (initialAnimationComplete demo_zooming = false ->
   cameraOrbitAngle demo_zooming = PI / 2).
Proof.
  assert (deliverable (AnimationFrame 2300 2300 [] demo_startup) demo_zooming) as Hd
    by reflexivity.
  split; [exact demo_zooming_reachable | ]. split; [exact Hd | ].
  exact (proj1 (orbit_angle_waits (AnimationFrame 2300 2300 [] demo_startup)
                  demo_zooming demo_zooming_reachable Hd)).
Defined.

Lemma paper_orientation_witness :
  unit_interval 0 /\
  Rabs (euler_y (paper_rotation 0 0 0 0) - (PI / 2 - INR 0 / INR numberOfPapers * PI * 2))
    <= PI / 8.
Proof.
  assert (unit_interval 0) as H by (unfold unit_interval; lra).
  split; [exact H | ].
  destruct (paper_orientation 0%nat 0 0 0 [0.016; 0.032]
              (mkFloatParams (vec3 0 0 0) 0.001 0.0005 0 0.1) (euler 0 0 0) H H H)
    as (_ & Hy & _).
  exact Hy.
Defined.

Lemma resetView_never_returns_early_witness :
  3001 - 3000 < 1500 /\
  isZooming (resetView_at 3000 3001 (script_state demo_startup)) = true.
Proof.
  assert (3001 - 3000 < 1500) as H by lra.
  split; [exact H | ].
  exact (proj1 (resetView_never_returns_early 3000 3001 (script_state demo_startup) H)).
Defined.

Lemma click_selects_nearest_paper_witness :
  reachable demo_hovering /\ phase demo_hovering = Idle /\
  hits_exist (papers demo_hovering) [(0%nat, [0%nat])] = true /\
  1011 - 1010 < 1200 /\
  selectedModel
    (onClick_at [(0%nat, [0%nat])] (vec3 0.6 0.4 0.1) 1010 1011 demo_hovering)
  = Some (0%nat, []).
Proof.
  assert (1011 - 1010 < 1200) as Hrun by lra.
  split; [exact demo_hovering_reachable | ].
  split; [exact demo_hovering_idle | ]. split; [exact demo_hovering_hit | ].
  split; [exact Hrun | ].
  destruct (click_selects_nearest_paper 0%nat [0%nat] [] (vec3 0.6 0.4 0.1) 1010 1011
              demo_hovering demo_hovering_reachable demo_hovering_idle
              demo_hovering_hit Hrun) as (paper & t & _ & Hsel & _).
  exact Hsel.
Defined.

Lemma contact_bounds :
  bounded 100 (position contact_paper) /\
  bounded 100 (cam_position (camera contact_scene)) /\
  bounded 100 (target (controls contact_scene)) /\
  Rabs (2 * maxDimension_of (vec3 0.6 0.4 0.1)) <= 100.
Proof.
  rewrite maxDimension_contact.
  repeat split; simpl; apply Rabs_le; lra.
Defined.

Lemma focus_distance_and_limits_witness :
  zoom_tween_double (0%nat, []) contact_paper (vec3 0.6 0.4 0.1) 0 contact_scene
    contact_tween /\
  1200 <= 1200 - 0 /\
  animateCamera_double contact_tween 1200 contact_scene
    (animateCamera contact_tween 1200 contact_scene) /\
  1 <= 100 <= 1000000 /\
  0 <= maxDimension_of (vec3 0.6 0.4 0.1) /\
  2 * maxDimension_of (vec3 0.6 0.4 0.1) <= 100 /\
  minDistance (controls (animateCamera contact_tween 1200 contact_scene))
    = maxDimension_of (vec3 0.6 0.4 0.1).
Proof.
  pose proof (zoom_tween_double_exact (0%nat, []) contact_paper (vec3 0.6 0.4 0.1) 0
                contact_scene) as Ht.
  pose proof (animateCamera_double_exact contact_tween 1200 contact_scene) as Hd.
  assert (1200 <= 1200 - 0) as Hdone by lra.
  assert (1 <= 100 <= 1000000) as HM by lra.
  assert (0 <= maxDimension_of (vec3 0.6 0.4 0.1)) as Hm
    by (rewrite maxDimension_contact; lra).
  assert (2 * maxDimension_of (vec3 0.6 0.4 0.1) <= 100) as Hm'
    by (rewrite maxDimension_contact; lra).
  destruct contact_bounds as (Hb1 & Hb2 & Hb3 & _).
  split; [exact Ht | ]. split; [exact Hdone | ]. split; [exact Hd | ].
  split; [exact HM | ]. split; [exact Hm | ]. split; [exact Hm' | ].
  destruct (focus_distance_and_limits (0%nat, []) contact_paper (vec3 0.6 0.4 0.1)
              0 contact_scene contact_tween 1200 contact_scene
              (animateCamera contact_tween 1200 contact_scene) 100
              Ht Hdone Hd HM Hb1 Hb2 Hb3 Hm Hm') as (_ & _ & Hmin & _).
  exact Hmin.
Defined.

Lemma focus_tween_stays_between_witness :
  zt_startTime contact_tween <= 600 /\
  animateCamera_double contact_tween 600 contact_scene
    (animateCamera contact_tween 600 contact_scene) /\
  bounded 100 (zt_startPosition contact_tween) /\
  bounded 100 (zt_targetPosition contact_tween) /\
  bounded 100 (zt_startTarget contact_tween) /\
  bounded 100 (zt_modelPosition contact_tween) /\
  in_box_within (6 * (Double.u * 100 + Double.eta))
    (zt_startPosition contact_tween) (zt_targetPosition contact_tween)
    (cam_position (camera (animateCamera contact_tween 600 contact_scene))).
Proof.
  assert (zt_startTime contact_tween <= 600) as H by (simpl; lra).
  pose proof (animateCamera_double_exact contact_tween 600 contact_scene) as Hd.
  destruct contact_bounds as (Hb1 & Hb2 & Hb3 & _).
  assert (bounded 100 (zt_targetPosition contact_tween)) as Hb4.
  { unfold contact_tween, zoom_tween_of. cbn [zt_targetPosition].
    rewrite maxDimension_contact. repeat split; simpl; apply Rabs_le; lra. }
  split; [exact H | ]. split; [exact Hd | ].
  split; [exact Hb2 | ]. split; [exact Hb4 | ]. split; [exact Hb3 | ].
  split; [exact Hb1 | ].
  exact (proj1 (focus_tween_stays_between contact_tween 600 contact_scene
                  (animateCamera contact_tween 600 contact_scene) 100
                  H Hd Hb2 Hb4 Hb3 Hb1)).
Defined.

Lemma star_field_shell_witness :
  Float32.rounding (fun x => x) /\
  (forall i : nat,
     unit_interval (draw_radius (mkStarDraws 0 0 0 0 0 0)) /\
     unit_interval (draw_phi (mkStarDraws 0 0 0 0 0 0)) /\
     unit_interval (draw_size (mkStarDraws 0 0 0 0 0 0)) /\
     unit_interval (draw_brightness (mkStarDraws 0 0 0 0 0 0))) /\
  length (starField_attributes (fun x => x) (fun _ => mkStarDraws 0 0 0 0 0 0))
    = (25 * 1000)%nat.
Proof.
  assert (forall i : nat,
            unit_interval (draw_radius (mkStarDraws 0 0 0 0 0 0)) /\
            unit_interval (draw_phi (mkStarDraws 0 0 0 0 0 0)) /\
            unit_interval (draw_size (mkStarDraws 0 0 0 0 0 0)) /\
            unit_interval (draw_brightness (mkStarDraws 0 0 0 0 0 0))) as H
    by (intros i; unfold unit_interval; simpl; repeat split; lra).
  split; [exact Float32_rounding_id | ]. split; [exact H | ].
  exact (proj1 (star_field_shell (fun x => x) (fun _ => mkStarDraws 0 0 0 0 0 0)
                  Float32_rounding_id H)).
Defined.

Lemma nebula_behind_scene_witness :
  Float32.rounding (fun x => x) /\
  (forall k i : nat,
     unit_interval (ndraw_radius (mkNebulaDraws 0 0 0 0)) /\
     unit_interval (ndraw_phi (mkNebulaDraws 0 0 0 0)) /\
     unit_interval (ndraw_size (mkNebulaDraws 0 0 0 0))) /\
  length (nebulaClouds_attributes (fun x => x) (fun _ => rgb 0 0 0)
            (fun _ _ => mkNebulaDraws 0 0 0 0))
    = 4%nat.
Proof.
  assert (forall k i : nat,
            unit_interval (ndraw_radius (mkNebulaDraws 0 0 0 0)) /\
            unit_interval (ndraw_phi (mkNebulaDraws 0 0 0 0)) /\
            unit_interval (ndraw_size (mkNebulaDraws 0 0 0 0))) as H
    by (intros k i; unfold unit_interval; simpl; repeat split; lra).
  split; [exact Float32_rounding_id | ]. split; [exact H | ].
  exact (proj1 (nebula_behind_scene (fun x => x) (fun _ => rgb 0 0 0)
                  (fun _ _ => mkNebulaDraws 0 0 0 0) Float32_rounding_id H)).
Defined.
